(** * discordongo-db: a shallow embedding of the document engine

    The development follows the TypeScript sources:
    - [Js]         the JavaScript values and the runtime operations the sources rely on;
    - [Updates]    src/utils/updates.ts;
    - [Filters]    src/utils/filters.ts;
    - [Encryption] src/utils/encryption.ts;
    - [DiscordDB]  src/discord-db.ts, over an abstract message transport.
    Two further modules complete it: [DiscordDBMore], the remaining operations
    of src/discord-db.ts, and [Client], src/client/discord-client.ts over an
    abstract [fetch].

    Scope of the value model.  Values are the ones [JSON.parse] produces, plus
    [undefined].  Numbers are integers ([Z]); NaN, infinities and fractions are
    not represented.  [Date] and [RegExp] instances are not represented, so the
    [instanceof Date] / [instanceof RegExp] branches of the sources have no
    counterpart here, and [$regex] receives its pattern as a string.  Objects
    are association lists in insertion order with pairwise distinct keys; keys
    that look like array indices (which JavaScript enumerates first) and names
    inherited from prototypes are not used as field names.  Strings are byte
    strings, so [length] agrees with JavaScript on ASCII text.  Values are
    immutable trees: two values never share a reference, hence [===] on two
    arrays or objects is [false], and every operation returns a new tree and
    leaves its arguments as they were.  (In the sources the copy made by
    [applyUpdate] is shallow: an assignment below the top level also writes
    into the nested object of the caller's document, and into an object of the
    update specification once [$set] has placed it in the document.  Such
    sharing is outside the model of [Updates] and [DiscordDB]; [InPlace]
    embeds [updateMany] and [updateOne] over the objects they write into.)
    Properties are read off own fields: the names that objects inherit from
    [Object.prototype] are not looked up; [Spec.own_path] says of a path
    that its walk meets own fields only.  Sums are those of integers, which
    is what the program computes on safe integers ([Spec.safe_integer]). *)

From Stdlib Require Import ZArith List String Ascii Bool Lia DecimalString.
From Stdlib Require Import Permutation Sorted.
Import ListNotations.
Open Scope string_scope.
Open Scope Z_scope.

(* ================================================================== *)
(** * JavaScript values *)
(* ================================================================== *)

Module Js.

Unset Elimination Schemes.
Inductive value : Type :=
| VUndefined
| VNull
| VBool (b : bool)
| VNum (n : Z)
| VStr (s : string)
| VArr (items : list value)
| VObj (fields : list (string * value)).
Set Elimination Schemes.

(** Structural induction that reaches the elements of arrays and the field
    values of objects. *)
Definition value_ind (P : value -> Prop)
  (Hundef : P VUndefined) (Hnull : P VNull)
  (Hbool : forall b, P (VBool b)) (Hnum : forall n, P (VNum n))
  (Hstr : forall s, P (VStr s))
  (Harr : forall items, Forall P items -> P (VArr items))
  (Hobj : forall fields, Forall (fun kv => P (snd kv)) fields -> P (VObj fields))
  : forall v, P v :=
  fix F (v : value) : P v :=
    match v with
    | VUndefined => Hundef
    | VNull => Hnull
    | VBool b => Hbool b
    | VNum n => Hnum n
    | VStr s => Hstr s
    | VArr items =>
        Harr items ((fix G (l : list value) : Forall P l :=
                       match l with
                       | [] => Forall_nil _
                       | x :: l' => Forall_cons x (F x) (G l')
                       end) items)
    | VObj fields =>
        Hobj fields ((fix G (l : list (string * value)) : Forall (fun kv => P (snd kv)) l :=
                        match l with
                        | [] => Forall_nil _
                        | kv :: l' => Forall_cons kv (F (snd kv)) (G l')
                        end) fields)
    end.

(** Errors.  [instanceof] is read off the class: the three transport and
    validation classes extend [DiscordDBError], which extends [Error]. *)
Inductive error_class :=
| PlainError | SyntaxError | TypeError
| DiscordDBError | ValidationError | AuthenticationError | NetworkError.

Record js_error := mkError { err_class : error_class; err_message : string }.

Inductive result (A : Type) : Type :=
| Ok (a : A)
| Throw (e : js_error).
Arguments Ok {A} a.
Arguments Throw {A} e.

Definition bind {A B} (r : result A) (k : A -> result B) : result B :=
  match r with
  | Ok a => k a
  | Throw e => Throw e
  end.

(** [ToBoolean]. *)
Definition truthy (v : value) : bool :=
  match v with
  | VUndefined | VNull => false
  | VBool b => b
  | VNum n => negb (n =? 0)
  | VStr s => negb (String.eqb s "")
  | VArr _ | VObj _ => true
  end.

Definition typeof (v : value) : string :=
  match v with
  | VUndefined => "undefined"
  | VNull | VArr _ | VObj _ => "object"
  | VBool _ => "boolean"
  | VNum _ => "number"
  | VStr _ => "string"
  end.

(** [typeof v === 'object' && v !== null]. *)
Definition is_object (v : value) : bool :=
  match v with VArr _ | VObj _ => true | _ => false end.

Definition is_number (v : value) : bool :=
  match v with VNum _ => true | _ => false end.

(** [a === b]: by value on primitives, by reference (never shared here) on
    arrays and objects. *)
Definition strict_eq (a b : value) : bool :=
  match a, b with
  | VUndefined, VUndefined => true
  | VNull, VNull => true
  | VBool x, VBool y => Bool.eqb x y
  | VNum x, VNum y => x =? y
  | VStr x, VStr y => String.eqb x y
  | _, _ => false
  end.

(** Decimal rendering of numbers and of array indices. *)
Definition string_of_Z (n : Z) : string := NilZero.string_of_int (Z.to_int n).

Definition index_key (i : nat) : string := NilZero.string_of_uint (Nat.to_uint i).

(** A property name is an array index when it is the decimal rendering of a
    natural number. *)
Definition array_index (key : string) : option nat :=
  match NilEmpty.uint_of_string key with
  | Some u =>
      let i := Nat.of_uint u in
      if String.eqb (index_key i) key then Some i else None
  | None => None
  end.

Fixpoint assoc_get (fields : list (string * value)) (key : string) : value :=
  match fields with
  | [] => VUndefined
  | (k, v) :: rest => if String.eqb k key then v else assoc_get rest key
  end.

Fixpoint assoc_mem (fields : list (string * value)) (key : string) : bool :=
  match fields with
  | [] => false
  | (k, _) :: rest => String.eqb k key || assoc_mem rest key
  end.

(** Assignment keeps the position of an existing key and appends a new one. *)
Fixpoint assoc_set (fields : list (string * value)) (key : string) (x : value)
  : list (string * value) :=
  match fields with
  | [] => [(key, x)]
  | (k, v) :: rest =>
      if String.eqb k key then (k, x) :: rest else (k, v) :: assoc_set rest key x
  end.

Definition assoc_del (fields : list (string * value)) (key : string)
  : list (string * value) :=
  filter (fun kv => negb (String.eqb (fst kv) key)) fields.

Fixpoint list_put (items : list value) (i : nat) (x : value) : list value :=
  match i, items with
  | O, [] => [x]
  | O, _ :: rest => x :: rest
  | S j, [] => VUndefined :: list_put [] j x
  | S j, y :: rest => y :: list_put rest j x
  end.

Definition char_at (s : string) (i : nat) : value :=
  match String.get i s with
  | Some c => VStr (String c EmptyString)
  | None => VUndefined
  end.

(** [v[key]] for a value that is neither [null] nor [undefined]. *)
Definition get_prop (v : value) (key : string) : value :=
  match v with
  | VObj fields => assoc_get fields key
  | VArr items =>
      match array_index key with
      | Some i => nth i items VUndefined
      | None =>
          if String.eqb key "length" then VNum (Z.of_nat (List.length items))
          else VUndefined
      end
  | VStr s =>
      match array_index key with
      | Some i => char_at s i
      | None =>
          if String.eqb key "length" then VNum (Z.of_nat (String.length s))
          else VUndefined
      end
  | _ => VUndefined
  end.

(** [key in v] for an object or an array. *)
Definition has_prop (v : value) (key : string) : bool :=
  match v with
  | VObj fields => assoc_mem fields key
  | VArr items =>
      match array_index key with
      | Some i => Nat.ltb i (List.length items)
      | None => String.eqb key "length"
      end
  | _ => false
  end.

(** [v[key] = x] for an object or an array.  On an array an index beyond the
    end pads with [undefined] (standing for holes); a write to a property of an
    array that is not an index is outside the model and leaves the array as it
    is. *)
Definition set_prop (v : value) (key : string) (x : value) : value :=
  match v with
  | VObj fields => VObj (assoc_set fields key x)
  | VArr items =>
      match array_index key with
      | Some i => VArr (list_put items i x)
      | None => VArr items
      end
  | _ => v
  end.

(** [delete v[key]]. *)
Definition delete_prop (v : value) (key : string) : value :=
  match v with
  | VObj fields => VObj (assoc_del fields key)
  | VArr items =>
      match array_index key with
      | Some i => if Nat.ltb i (List.length items) then VArr (list_put items i VUndefined) else v
      | None => v
      end
  | _ => v
  end.

Fixpoint indexed {A} (i : nat) (l : list A) : list (string * A) :=
  match l with
  | [] => []
  | x :: rest => (index_key i, x) :: indexed (S i) rest
  end.

Fixpoint chars (s : string) : list value :=
  match s with
  | EmptyString => []
  | String c rest => VStr (String c EmptyString) :: chars rest
  end.

(** [Object.entries(v)] for a value that is neither [null] nor [undefined]. *)
Definition Object_entries (v : value) : list (string * value) :=
  match v with
  | VObj fields => fields
  | VArr items => indexed 0 items
  | VStr s => indexed 0 (chars s)
  | _ => []
  end.

Definition Object_keys (v : value) : list string := map fst (Object_entries v).

Definition Object_values (v : value) : list value := map snd (Object_entries v).

(** [{ ...base, ...extra }]. *)
Definition spread (base : list (string * value)) (extra : value) : list (string * value) :=
  match extra with
  | VUndefined | VNull => base
  | _ => fold_left (fun acc kv => assoc_set acc (fst kv) (snd kv)) (Object_entries extra) base
  end.

(** [s.split(c)]: never empty. *)
Fixpoint split_on (c : ascii) (s : string) : list string :=
  match s with
  | EmptyString => [EmptyString]
  | String a rest =>
      if Ascii.eqb a c then EmptyString :: split_on c rest
      else match split_on c rest with
           | h :: t => String a h :: t
           | [] => [String a EmptyString]
           end
  end.

Definition split_dots (path : string) : list string := split_on "."%char path.

Fixpoint starts_with (prefix s : string) : bool :=
  match prefix, s with
  | EmptyString, _ => true
  | String a p, String b r => Ascii.eqb a b && starts_with p r
  | String _ _, EmptyString => false
  end.

Fixpoint join (sep : string) (l : list string) : string :=
  match l with
  | [] => ""
  | [x] => x
  | x :: rest => x ++ sep ++ join sep rest
  end.

(** [String(v)]: arrays join their elements with commas, [null] and
    [undefined] elements contributing the empty string. *)
Fixpoint String_ (v : value) : string :=
  match v with
  | VUndefined => "undefined"
  | VNull => "null"
  | VBool true => "true"
  | VBool false => "false"
  | VNum n => string_of_Z n
  | VStr s => s
  | VArr items =>
      join "," (map (fun x => match x with
                              | VUndefined | VNull => ""
                              | _ => String_ x
                              end) items)
  | VObj _ => "[object Object]"
  end.

(** ** [JSON.stringify] *)

Definition dquote : string := String (ascii_of_nat 34) EmptyString.
Definition backslash : string := String (ascii_of_nat 92) EmptyString.

Definition hex_digit (n : nat) : ascii :=
  if Nat.ltb n 10 then ascii_of_nat (48 + n) else ascii_of_nat (87 + n).

Definition hex_byte (n : nat) : string :=
  String (hex_digit (Nat.div n 16)) (String (hex_digit (Nat.modulo n 16)) EmptyString).

Definition escape_char (c : ascii) : string :=
  let n := nat_of_ascii c in
  if Nat.eqb n 34 then backslash ++ dquote
  else if Nat.eqb n 92 then backslash ++ backslash
  else if Nat.eqb n 8 then backslash ++ "b"
  else if Nat.eqb n 9 then backslash ++ "t"
  else if Nat.eqb n 10 then backslash ++ "n"
  else if Nat.eqb n 12 then backslash ++ "f"
  else if Nat.eqb n 13 then backslash ++ "r"
  else if Nat.ltb n 32 then backslash ++ "u00" ++ hex_byte n
  else String c EmptyString.

Fixpoint escape (s : string) : string :=
  match s with
  | EmptyString => EmptyString
  | String c rest => escape_char c ++ escape rest
  end.

Definition quote (s : string) : string := dquote ++ escape s ++ dquote.

(** Serialisation of a value other than [undefined]: a field whose value is
    [undefined] is left out, an [undefined] array element is written [null]. *)
Fixpoint stringify (v : value) : string :=
  match v with
  | VUndefined | VNull => "null"
  | VBool true => "true"
  | VBool false => "false"
  | VNum n => string_of_Z n
  | VStr s => quote s
  | VArr items => "[" ++ join "," (map stringify items) ++ "]"
  | VObj fields =>
      "{" ++ join ","
        ((fix members (l : list (string * value)) : list string :=
            match l with
            | [] => []
            | (k, VUndefined) :: rest => members rest
            | (k, x) :: rest => (quote k ++ ":" ++ stringify x) :: members rest
            end) fields) ++ "}"
  end.

(** [JSON.stringify(v)] is [undefined], not a string, when [v] is. *)
Definition JSON_stringify (v : value) : option string :=
  match v with
  | VUndefined => None
  | _ => Some (stringify v)
  end.

(** ** The rest of the runtime *)

(** What [new RegExp(pattern, flags)] does: it returns an expression, given
    here by its [test] method, or throws a SyntaxError whose message is the
    engine's. *)
Inductive regexp :=
| Compiled (test : string -> bool)
| Rejected (message : string).

(** What the sources take from the JavaScript runtime and this development
    does not define: regular expressions, locale-aware string ordering, the
    conversion of strings to numbers ([None] for NaN) and [JSON.parse] ([None]
    for a SyntaxError). *)
Class Runtime := {
  RegExp_new : string -> string -> regexp;
  localeCompare : string -> string -> Z;
  StringToNumber : string -> option Z;
  JSON_parse : string -> option value
}.

End Js.

(* ================================================================== *)
(** * src/utils/updates.ts *)
(* ================================================================== *)

Module Updates.
Import Js.

(** [path.split('.').reduce(...)]: one step per segment. *)
Definition getNestedValue (obj : value) (path : string) : value :=
  fold_left (fun current key => if truthy current then get_prop current key else VUndefined)
            (split_dots path) obj.

(** The loop of [setNestedValue], by recursion on the remaining segments; the
    in-place assignments become a rebuilt tree. *)
Fixpoint set_at (current : value) (keys : list string) (x : value) : value :=
  match keys with
  | [] => current
  | [key] => set_prop current key x
  | key :: rest =>
      let child :=
        if negb (has_prop current key) || negb (is_object (get_prop current key))
        then VObj []
        else get_prop current key in
      set_prop current key (set_at child rest x)
  end.

Definition setNestedValue (obj : value) (path : string) (x : value) : value :=
  set_at obj (split_dots path) x.

Fixpoint unset_at (current : value) (keys : list string) : value :=
  match keys with
  | [] => current
  | [key] => delete_prop current key
  | key :: rest =>
      if negb (has_prop current key) || negb (is_object (get_prop current key))
      then current
      else set_prop current key (unset_at (get_prop current key) rest)
  end.

Definition unsetNestedValue (obj : value) (path : string) : value :=
  unset_at obj (split_dots path).

Fixpoint deepEqual (a b : value) {struct a} : bool :=
  if strict_eq a b then true
  else
    match a with
    | VArr xs =>
        match b with
        | VArr ys =>
            Nat.eqb (List.length xs) (List.length ys)
            && (fix every (i : nat) (l : list value) : bool :=
                  match l with
                  | [] => true
                  | item :: rest => deepEqual item (nth i ys VUndefined) && every (S i) rest
                  end) O xs
        | VObj _ =>
            Nat.eqb (List.length xs) (List.length (Object_keys b))
            && (fix every (i : nat) (l : list value) : bool :=
                  match l with
                  | [] => true
                  | item :: rest => deepEqual item (get_prop b (index_key i)) && every (S i) rest
                  end) O xs
        | _ => false
        end
    | VObj fs =>
        if is_object b then
          Nat.eqb (List.length fs) (List.length (Object_keys b))
          && (fix every (l : list (string * value)) : bool :=
                match l with
                | [] => true
                | (key, x) :: rest => deepEqual x (get_prop b key) && every rest
                end) fs
        else false
    | _ => false
    end.

Definition isUpdateOperators (update : value) : bool :=
  if negb (is_object update) then false
  else existsb (starts_with "$") (Object_keys update).

Definition forEach {A} (entries : list (string * value)) (step : A -> string -> value -> A)
  (init : A) : A :=
  fold_left (fun acc kv => step acc (fst kv) (snd kv)) entries init.

(** One operator group: skipped when the group is absent (falsy). *)
Definition group (operators : value) (name : string)
  (step : value -> string -> value -> value) (doc : value) : value :=
  let g := get_prop operators name in
  if truthy g then forEach (Object_entries g) step doc else doc.

Definition inc_step (updatedDoc : value) (key : string) (increment : value) : value :=
  let got := getNestedValue updatedDoc key in
  let currentValue := if truthy got then got else VNum 0 in
  match currentValue, increment with
  | VNum c, VNum i => setNestedValue updatedDoc key (VNum (c + i))
  | _, _ => updatedDoc
  end.

Definition push_step (updatedDoc : value) (key : string) (x : value) : value :=
  match getNestedValue updatedDoc key with
  | VArr currentValue => setNestedValue updatedDoc key (VArr (currentValue ++ [x])%list)
  | _ => setNestedValue updatedDoc key (VArr [x])
  end.

Definition pull_step (updatedDoc : value) (key : string) (x : value) : value :=
  match getNestedValue updatedDoc key with
  | VArr currentValue =>
      setNestedValue updatedDoc key
        (VArr (filter (fun item => negb (deepEqual item x)) currentValue))
  | _ => updatedDoc
  end.

Definition addToSet_step (updatedDoc : value) (key : string) (x : value) : value :=
  match getNestedValue updatedDoc key with
  | VArr currentValue =>
      if existsb (fun item => deepEqual item x) currentValue then updatedDoc
      else setNestedValue updatedDoc key (VArr (currentValue ++ [x])%list)
  | _ => setNestedValue updatedDoc key (VArr [x])
  end.

Definition applyUpdate (document update : value) : value :=
  let updatedDoc := VObj (Object_entries document) in
  if negb (isUpdateOperators update) then VObj (spread (Object_entries updatedDoc) update)
  else
    let operators := update in
    let d1 := group operators "$set" setNestedValue updatedDoc in
    let d2 := group operators "$unset" (fun d key _ => unsetNestedValue d key) d1 in
    let d3 := group operators "$inc" inc_step d2 in
    let d4 := group operators "$push" push_step d3 in
    let d5 := group operators "$pull" pull_step d4 in
    group operators "$addToSet" addToSet_step d5.

Definition plain (msg : string) : js_error := mkError PlainError msg.

Fixpoint check_entries (check : string -> value -> result unit)
  (entries : list (string * value)) : result unit :=
  match entries with
  | [] => Ok tt
  | (key, x) :: rest => bind (check key x) (fun _ => check_entries check rest)
  end.

Definition validateUpdate (update : value) : result unit :=
  if negb (truthy update) || negb (String.eqb (typeof update) "object")
  then Throw (plain "Update must be an object")
  else if isUpdateOperators update then
    let operators := update in
    bind
      (if truthy (get_prop operators "$inc") then
         check_entries (fun key x =>
           if is_number x then Ok tt
           else Throw (plain ("$inc operator requires numeric values. Got " ++ typeof x
                              ++ " for field " ++ dquote ++ key ++ dquote)))
           (Object_entries (get_prop operators "$inc"))
       else Ok tt)
      (fun _ =>
         if truthy (get_prop operators "$unset") then
           check_entries (fun key x =>
             if strict_eq x (VNum 1) || strict_eq x (VBool true) then Ok tt
             else Throw (plain ("$unset operator requires value 1 or true. Got " ++ String_ x
                                ++ " for field " ++ dquote ++ key ++ dquote)))
             (Object_entries (get_prop operators "$unset"))
         else Ok tt)
  else Ok tt.

End Updates.

(* ================================================================== *)
(** * src/utils/filters.ts *)
(* ================================================================== *)

Module Filters.
Import Js.

Section WithRuntime.
Context {RT : Runtime}.

Definition getNestedValue (obj : value) (path : string) : value :=
  fold_left (fun current key => if truthy current then get_prop current key else VUndefined)
            (split_dots path) obj.

Fixpoint compareValues (a b : value) {struct a} : bool :=
  if strict_eq a b then true
  else
    match a with
    | VArr xs =>
        match b with
        | VArr ys =>
            Nat.eqb (List.length xs) (List.length ys)
            && (fix every (i : nat) (l : list value) : bool :=
                  match l with
                  | [] => true
                  | item :: rest => compareValues item (nth i ys VUndefined) && every (S i) rest
                  end) O xs
        | VObj _ =>
            Nat.eqb (List.length xs) (List.length (Object_keys b))
            && (fix every (i : nat) (l : list value) : bool :=
                  match l with
                  | [] => true
                  | item :: rest => compareValues item (get_prop b (index_key i)) && every (S i) rest
                  end) O xs
        | _ => false
        end
    | VObj fs =>
        if is_object b then
          Nat.eqb (List.length fs) (List.length (Object_keys b))
          && (fix every (l : list (string * value)) : bool :=
                match l with
                | [] => true
                | (key, x) :: rest => compareValues x (get_prop b key) && every rest
                end) fs
        else false
    | _ => false
    end.

(** The relational operators [<], [>], [<=], [>=]: [ToPrimitive] turns arrays
    and objects into strings, two strings compare by character codes, and
    anything else compares as numbers; [None] when a side is NaN. *)
Definition ToPrimitive (v : value) : value :=
  match v with
  | VArr _ | VObj _ => VStr (String_ v)
  | _ => v
  end.

Definition ToNumber (v : value) : option Z :=
  match v with
  | VUndefined => None
  | VNull => Some 0
  | VBool b => Some (if b then 1 else 0)
  | VNum n => Some n
  | VStr s => StringToNumber s
  | VArr _ | VObj _ => None
  end.

Definition relational (a b : value) : option comparison :=
  match ToPrimitive a, ToPrimitive b with
  | VStr x, VStr y => Some (String.compare x y)
  | pa, pb =>
      match ToNumber pa, ToNumber pb with
      | Some x, Some y => Some (Z.compare x y)
      | _, _ => None
      end
  end.

Definition js_gt (a b : value) : bool :=
  match relational a b with Some Gt => true | _ => false end.
Definition js_gte (a b : value) : bool :=
  match relational a b with Some Gt | Some Eq => true | _ => false end.
Definition js_lt (a b : value) : bool :=
  match relational a b with Some Lt => true | _ => false end.
Definition js_lte (a b : value) : bool :=
  match relational a b with Some Lt | Some Eq => true | _ => false end.

(** [every] and [some] over a callback that may throw: they stop at the first
    element that decides the answer. *)
Fixpoint everyM {A} (p : A -> result bool) (l : list A) : result bool :=
  match l with
  | [] => Ok true
  | x :: rest => bind (p x) (fun b => if b then everyM p rest else Ok false)
  end.

Fixpoint someM {A} (p : A -> result bool) (l : list A) : result bool :=
  match l with
  | [] => Ok false
  | x :: rest => bind (p x) (fun b => if b then Ok true else someM p rest)
  end.

Definition notM (r : result bool) : result bool := bind r (fun b => Ok (negb b)).

(** [new RegExp(pattern, flags).test(String(docValue))]. *)
Definition regex_test (pattern flags docValue : value) : result bool :=
  let source := match pattern with VUndefined => "(?:)" | _ => String_ pattern end in
  let fl := match flags with VUndefined => "" | _ => String_ flags end in
  match RegExp_new source fl with
  | Compiled test => Ok (test (String_ docValue))
  | Rejected message => Throw (mkError SyntaxError message)
  end.

(** [evaluateOperators], with the recursive call to [matchesFilter] passed in. *)
Definition evaluateOperatorsF (matches : value -> value -> result bool)
  (docValue : value) (operators : list (string * value)) : result bool :=
  everyM (fun entry =>
    let operator := fst entry in
    let operatorValue := snd entry in
    if String.eqb operator "$eq" then Ok (compareValues docValue operatorValue)
    else if String.eqb operator "$ne" then Ok (negb (compareValues docValue operatorValue))
    else if String.eqb operator "$gt" then Ok (js_gt docValue operatorValue)
    else if String.eqb operator "$gte" then Ok (js_gte docValue operatorValue)
    else if String.eqb operator "$lt" then Ok (js_lt docValue operatorValue)
    else if String.eqb operator "$lte" then Ok (js_lte docValue operatorValue)
    else if String.eqb operator "$in" then
      Ok (match operatorValue with
          | VArr vals => existsb (fun val => compareValues docValue val) vals
          | _ => false
          end)
    else if String.eqb operator "$nin" then
      Ok (match operatorValue with
          | VArr vals => negb (existsb (fun val => compareValues docValue val) vals)
          | _ => false
          end)
    else if String.eqb operator "$exists" then
      Ok (if truthy operatorValue then negb (strict_eq docValue VUndefined)
          else strict_eq docValue VUndefined)
    else if String.eqb operator "$regex" then
      regex_test operatorValue (assoc_get operators "$options") docValue
    else if String.eqb operator "$and" then Ok true
    else if String.eqb operator "$or" then Ok true
    else if String.eqb operator "$not" then
      notM (matches (VObj [("docValue", docValue)]) operatorValue)
    else Ok true) operators.

Definition evaluateFieldFilterF (matches : value -> value -> result bool)
  (document : value) (key : string) (filterValue : value) : result bool :=
  let docValue := getNestedValue document key in
  match filterValue with
  | VObj operators => evaluateOperatorsF matches docValue operators
  | _ => Ok (compareValues docValue filterValue)
  end.

(** [matchesFilter].  A filter is an object; the other cases spell out what
    the same code does on the values a sub-filter position can hold: a falsy
    value or one without own keys matches, and a string or an array is read
    through its index keys, whose values are compared as field filters. *)
Fixpoint matchesFilter (document filter : value) {struct filter} : result bool :=
  match filter with
  | VUndefined | VNull | VBool _ | VNum _ => Ok true
  | VStr s =>
      Ok (forallb (fun entry => compareValues (getNestedValue document (fst entry)) (snd entry))
                  (Object_entries filter))
  | VArr items =>
      (fix every (i : nat) (l : list value) : result bool :=
         match l with
         | [] => Ok true
         | x :: rest =>
             bind (evaluateFieldFilterF matchesFilter document (index_key i) x)
                  (fun b => if b then every (S i) rest else Ok false)
         end) O items
  | VObj fields =>
      everyM (fun entry =>
        let key := fst entry in
        let x := snd entry in
        if String.eqb key "$and" then
          match x with
          | VArr subs => everyM (fun subFilter => matchesFilter document subFilter) subs
          | _ => Ok false
          end
        else if String.eqb key "$or" then
          match x with
          | VArr subs => someM (fun subFilter => matchesFilter document subFilter) subs
          | _ => Ok false
          end
        else if String.eqb key "$not" then notM (matchesFilter document x)
        else evaluateFieldFilterF matchesFilter document key x) fields
  end.

Definition evaluateOperators (docValue : value) (operators : list (string * value))
  : result bool :=
  evaluateOperatorsF matchesFilter docValue operators.

Definition evaluateFieldFilter (document : value) (key : string) (filterValue : value)
  : result bool :=
  evaluateFieldFilterF matchesFilter document key filterValue.

(** ** Sorting *)

Definition normalizeSortDirection (direction : value) : Z :=
  if strict_eq direction (VNum 1) || strict_eq direction (VStr "asc") then 1
  else if strict_eq direction (VNum (-1)) || strict_eq direction (VStr "desc") then -1
  else 1.

Definition nullish (v : value) : bool :=
  match v with VUndefined | VNull => true | _ => false end.

Definition compareForSort (a b : value) : Z :=
  if strict_eq a b then 0
  else if nullish a then -1
  else if nullish b then 1
  else match a, b with
       | VStr x, VStr y => localeCompare x y
       | VNum x, VNum y => x - y
       | _, _ => localeCompare (String_ a) (String_ b)
       end.

(** The comparator handed to [sort]: the first sort key on which the two
    documents differ decides. *)
Fixpoint sort_comparator (entries : list (string * value)) (a b : value) : Z :=
  match entries with
  | [] => 0
  | (field, direction) :: rest =>
      let comparison := compareForSort (getNestedValue a field) (getNestedValue b field) in
      if negb (comparison =? 0) then comparison * normalizeSortDirection direction
      else sort_comparator rest a b
  end.

(** [Array.prototype.sort] is stable; it is rendered as a stable insertion
    sort, which is what any stable sort computes for a consistent comparator. *)
Fixpoint insert_sorted (cmp : value -> value -> Z) (x : value) (l : list value) : list value :=
  match l with
  | [] => [x]
  | y :: rest => if cmp x y <=? 0 then x :: y :: rest else y :: insert_sorted cmp x rest
  end.

Definition Array_sort (cmp : value -> value -> Z) (l : list value) : list value :=
  fold_right (insert_sorted cmp) [] l.

Definition sortDocuments (documents : list value) (sortOption : value) : list value :=
  if negb (truthy sortOption) || Nat.eqb (List.length (Object_keys sortOption)) 0
  then documents
  else Array_sort (sort_comparator (Object_entries sortOption)) documents.

(** ** Projection *)

Definition project_inclusive (projection doc : value) : value :=
  let projected :=
    fold_left (fun acc entry =>
                 if strict_eq (snd entry) (VNum 1)
                 then set_prop acc (fst entry) (getNestedValue doc (fst entry))
                 else acc)
              (Object_entries projection) (VObj []) in
  if negb (strict_eq (get_prop projection "_id") (VNum 0))
  then set_prop projected "_id" (get_prop doc "_id")
  else projected.

Definition project_exclusive (projection doc : value) : value :=
  fold_left (fun acc entry =>
               if strict_eq (snd entry) (VNum 0) then delete_prop acc (fst entry) else acc)
            (Object_entries projection) (VObj (Object_entries doc)).

Definition applyProjection (documents : list value) (projection : value) : list value :=
  if negb (truthy projection) || Nat.eqb (List.length (Object_keys projection)) 0
  then documents
  else
    let isInclusive := existsb (fun val => strict_eq val (VNum 1)) (Object_values projection) in
    map (fun doc => if isInclusive then project_inclusive projection doc
                    else project_exclusive projection doc) documents.

(** ** Pagination *)

(** [l.slice(start, end)]: a negative bound counts from the end. *)
Definition slice_bound {A} (l : list A) (k : Z) : nat :=
  let len := Z.of_nat (List.length l) in
  Z.to_nat (if k <? 0 then Z.max (len + k) 0 else Z.min k len).

Definition slice {A} (l : list A) (start : Z) (stop : option Z) : list A :=
  let from := slice_bound l start in
  let to := match stop with Some e => slice_bound l e | None => List.length l end in
  firstn (to - from) (skipn from l).

Definition applyPagination (documents : list value) (skip limit : option Z) : list value :=
  let skip := match skip with Some k => k | None => 0 end in
  let result := slice documents skip None in
  match limit with
  | Some n => slice result 0 (Some n)
  | None => result
  end.

End WithRuntime.
End Filters.

(* ================================================================== *)
(** * src/utils/encryption.ts *)
(* ================================================================== *)

Module Encryption.
Import Js.

(** ** Hexadecimal text, as [Buffer.toString('hex')] and [Buffer.from(s, 'hex')] *)

Definition to_hex (bytes : list Byte.byte) : string :=
  fold_right (fun b acc => hex_byte (Byte.to_nat b) ++ acc) EmptyString bytes.

Definition hex_value (c : ascii) : option nat :=
  let n := nat_of_ascii c in
  if Nat.leb 48 n && Nat.leb n 57 then Some (n - 48)%nat
  else if Nat.leb 97 n && Nat.leb n 102 then Some (n - 87)%nat
  else if Nat.leb 65 n && Nat.leb n 70 then Some (n - 55)%nat
  else None.

(** Decoding stops at the first pair that is not two hexadecimal digits. *)
Fixpoint from_hex (s : string) : list Byte.byte :=
  match s with
  | String hi (String lo rest) =>
      match hex_value hi, hex_value lo with
      | Some h, Some l =>
          match Byte.of_nat (16 * h + l) with
          | Some b => b :: from_hex rest
          | None => []
          end
      | _, _ => []
      end
  | _ => []
  end.

(** What the module takes from Node's [crypto]: the SHA-256 digest, and a
    cipher and a decipher object for an algorithm, a key and an initialisation
    vector, each driven through one [update] and one [final]; the pair is what
    the two calls return, and [Throw] stands for an exception from the
    construction or from either call. *)
Class Crypto := {
  sha256 : string -> list Byte.byte;
  cipher_run : string -> list Byte.byte -> list Byte.byte -> string
               -> result (list Byte.byte * list Byte.byte);
  decipher_run : string -> list Byte.byte -> list Byte.byte -> list Byte.byte
                 -> result (string * string)
}.

Record EncryptedData := mkEncrypted { data : string; iv : string; encrypted : bool }.

Record EncryptionService := mkService { key : list Byte.byte; algorithm : string }.

Section WithCrypto.
Context {CR : Crypto}.

Definition deriveKey (encryptionKey : string) : list Byte.byte := sha256 encryptionKey.

(** [new EncryptionService(encryptionKey, options)]; [options.algorithm] is
    [None] when absent. *)
Definition new_service (encryptionKey : string) (option_algorithm : option string)
  : EncryptionService :=
  let alg := match option_algorithm with
             | Some a => if String.eqb a "" then "aes-256-cbc" else a
             | None => "aes-256-cbc"
             end in
  mkService (deriveKey encryptionKey) alg.

(** [service.encrypt(data)]; [random_iv] is what [randomBytes(16)] returned. *)
Definition service_encrypt (service : EncryptionService) (random_iv : list Byte.byte)
  (plaintext : string) : result EncryptedData :=
  match cipher_run (algorithm service) (key service) random_iv plaintext with
  | Ok (updated, final) =>
      let encrypted := to_hex updated in
      let encrypted := encrypted ++ to_hex final in
      Ok (mkEncrypted encrypted (to_hex random_iv) true)
  | Throw e => Throw (mkError PlainError ("Encryption failed: " ++ err_message e))
  end.

Definition service_decrypt (service : EncryptionService) (encryptedData : EncryptedData)
  : result string :=
  let iv_bytes := from_hex (iv encryptedData) in
  match decipher_run (algorithm service) (key service) iv_bytes (from_hex (data encryptedData)) with
  | Ok (updated, final) =>
      let decrypted := updated in
      let decrypted := decrypted ++ final in
      Ok decrypted
  | Throw e => Throw (mkError PlainError ("Decryption failed: " ++ err_message e))
  end.

(** The exported helpers. *)
Definition encrypt (plaintext encryptionKey : string) (random_iv : list Byte.byte)
  : result EncryptedData :=
  service_encrypt (new_service encryptionKey None) random_iv plaintext.

Definition decrypt (encryptedData : EncryptedData) (encryptionKey : string) : result string :=
  service_decrypt (new_service encryptionKey None) encryptedData.

End WithCrypto.

(** [EncryptionService.isEncrypted(data)]. *)
Definition isEncrypted (v : value) : bool :=
  String.eqb (typeof v) "object"
  && negb (strict_eq v VNull)
  && strict_eq (get_prop v "encrypted") (VBool true)
  && String.eqb (typeof (get_prop v "data")) "string"
  && String.eqb (typeof (get_prop v "iv")) "string".

End Encryption.

(* ================================================================== *)
(** * src/discord-db.ts *)
(* ================================================================== *)

Module DiscordDB.
Import Js Filters.

Record message := mkMessage { id : string; content : string; timestamp : string }.

(** The requests that the operations embedded here ([find], [findOne],
    [updateOne], [deleteOne], [updateMany] and the private [getAllDocuments])
    send to the transport. *)
Inductive request :=
| GetAllMessages
| EditMessage (messageId content : string)
| DeleteMessage (messageId : string).

(** The transport: each answer is a function of the requests dispatched so far
    and of the new request. *)
Class Transport := {
  client_getAllMessages : list request -> result (list message);
  client_editMessage : list request -> string -> string -> result message;
  client_deleteMessage : list request -> string -> result unit
}.

(** The store ([cache] is the [Map], in insertion order) together with the
    requests it has dispatched. *)
Record state := mkState {
  cache : list (value * value);
  lastCacheUpdate : Z;
  cacheTimeout : Z;
  requests : list request
}.

Record QueryOptions := mkOptions {
  limit : option Z;
  skip : option Z;
  sort : value;
  projection : value
}.

Record FindResult := mkFind { documents : list value; total : Z; hasMore : bool }.

Record UpdateResult := mkUpdate { acknowledged : bool; matchedCount : Z; modifiedCount : Z }.

Record DeleteResult := mkDelete { del_acknowledged : bool; deletedCount : Z }.

(** ** The [Map] holding the cache *)

Fixpoint Map_set (m : list (value * value)) (k v : value) : list (value * value) :=
  match m with
  | [] => [(k, v)]
  | (k', v') :: rest =>
      if strict_eq k' k then (k', v) :: rest else (k', v') :: Map_set rest k v
  end.

Definition Map_delete (m : list (value * value)) (k : value) : list (value * value) :=
  filter (fun kv => negb (strict_eq (fst kv) k)) m.

Definition Map_values (m : list (value * value)) : list value := map snd m.

(** ** Errors *)

Definition instanceof_DiscordDBError (e : js_error) : bool :=
  match err_class e with
  | DiscordDBError | ValidationError | AuthenticationError | NetworkError => true
  | _ => false
  end.

Definition handleError (e : js_error) : js_error :=
  if instanceof_DiscordDBError e then e else mkError DiscordDBError (err_message e).

Definition rethrow {A} (r : result A) : result A :=
  match r with
  | Ok a => Ok a
  | Throw e => Throw (handleError e)
  end.

Section WithTransport.
Context {RT : Runtime} {TR : Transport}.

Definition with_cache (st : state) (c : list (value * value)) : state :=
  mkState c (lastCacheUpdate st) (cacheTimeout st) (requests st).

Definition dispatched (st : state) (r : request) : state :=
  mkState (cache st) (lastCacheUpdate st) (cacheTimeout st) (requests st ++ [r])%list.

(** ** [getAllDocuments] *)

(** [message.content.trim()] is falsy when the content is made of white space
    only (of the ASCII kind, on byte strings). *)
Definition is_whitespace (c : ascii) : bool :=
  let n := nat_of_ascii c in
  (Nat.leb 9 n && Nat.leb n 13) || Nat.eqb n 32.

Fixpoint blank (s : string) : bool :=
  match s with
  | EmptyString => true
  | String c rest => is_whitespace c && blank rest
  end.

(** One turn of the loop over the messages: [None] when the entry is skipped
    (blank content, a parse error, a value that is not an object, a missing
    identifier), otherwise the document as it is pushed and cached. *)
Definition parse_message (m : message) : option value :=
  if blank (content m) then None
  else
    match JSON_parse (content m) with
    | Some (VObj fields) =>
        let doc := set_prop (set_prop (VObj fields) "_messageId" (VStr (id m)))
                            "_timestamp" (VStr (timestamp m)) in
        if truthy (get_prop doc "_id") then Some doc else None
    | _ => None
    end.

Definition reload_step (acc : list value * list (value * value)) (m : message)
  : list value * list (value * value) :=
  match parse_message m with
  | Some doc => ((fst acc ++ [doc])%list, Map_set (snd acc) (get_prop doc "_id") doc)
  | None => acc
  end.

Definition getAllDocuments (now : Z) (st : state) : result (list value) * state :=
  if (now - lastCacheUpdate st <? cacheTimeout st) && Nat.ltb 0 (List.length (cache st))
  then (Ok (Map_values (cache st)), st)
  else
    match client_getAllMessages (requests st) with
    | Throw e => (Throw (handleError e), dispatched st GetAllMessages)
    | Ok messages =>
        let loaded := fold_left reload_step messages ([], []) in
        (Ok (fst loaded),
         mkState (snd loaded) now (cacheTimeout st)
                 (requests st ++ [GetAllMessages])%list)
    end.

(** ** [find] and [findOne] *)

Fixpoint filterM (p : value -> result bool) (l : list value) : result (list value) :=
  match l with
  | [] => Ok []
  | x :: rest =>
      bind (p x) (fun keep =>
      bind (filterM p rest) (fun kept => Ok (if keep then x :: kept else kept)))
  end.

Definition default_filter (filter : value) : value :=
  match filter with VUndefined => VObj [] | _ => filter end.

(** The body of [find] once the documents are at hand. *)
Definition find_in (docs : list value) (filter : value) (options : QueryOptions)
  : result FindResult :=
  bind (filterM (fun doc => matchesFilter doc (default_filter filter)) docs) (fun filteredDocs =>
  let sorted := if truthy (sort options) then sortDocuments filteredDocs (sort options)
                else filteredDocs in
  let total := Z.of_nat (List.length sorted) in
  let page := applyPagination sorted (skip options) (limit options) in
  let projected := if truthy (projection options) then applyProjection page (projection options)
                   else page in
  let limited := match limit options with Some n => negb (n =? 0) | None => false end in
  let skipped := match skip options with Some k => k | None => 0 end in
  Ok (mkFind projected total
        (if limited then skipped + Z.of_nat (List.length projected) <? total else false))).

Definition find (filter : value) (options : QueryOptions) (now : Z) (st : state)
  : result FindResult * state :=
  match getAllDocuments now st with
  | (Throw e, st') => (Throw (handleError e), st')
  | (Ok docs, st') => (rethrow (find_in docs filter options), st')
  end.

(** [result.documents[0] || null]. *)
Definition first_or_null (docs : list value) : value :=
  match docs with
  | doc :: _ => if truthy doc then doc else VNull
  | [] => VNull
  end.

Definition findOne (filter : value) (now : Z) (st : state) : result value * state :=
  match find filter (mkOptions (Some 1) None VUndefined VUndefined) now st with
  | (Ok r, st') => (Ok (first_or_null (documents r)), st')
  | (Throw e, st') => (Throw e, st')
  end.

(** ** [updateOne] and [deleteOne] *)

Definition too_large (content : string) : bool := Nat.ltb 2000 (String.length content).

Definition serialize (doc : value) : result string :=
  match JSON_stringify doc with
  | Some content => Ok content
  | None => Throw (mkError TypeError "Cannot read properties of undefined (reading 'length')")
  end.

Definition updateOne (filter update : value) (now : Z) (st : state)
  : result UpdateResult * state :=
  match Updates.validateUpdate update with
  | Throw e => (Throw (handleError e), st)
  | Ok _ =>
      match findOne filter now st with
      | (Throw e, st1) => (Throw (handleError e), st1)
      | (Ok document, st1) =>
          if negb (truthy document) then (Ok (mkUpdate true 0 0), st1)
          else
            let updatedDoc := Updates.applyUpdate document update in
            match serialize updatedDoc with
            | Throw e => (Throw (handleError e), st1)
            | Ok content =>
                if too_large content
                then (Throw (handleError (mkError ValidationError "Updated document too large.")), st1)
                else
                  let messageId := String_ (get_prop document "_messageId") in
                  let st2 := dispatched st1 (EditMessage messageId content) in
                  match client_editMessage (requests st1) messageId content with
                  | Throw e => (Throw (handleError e), st2)
                  | Ok _ =>
                      (Ok (mkUpdate true 1 1),
                       with_cache st2 (Map_set (cache st2) (get_prop document "_id") updatedDoc))
                  end
            end
      end
  end.

Definition deleteOne (filter : value) (now : Z) (st : state) : result DeleteResult * state :=
  match findOne filter now st with
  | (Throw e, st1) => (Throw (handleError e), st1)
  | (Ok document, st1) =>
      if negb (truthy document) then (Ok (mkDelete true 0), st1)
      else
        let messageId := String_ (get_prop document "_messageId") in
        let st2 := dispatched st1 (DeleteMessage messageId) in
        match client_deleteMessage (requests st1) messageId with
        | Throw e => (Throw (handleError e), st2)
        | Ok _ => (Ok (mkDelete true 1), with_cache st2 (Map_delete (cache st2) (get_prop document "_id")))
        end
  end.

(** ** [updateMany] *)

(** One turn of the loop of [updateMany]: the state and the running
    [modifiedCount].  An oversized document and a failed edit both leave the
    count as it is and go on to the next document. *)
Definition updateMany_step (update : value) (acc : state * Z) (doc : value) : state * Z :=
  let (st, modifiedCount) := acc in
  let updatedDoc := Updates.applyUpdate doc update in
  match serialize updatedDoc with
  | Throw _ => (st, modifiedCount)
  | Ok content =>
      if too_large content then (st, modifiedCount)
      else
        let messageId := String_ (get_prop doc "_messageId") in
        let st2 := dispatched st (EditMessage messageId content) in
        match client_editMessage (requests st) messageId content with
        | Throw _ => (st2, modifiedCount)
        | Ok _ =>
            (with_cache st2 (Map_set (cache st2) (get_prop doc "_id") updatedDoc),
             modifiedCount + 1)
        end
  end.

Definition updateMany (filter update : value) (now : Z) (st : state)
  : result UpdateResult * state :=
  match Updates.validateUpdate update with
  | Throw e => (Throw (handleError e), st)
  | Ok _ =>
      match getAllDocuments now st with
      | (Throw e, st1) => (Throw (handleError e), st1)
      | (Ok docs, st1) =>
          match filterM (fun doc => matchesFilter doc filter) docs with
          | Throw e => (Throw (handleError e), st1)
          | Ok matchingDocs =>
              let (st2, modifiedCount) :=
                fold_left (updateMany_step update) matchingDocs (st1, 0) in
              (Ok (mkUpdate true (Z.of_nat (List.length matchingDocs)) modifiedCount), st2)
          end
      end
  end.

End WithTransport.
End DiscordDB.

(* ================================================================== *)
(** * Vocabulary of the statements *)
(* ================================================================== *)

Module Spec.
Import Js Updates.

(** ** Paths *)

(** A container that [set_prop] can write [key] into within the model: an
    object, or an array addressed by an index. *)
Definition holds_key (cur : value) (key : string) : bool :=
  match cur with
  | VObj _ => true
  | VArr _ => match array_index key with Some _ => true | None => false end
  | _ => false
  end.

(** The walk of [setNestedValue] along [keys] only meets such containers. *)
Fixpoint writable (cur : value) (keys : list string) : bool :=
  match keys with
  | [] => true
  | key :: rest =>
      holds_key cur key
      && match rest with
         | [] => true
         | _ :: _ =>
             if negb (has_prop cur key) || negb (is_object (get_prop cur key)) then true
             else writable (get_prop cur key) rest
         end
  end.

Definition get_step (current : value) (key : string) : value :=
  if truthy current then get_prop current key else VUndefined.

(** The names that every object inherits from [Object.prototype].  The
    program's [current[key]] and [key in current] find them on any object,
    and an assignment to [__proto__] does not create a field; [get_prop],
    [has_prop] and [set_prop] know own fields only. *)
Definition inherited_names : list string :=
  ["constructor"; "__proto__"; "hasOwnProperty"; "isPrototypeOf"; "propertyIsEnumerable";
   "toLocaleString"; "toString"; "valueOf"; "__defineGetter__"; "__defineSetter__";
   "__lookupGetter__"; "__lookupSetter__"].

Definition own_name (key : string) : bool :=
  negb (existsb (String.eqb key) inherited_names).

(** The walks of [getNestedValue], [setNestedValue] and [unsetNestedValue]
    along [keys] from [cur] only meet own fields: no segment is an inherited
    name, an array is entered by an index, and no property is read off a
    string, a number or a boolean that is truthy.  On such a path the program
    reads and writes what the model does. *)
Fixpoint own_path (cur : value) (keys : list string) : bool :=
  match keys with
  | [] => true
  | key :: rest =>
      own_name key
      && match cur with
         | VObj _ => own_path (get_prop cur key) rest
         | VArr _ =>
             match array_index key with
             | Some _ => own_path (get_prop cur key) rest
             | None => false
             end
         | _ => negb (truthy cur) && forallb own_name rest
         end
  end.

(** [Number.isSafeInteger]: the integers on which the program's addition of
    doubles is the addition of integers, as long as the sum is one of them. *)
Definition safe_integer (n : Z) : bool :=
  (- (2 ^ 53 - 1) <=? n) && (n <=? 2 ^ 53 - 1).

(** ** Update specifications *)

Definition inc_spec (f : string) (n : Z) : value := VObj [("$inc", VObj [(f, VNum n)])].
Definition push_spec (f : string) (v : value) : value := VObj [("$push", VObj [(f, v)])].
Definition pull_spec (f : string) (v : value) : value := VObj [("$pull", VObj [(f, v)])].

Definition is_operator_key (key : string) : bool := starts_with "$" key.

Definition mixed (update : value) : bool :=
  existsb is_operator_key (Object_keys update)
  && existsb (fun key => negb (is_operator_key key)) (Object_keys update).

Definition operators_only (update : value) : value :=
  match update with
  | VObj fs => VObj (filter (fun kv => is_operator_key (fst kv)) fs)
  | _ => update
  end.

Definition inc_operands_ok (update : value) : bool :=
  if truthy (get_prop update "$inc")
  then forallb is_number (Object_values (get_prop update "$inc"))
  else true.

Definition unset_operands_ok (update : value) : bool :=
  if truthy (get_prop update "$unset")
  then forallb (fun x => strict_eq x (VNum 1) || strict_eq x (VBool true))
               (Object_values (get_prop update "$unset"))
  else true.

Definition managed_fields : list string := ["_id"; "_messageId"; "_timestamp"].

Definition operator_groups : list string :=
  ["$set"; "$unset"; "$inc"; "$push"; "$pull"; "$addToSet"].

Definition first_segment (path : string) : string := hd "" (split_dots path).

Definition group_names (k : string) (g : value) : bool :=
  truthy g && existsb (fun path => String.eqb (first_segment path) k) (Object_keys g).

(** [update] names the top-level field [k]: as a key of a direct
    specification, or as the first segment of a path in an operator group. *)
Definition names_field (k : string) (update : value) : bool :=
  if isUpdateOperators update
  then existsb (fun name => group_names k (get_prop update name)) operator_groups
  else existsb (String.eqb k) (Object_keys update).

(** The top-level field [k] of the object [d] holds [v0]. *)
Definition keeps (k : string) (v0 : value) (d : value) : Prop :=
  exists fs, d = VObj fs /\ assoc_get fs k = v0.

(** A step of an operator group leaves the field [k] alone on every path whose
    first segment is another field. *)
Definition step_keeps (k : string) (v0 : value)
  (step : value -> string -> value -> value) : Prop :=
  forall d path x, first_segment path <> k -> keeps k v0 d -> keeps k v0 (step d path x).

(** ** Filters *)

Definition is_logical (key : string) : bool :=
  String.eqb key "$and" || String.eqb key "$or" || String.eqb key "$not".

(** Keys of an operator object: operator names other than the logical ones. *)
Definition operator_keys (ops : list (string * value)) : bool :=
  forallb (fun entry => starts_with "$" (fst entry) && negb (is_logical (fst entry))) ops.

(** An operand that is a literal ([null], a boolean, a number, a string or an
    array): neither [undefined] nor a nested object. *)
Definition literal (x : value) : bool :=
  match x with
  | VUndefined | VObj _ => false
  | _ => true
  end.

Definition literal_operands (ops : list (string * value)) : bool :=
  negb (Nat.eqb (List.length ops) 0) && forallb (fun entry => literal (snd entry)) ops.

(** [{ f: { $not: op } }]. *)
Definition field_not (f : string) (op : value) : value := VObj [(f, VObj [("$not", op)])].

(** ** The store *)

Section WithInstances.
Import Filters DiscordDB.
Context {RT : Runtime} {TR : Transport}.

(** The condition under which [getAllDocuments] answers from the cache. *)
Definition fresh (now : Z) (st : state) : bool :=
  (now - lastCacheUpdate st <? cacheTimeout st) && Nat.ltb 0 (List.length (cache st)).

Definition matched (filter doc : value) : bool :=
  match matchesFilter doc filter with
  | Ok true => true
  | _ => false
  end.

End WithInstances.

(** The cache after a write for [document]: the entry under its identifier now
    holds a document with the same managed fields. *)
Definition stores_with_managed_fields (before after : list (value * value))
  (document : value) : Prop :=
  exists stored,
    after = DiscordDB.Map_set before (get_prop document "_id") stored
    /\ forall k, In k managed_fields -> get_prop stored k = get_prop document k.

End Spec.

(* ================================================================== *)
(** * Concrete instances for the examples *)
(* ================================================================== *)

Module Sample.
Import Js Filters DiscordDB Encryption.

Fixpoint repeat_char (c : ascii) (n : nat) : string :=
  match n with
  | O => EmptyString
  | S m => String c (repeat_char c m)
  end.

(** An Encrypted Payload, as [encrypt] lays it out. *)
Definition payload : value :=
  VObj [("data", VStr "9f3c51aa0be27d44c1a05be2f6630d18");
        ("iv", VStr "000102030405060708090a0b0c0d0e0f");
        ("encrypted", VBool true)].

Definition ordinal (a b : string) : Z :=
  match String.compare a b with
  | Lt => -1
  | Eq => 0
  | Gt => 1
  end.

(** A runtime that rejects every regular expression and reads no string as a
    number, whose [JSON.parse] reads the serialised [payload] and nothing
    else. *)
Definition runtime : Runtime := {|
  RegExp_new := fun pattern _ =>
    Rejected ("Invalid regular expression: /" ++ pattern ++ "/: Unterminated group");
  localeCompare := ordinal;
  StringToNumber := fun _ => None;
  JSON_parse := fun text => if String.eqb text (stringify payload) then Some payload else None
|}.

(** A transport whose channel holds the one message carrying [payload] and
    which accepts every edit and delete. *)
Definition transport : Transport := {|
  client_getAllMessages := fun _ =>
    Ok [mkMessage "m9" (stringify payload) "2024-05-01T10:00:00.000Z"];
  client_editMessage := fun _ messageId content =>
    Ok (mkMessage messageId content "2024-05-01T10:00:00.000Z");
  client_deleteMessage := fun _ _ => Ok tt
|}.

Definition john : value :=
  VObj [("_id", VStr "1"); ("name", VStr "John"); ("age", VNum 30);
        ("_messageId", VStr "m1"); ("_timestamp", VStr "t1")].

Definition jane : value :=
  VObj [("_id", VStr "2"); ("name", VStr "Jane"); ("age", VNum 25);
        ("_messageId", VStr "m2"); ("_timestamp", VStr "t2")].

(** A document close to the size ceiling. *)
Definition bulky : value :=
  VObj [("_id", VStr "3"); ("bio", VStr (repeat_char "x" 1900));
        ("_messageId", VStr "m3"); ("_timestamp", VStr "t3")].

Definition cached (docs : list value) : list (value * value) :=
  map (fun doc => (get_prop doc "_id", doc)) docs.

(** A store whose cache was filled at time 1000, and one never filled. *)
Definition store (docs : list value) : state := mkState (cached docs) 1000 30000 [].
Definition empty_store : state := mkState [] 0 30000 [].

Definition add_note : value :=
  VObj [("$set", VObj [("note", VStr (repeat_char "n" 60))])].

Definition rename_managed : value :=
  VObj [("$set", VObj [("_id", VStr "9"); ("_messageId", VStr "m9"); ("_timestamp", VStr "t9")])].

Definition mixed_example : value := VObj [("$set", VObj [("a", VNum 1)]); ("b", VNum 2)].

Definition birthday : value :=
  VObj [("$set", VObj [("name", VStr "Johnny")]); ("$inc", VObj [("age", VNum 1)])].

(** A stand-in for Node's [crypto] that satisfies its contract: the digest has
    32 bytes and the decipher undoes the cipher. *)
Definition crypto : Crypto := {|
  sha256 := fun _ => repeat Byte.x00 32;
  cipher_run := fun _ _ _ text => Ok (list_byte_of_string text, []);
  decipher_run := fun _ _ _ bytes => Ok ("", string_of_list_byte bytes)
|}.

Definition iv16 : list Byte.byte := repeat Byte.x2a 16.

End Sample.

(* ================================================================== *)
(** * src/discord-db.ts: the other operations *)
(* ================================================================== *)

Module DiscordDBMore.
Import Js Filters DiscordDB.

Record InsertResult := mkInsert {
  ins_acknowledged : bool;
  insertedId : value;
  messageId : string
}.

(** [client.sendMessage]: its answer is a function of the requests dispatched
    so far, of the contents sent so far and of the new content.  The sends are
    kept in a log of their own, beside the store; the answers of [Transport]
    do not read it, so nothing below reloads the channel after a send. *)
Class Sender := {
  client_sendMessage : list request -> list string -> string -> result message
}.

(** [clearCache] and [setCacheTimeout]. *)
Definition clearCache (st : state) : state :=
  mkState [] 0 (cacheTimeout st) (requests st).

Definition setCacheTimeout (timeoutMs : Z) (st : state) : state :=
  mkState (cache st) (lastCacheUpdate st) timeoutMs (requests st).

Section WithTransport.
Context {RT : Runtime} {TR : Transport}.

(** ** [findById], [updateById], [deleteById] *)

Definition findById (id : string) (now : Z) (st : state) : result value * state :=
  findOne (VObj [("_id", VStr id)]) now st.

Definition updateById (id : string) (update : value) (now : Z) (st : state)
  : result UpdateResult * state :=
  updateOne (VObj [("_id", VStr id)]) update now st.

Definition deleteById (id : string) (now : Z) (st : state) : result DeleteResult * state :=
  deleteOne (VObj [("_id", VStr id)]) now st.

(** ** [deleteMany] *)

(** One turn of the loop of [deleteMany]: a failed delete is logged and the
    loop goes on. *)
Definition deleteMany_step (acc : state * Z) (doc : value) : state * Z :=
  let (st, deletedCount) := acc in
  let messageId := String_ (get_prop doc "_messageId") in
  let st2 := dispatched st (DeleteMessage messageId) in
  match client_deleteMessage (requests st) messageId with
  | Throw _ => (st2, deletedCount)
  | Ok _ => (with_cache st2 (Map_delete (cache st2) (get_prop doc "_id")), deletedCount + 1)
  end.

Definition deleteMany (filter : value) (now : Z) (st : state) : result DeleteResult * state :=
  match getAllDocuments now st with
  | (Throw e, st1) => (Throw (handleError e), st1)
  | (Ok docs, st1) =>
      match filterM (fun doc => matchesFilter doc filter) docs with
      | Throw e => (Throw (handleError e), st1)
      | Ok matchingDocs =>
          let (st2, deletedCount) := fold_left deleteMany_step matchingDocs (st1, 0) in
          (Ok (mkDelete true deletedCount), st2)
      end
  end.

(** ** [countDocuments], [exists] and [drop] *)

(** No [try] surrounds the body of [countDocuments]: what [matchesFilter]
    throws leaves it as it is. *)
Definition countDocuments (filter : value) (now : Z) (st : state) : result Z * state :=
  match getAllDocuments now st with
  | (Throw e, st1) => (Throw e, st1)
  | (Ok docs, st1) =>
      (bind (filterM (fun doc => matchesFilter doc (default_filter filter)) docs)
            (fun kept => Ok (Z.of_nat (List.length kept))),
       st1)
  end.

Definition exists_ (filter : value) (now : Z) (st : state) : result bool * state :=
  match countDocuments filter now st with
  | (Throw e, st1) => (Throw e, st1)
  | (Ok count, st1) => (Ok (0 <? count), st1)
  end.

Definition drop (now : Z) (st : state) : result unit * state :=
  match deleteMany (VObj []) now st with
  | (Throw e, st1) => (Throw e, st1)
  | (Ok _, st1) => (Ok tt, with_cache st1 [])
  end.

(** ** [insertOne] and [insertMany] *)

(** [generated] is what [Date.now().toString(36) +
    Math.random().toString(36).substr(2)] evaluates to. *)
Definition prepareDocumentForInsert (document : value) (generated : string) : value :=
  let doc := VObj (spread [] document) in
  if negb (truthy (get_prop doc "_id")) then set_prop doc "_id" (VStr generated) else doc.

Context {SN : Sender}.

Definition insertOne (document : value) (generated : string)
  (sent : list string) (st : state) : result InsertResult * (state * list string) :=
  let docToInsert := prepareDocumentForInsert document generated in
  match serialize docToInsert with
  | Throw e => (Throw (handleError e), (st, sent))
  | Ok content =>
      if too_large content
      then (Throw (handleError
                     (mkError ValidationError
                        "Document too large. Discord messages are limited to 2000 characters.")),
            (st, sent))
      else
        match client_sendMessage (requests st) sent content with
        | Throw e => (Throw (handleError e), (st, (sent ++ [content])%list))
        | Ok message =>
            let insertedDoc :=
              set_prop
                (set_prop
                   (set_prop (VObj (spread [] docToInsert)) "_id" (get_prop docToInsert "_id"))
                   "_messageId" (VStr (id message)))
                "_timestamp" (VStr (timestamp message)) in
            (Ok (mkInsert true (get_prop insertedDoc "_id") (id message)),
             (with_cache st (Map_set (cache st) (get_prop insertedDoc "_id") insertedDoc),
              (sent ++ [content])%list))
        end
  end.

(** One turn of the loop of [insertMany]; [generated i] is the identifier
    generated for the document at position [i]. *)
Definition insertMany_step (generated : nat -> string)
  (acc : list InsertResult * nat * (state * list string)) (doc : value)
  : list InsertResult * nat * (state * list string) :=
  let '(results, i, (st, sent)) := acc in
  match insertOne doc (generated i) sent st with
  | (Ok result, after) => ((results ++ [result])%list, S i, after)
  | (Throw _, after) => (results, S i, after)
  end.

Definition insertMany (documents : list value) (generated : nat -> string)
  (sent : list string) (st : state) : list InsertResult * (state * list string) :=
  let '(results, _, after) :=
    fold_left (insertMany_step generated) documents ([], O, (st, sent)) in
  (results, after).

End WithTransport.
End DiscordDBMore.

(* ================================================================== *)
(** * src/discord-db.ts: updates, with the objects they write into *)
(* ================================================================== *)

(** [applyUpdate] starts from a shallow copy of the document, so what it
    assigns below the top level is written into objects that the document at
    hand, the cache, other documents and the update itself may share: a call
    leaves the objects of the program changed, and what a later call computes
    depends on it.  [updateMany] and [updateOne] are embedded here over such
    objects, whatever they are: a document is a reference, [tree] is the value
    it holds in a given state of the objects, and [applyUpdate] returns the
    new document, or the error it raised, together with the objects as it
    left them.  [Updates.applyUpdate] is the instance in which nothing is
    shared, and there these two functions are those of [DiscordDB]. *)
Module InPlace.
Import Js Filters DiscordDB.

(** The store: the objects, and what [DiscordDB.state] holds, the cache being
    a [Map] from identifiers to documents. *)
Record store {objects document : Type} := mkStore {
  objs : objects;
  entries : list (value * document);
  refreshed : Z;
  timeout : Z;
  log : list request
}.
Arguments store : clear implicits.
Arguments mkStore {objects document} objs entries refreshed timeout log.

Fixpoint Map_set {document} (m : list (value * document)) (k : value) (v : document)
  : list (value * document) :=
  match m with
  | [] => [(k, v)]
  | (k', v') :: rest =>
      if strict_eq k' k then (k', v) :: rest else (k', v') :: Map_set rest k v
  end.

(** [documents.filter(doc => ...)] over a callback that may throw. *)
Fixpoint keepM {document} (p : document -> result bool) (l : list document)
  : result (list document) :=
  match l with
  | [] => Ok []
  | doc :: rest =>
      bind (p doc) (fun keep =>
      bind (keepM p rest) (fun kept => Ok (if keep then doc :: kept else kept)))
  end.

Section Objects.
Context {RT : Runtime} {TR : Transport}.
Context {objects document : Type}.
Variable tree : objects -> document -> value.
(** [content.length]: the number of UTF-16 code units of the text that a
    string stands for; on ASCII text it is [String.length]. *)
Variable code_units : string -> nat.
Variable applyUpdate : objects -> document -> document -> result document * objects.
(** [this.getAllDocuments()] and [this.findOne(filter)] ([None] for [null]),
    with the store as they leave it. *)
Variable getAllDocuments :
  store objects document -> result (list document) * store objects document.
Variable findOne :
  value -> store objects document -> result (option document) * store objects document.

Definition above_ceiling (content : string) : bool := Nat.ltb 2000 (code_units content).

Definition with_objs (st : store objects document) (o : objects) : store objects document :=
  mkStore o (entries st) (refreshed st) (timeout st) (log st).

(** The store after an edit was dispatched for a document updated on the
    objects [o]. *)
Definition edited (st : store objects document) (o : objects)
  (c : list (value * document)) (r : request) : store objects document :=
  mkStore o c (refreshed st) (timeout st) (log st ++ [r])%list.

(** One turn of the loop of [updateMany].  An exception of [applyUpdate] or of
    [JSON.stringify], a serialised form above the ceiling and a failed edit
    all leave the count as it is and go on to the next document. *)
Definition updateMany_turn (update : document) (acc : store objects document * Z)
  (doc : document) : store objects document * Z :=
  let (st, modifiedCount) := acc in
  match applyUpdate (objs st) doc update with
  | (Throw _, o1) => (with_objs st o1, modifiedCount)
  | (Ok updatedDoc, o1) =>
      match serialize (tree o1 updatedDoc) with
      | Throw _ => (with_objs st o1, modifiedCount)
      | Ok content =>
          if above_ceiling content then (with_objs st o1, modifiedCount)
          else
            let messageId := String_ (get_prop (tree o1 doc) "_messageId") in
            let request := EditMessage messageId content in
            match client_editMessage (log st) messageId content with
            | Throw _ => (edited st o1 (entries st) request, modifiedCount)
            | Ok _ =>
                (edited st o1
                   (Map_set (entries st) (get_prop (tree o1 doc) "_id") updatedDoc) request,
                 modifiedCount + 1)
            end
      end
  end.

Definition updateMany (filter : value) (update : document) (st : store objects document)
  : result UpdateResult * store objects document :=
  match Updates.validateUpdate (tree (objs st) update) with
  | Throw e => (Throw (handleError e), st)
  | Ok _ =>
      match getAllDocuments st with
      | (Throw e, st1) => (Throw (handleError e), st1)
      | (Ok documents, st1) =>
          match keepM (fun doc => matchesFilter (tree (objs st1) doc) filter) documents with
          | Throw e => (Throw (handleError e), st1)
          | Ok matchingDocs =>
              let (st2, modifiedCount) :=
                fold_left (updateMany_turn update) matchingDocs (st1, 0) in
              (Ok (mkUpdate true (Z.of_nat (List.length matchingDocs)) modifiedCount), st2)
          end
      end
  end.

Definition updateOne (filter : value) (update : document) (st : store objects document)
  : result UpdateResult * store objects document :=
  match Updates.validateUpdate (tree (objs st) update) with
  | Throw e => (Throw (handleError e), st)
  | Ok _ =>
      match findOne filter st with
      | (Throw e, st1) => (Throw (handleError e), st1)
      | (Ok None, st1) => (Ok (mkUpdate true 0 0), st1)
      | (Ok (Some doc), st1) =>
          match applyUpdate (objs st1) doc update with
          | (Throw e, o1) => (Throw (handleError e), with_objs st1 o1)
          | (Ok updatedDoc, o1) =>
              match serialize (tree o1 updatedDoc) with
              | Throw e => (Throw (handleError e), with_objs st1 o1)
              | Ok content =>
                  if above_ceiling content
                  then (Throw (handleError (mkError ValidationError "Updated document too large.")),
                        with_objs st1 o1)
                  else
                    let messageId := String_ (get_prop (tree o1 doc) "_messageId") in
                    let request := EditMessage messageId content in
                    match client_editMessage (log st1) messageId content with
                    | Throw e => (Throw (handleError e), edited st1 o1 (entries st1) request)
                    | Ok _ =>
                        (Ok (mkUpdate true 1 1),
                         edited st1 o1
                           (Map_set (entries st1) (get_prop (tree o1 doc) "_id") updatedDoc)
                           request)
                    end
              end
          end
      end
  end.

(** ** Vocabulary *)

(** The turns of a batch as they come: for each document, the identifier of
    its message and the serialised form of its update (or the failure to
    produce one), each computed on the objects as the turns before it left
    them. *)
Fixpoint turns (o : objects) (update : document) (docs : list document)
  : list (string * result string) :=
  match docs with
  | [] => []
  | doc :: rest =>
      let (r, o1) := applyUpdate o doc update in
      (String_ (get_prop (tree o1 doc) "_messageId"),
       bind r (fun updatedDoc => serialize (tree o1 updatedDoc)))
      :: turns o1 update rest
  end.

(** The edit that a turn calls for: none when the serialised form exceeds the
    ceiling, or when there is none. *)
Definition edit_of (turn : string * result string) : list request :=
  match snd turn with
  | Ok content => if above_ceiling content then [] else [EditMessage (fst turn) content]
  | Throw _ => []
  end.

End Objects.

(** ** The instance in which nothing is shared *)

(** A document is its tree, there are no objects beside the documents, and
    [applyUpdate] is [Updates.applyUpdate]. *)
Definition own_tree (o : unit) (doc : value) : value := doc.

Definition unshared (o : unit) (doc update : value) : result value * unit :=
  (Ok (Updates.applyUpdate doc update), o).

Definition as_state (s : store unit value) : state :=
  mkState (entries s) (refreshed s) (timeout s) (log s).

Definition of_state (st : state) : store unit value :=
  mkStore tt (cache st) (lastCacheUpdate st) (cacheTimeout st) (requests st).

Section Unshared.
Context {RT : Runtime} {TR : Transport}.

Definition unshared_getAllDocuments (now : Z) (s : store unit value)
  : result (list value) * store unit value :=
  let (r, st1) := DiscordDB.getAllDocuments now (as_state s) in (r, of_state st1).

Definition unshared_findOne (now : Z) (filter : value) (s : store unit value)
  : result (option value) * store unit value :=
  match DiscordDB.findOne filter now (as_state s) with
  | (Ok doc, st1) => (Ok (if truthy doc then Some doc else None), of_state st1)
  | (Throw e, st1) => (Throw e, of_state st1)
  end.

End Unshared.

End InPlace.

(* ================================================================== *)
(** * src/client/discord-client.ts *)
(* ================================================================== *)

Module Client.
Import Js.

Record DiscordDBConfig := mkConfig {
  botToken : string;
  channelId : string;
  config_baseURL : option string
}.

Record DiscordClient := mkClient { config : DiscordDBConfig; baseURL : string }.

(** What is handed to [fetch]: the URL up to the query string, the parameters
    that [URLSearchParams] serialises after it, and the options. *)
Record Request := mkRequest {
  url : string;
  params : list (string * string);
  method : string;
  headers : list (string * string);
  body : option string
}.

(** A response: [json] is what [response.json()] resolves to, or the error it
    rejects with. *)
Record Response := mkResponse {
  ok : bool;
  status : Z;
  statusText : string;
  json : result value
}.

(** [fetch]: its answer is a function of the requests made so far and of the
    new request; [Throw] stands for a rejected promise. *)
Class Http := {
  fetch : list Request -> Request -> result Response
}.

(** [new DiscordClient(config)]. *)
Definition new_client (config : DiscordDBConfig) : result DiscordClient :=
  let baseURL := match config_baseURL config with
                 | Some u => if String.eqb u "" then "https://discord.com/api/v10" else u
                 | None => "https://discord.com/api/v10"
                 end in
  if String.eqb (botToken config) ""
  then Throw (mkError AuthenticationError "Bot token is required")
  else if String.eqb (channelId config) ""
  then Throw (mkError PlainError "Channel ID is required")
  else Ok (mkClient config baseURL).

(** [handleErrorResponse] always throws; this is what it throws. *)
Definition handleErrorResponse (response : Response) : js_error :=
  let errorMessage := "HTTP " ++ string_of_Z (status response) ++ ": " ++ statusText response in
  let errorMessage :=
    match json response with
    | Ok errorData =>
        if truthy (get_prop errorData "message")
        then String_ (get_prop errorData "message")
        else errorMessage
    | Throw _ => errorMessage
    end in
  if status response =? 401
  then mkError AuthenticationError ("Authentication failed: " ++ errorMessage)
  else if status response =? 403
  then mkError AuthenticationError ("Forbidden: " ++ errorMessage)
  else if status response =? 404
  then mkError NetworkError ("Not found: " ++ errorMessage)
  else if status response =? 429
  then mkError NetworkError ("Rate limited: " ++ errorMessage)
  else mkError NetworkError errorMessage.

(** [handleError]: whatever is thrown here is an [Error] and is returned as
    it is. *)
Definition handleError (error : js_error) : js_error := error.

Section WithHttp.
Context {HT : Http}.

Definition makeRequest (request : Request) (log : list Request)
  : result Response * list Request :=
  match fetch log request with
  | Ok response => (Ok response, (log ++ [request])%list)
  | Throw error =>
      (Throw (mkError NetworkError ("Failed to make request: " ++ err_message error)),
       (log ++ [request])%list)
  end.

(** The body shared by the four requests: the response is checked, then read
    as JSON. *)
Definition checked (request : Request) (log : list Request)
  : result Response * list Request :=
  match makeRequest request log with
  | (Ok response, log1) =>
      if negb (ok response) then (Throw (handleError (handleErrorResponse response)), log1)
      else (Ok response, log1)
  | (Throw error, log1) => (Throw (handleError error), log1)
  end.

Definition read_json (request : Request) (log : list Request)
  : result value * list Request :=
  match checked request log with
  | (Ok response, log1) =>
      match json response with
      | Ok data => (Ok data, log1)
      | Throw error => (Throw (handleError error), log1)
      end
  | (Throw error, log1) => (Throw error, log1)
  end.

Definition messages_url (client : DiscordClient) : string :=
  baseURL client ++ "/channels/" ++ channelId (config client) ++ "/messages".

Definition authorization (client : DiscordClient) : string * string :=
  ("Authorization", "Bot " ++ botToken (config client)).

Definition sendMessage (client : DiscordClient) (content : string) (log : list Request)
  : result value * list Request :=
  read_json (mkRequest (messages_url client) [] "POST"
               [authorization client; ("Content-Type", "application/json")]
               (Some (stringify (VObj [("content", VStr content)])))) log.

(** [getMessages(limit, before, after)]. *)
Definition getMessages (client : DiscordClient) (limit : Z) (before after : value)
  (log : list Request) : result value * list Request :=
  let params := [("limit", string_of_Z (Z.min limit 100))] in
  let params := if truthy before then (params ++ [("before", String_ before)])%list else params in
  let params := if truthy after then (params ++ [("after", String_ after)])%list else params in
  read_json (mkRequest (messages_url client) params "GET" [authorization client] None) log.

Definition editMessage (client : DiscordClient) (messageId content : string)
  (log : list Request) : result value * list Request :=
  read_json (mkRequest (messages_url client ++ "/" ++ messageId) [] "PATCH"
               [authorization client; ("Content-Type", "application/json")]
               (Some (stringify (VObj [("content", VStr content)])))) log.

Definition deleteMessage (client : DiscordClient) (messageId : string) (log : list Request)
  : result unit * list Request :=
  match checked (mkRequest (messages_url client ++ "/" ++ messageId) [] "DELETE"
                   [authorization client] None) log with
  | (Ok _, log1) => (Ok tt, log1)
  | (Throw error, log1) => (Throw error, log1)
  end.

(** One turn of the loop of [getAllMessages] on what [getMessages] returned:
    [None] for [break], otherwise the messages to push and the next [before],
    or the TypeError of reading [length] or [id] off [null] or [undefined] or
    of spreading something that cannot be iterated.  The wording of these
    messages is the engine's; nothing below depends on it. *)
Definition batch (messages : value) : result (option (list value * value)) :=
  let not_iterable :=
    mkError TypeError "Spread syntax requires ...iterable[Symbol.iterator] to be a function" in
  match messages with
  | VArr items =>
      match rev items with
      | [] => Ok None
      | VUndefined :: _ =>
          Throw (mkError TypeError "Cannot read properties of undefined (reading 'id')")
      | VNull :: _ =>
          Throw (mkError TypeError "Cannot read properties of null (reading 'id')")
      | final :: _ => Ok (Some (items, get_prop final "id"))
      end
  | VStr s =>
      if String.eqb s "" then Ok None else Ok (Some (chars s, VUndefined))
  | VObj _ =>
      if strict_eq (get_prop messages "length") (VNum 0) then Ok None
      else Throw not_iterable
  | VUndefined =>
      Throw (mkError TypeError "Cannot read properties of undefined (reading 'length')")
  | VNull =>
      Throw (mkError TypeError "Cannot read properties of null (reading 'length')")
  | VBool _ | VNum _ => Throw not_iterable
  end.

(** The [while] loop of [getAllMessages]; [None] when [fuel] turns do not
    reach its end. *)
Fixpoint getAllMessages_loop (fuel : nat) (client : DiscordClient) (maxMessages : Z)
  (allMessages : list value) (before : value) (log : list Request)
  : option (result (list value) * list Request) :=
  match fuel with
  | O => None
  | S fuel' =>
      if Z.of_nat (List.length allMessages) <? maxMessages then
        let remaining := maxMessages - Z.of_nat (List.length allMessages) in
        let limit := Z.min remaining 100 in
        match getMessages client limit before VUndefined log with
        | (Throw error, log1) => Some (Throw error, log1)
        | (Ok messages, log1) =>
            match batch messages with
            | Throw error => Some (Throw error, log1)
            | Ok None => Some (Ok allMessages, log1)
            | Ok (Some (items, next)) =>
                getAllMessages_loop fuel' client maxMessages (allMessages ++ items)%list next log1
            end
        end
      else Some (Ok allMessages, log)
  end.

Definition getAllMessages (fuel : nat) (client : DiscordClient) (maxMessages : Z)
  (log : list Request) : option (result (list value) * list Request) :=
  match getAllMessages_loop fuel client maxMessages [] VUndefined log with
  | Some (Ok allMessages, log1) => Some (Ok (Filters.slice allMessages 0 (Some maxMessages)), log1)
  | other => other
  end.

Definition testConnection (client : DiscordClient) (log : list Request)
  : bool * list Request :=
  match getMessages client 1 VUndefined VUndefined log with
  | (Ok _, log1) => (true, log1)
  | (Throw _, log1) => (false, log1)
  end.

End WithHttp.
End Client.

(* ================================================================== *)
(** * Vocabulary of the further statements *)
(* ================================================================== *)

Module SpecMore.
Import Js Updates Spec.

(** ** Update specifications with one path *)

Definition set_spec (f : string) (x : value) : value := VObj [("$set", VObj [(f, x)])].
Definition unset_spec (f : string) : value := VObj [("$unset", VObj [(f, VNum 1)])].
Definition addToSet_spec (f : string) (v : value) : value :=
  VObj [("$addToSet", VObj [(f, v)])].

(** Every segment of [keys] but the last resolves, from [cur] on, to an
    object with named fields. *)
Fixpoint parents_are_objects (cur : value) (keys : list string) : bool :=
  match cur, keys with
  | VObj _, [] => true
  | VObj _, [_] => true
  | VObj _, key :: rest => parents_are_objects (get_prop cur key) rest
  | _, _ => false
  end.

(** The walk of [unsetNestedValue] along [keys] stops before the last
    segment: a segment is absent, or holds something that is not an object. *)
Fixpoint parent_missing (cur : value) (keys : list string) : bool :=
  match keys with
  | key :: ((_ :: _) as rest) =>
      if negb (has_prop cur key) || negb (is_object (get_prop cur key)) then true
      else parent_missing (get_prop cur key) rest
  | _ => false
  end.

Fixpoint distinct (keys : list string) : bool :=
  match keys with
  | [] => true
  | key :: rest => negb (existsb (String.eqb key) rest) && distinct rest
  end.

(** The objects of a value, at every depth, have pairwise distinct keys. *)
Fixpoint distinct_keys (v : value) : bool :=
  match v with
  | VArr items => forallb distinct_keys items
  | VObj fields =>
      distinct (map fst fields) && forallb (fun kv => distinct_keys (snd kv)) fields
  | _ => true
  end.

(** ** Filters *)

(** The operator names [evaluateOperators] gives a meaning to; every other key
    of an operator object falls to the default branch. *)
Definition decisive : list string :=
  ["$eq"; "$ne"; "$gt"; "$gte"; "$lt"; "$lte"; "$in"; "$nin"; "$exists"; "$regex"; "$not"].

Definition decides (operator : string) : bool := existsb (String.eqb operator) decisive.

(** A filter value that [evaluateFieldFilter] compares with the field instead
    of reading it as an operator object. *)
Definition compared_directly (x : value) : bool :=
  match x with VObj _ => false | _ => true end.

(** [{ f: { $in: vals } }] and [{ $or: [{ f: v1 }, ..., { f: vn }] }]. *)
Definition in_filter (f : string) (vals : list value) : value :=
  VObj [(f, VObj [("$in", VArr vals)])].

Definition any_equal (f : string) (vals : list value) : value :=
  VObj [("$or", VArr (map (fun v => VObj [(f, v)]) vals))].

(** ** Sorting and projection *)

Definition numeric_at (f : string) (d : value) : bool :=
  is_number (Filters.getNestedValue d f).

Definition number_at (f : string) (d : value) : Z :=
  match Filters.getNestedValue d f with VNum n => n | _ => 0 end.

(** The projection lists [k] with the flag [flag]. *)
Definition listed (flag : Z) (projection : list (string * value)) (k : string) : bool :=
  existsb (fun entry => String.eqb (fst entry) k && strict_eq (snd entry) (VNum flag)) projection.

End SpecMore.

(** ** The store *)

Module StoreSpec.
Import Js Filters DiscordDB DiscordDBMore Spec.

(** What a call raises, if anything, is a [DiscordDBError]. *)
Definition raises_only_DiscordDBError {A} (r : result A) : bool :=
  match r with
  | Throw e => instanceof_DiscordDBError e
  | Ok _ => true
  end.

(** [{ f: { $regex: pattern } }]. *)
Definition regex_filter (f pattern : string) : value :=
  VObj [(f, VObj [("$regex", VStr pattern)])].

Definition no_options : QueryOptions := mkOptions None None VUndefined VUndefined.

(** An entry of the cache filed under the identifier of the object it holds. *)
Definition filed (entry : value * value) : bool :=
  match snd entry with
  | VObj fields => strict_eq (fst entry) (assoc_get fields "_id")
  | _ => false
  end.

(** [cache.get(k)]. *)
Fixpoint Map_get (m : list (value * value)) (k : value) : option value :=
  match m with
  | [] => None
  | (k', v) :: rest => if strict_eq k' k then Some v else Map_get rest k
  end.

(** A document carrying the identifier and the time stamp of the message it
    was read from. *)
Definition stamped (m : message) (d : value) : Prop :=
  truthy (get_prop d "_id") = true
  /\ get_prop d "_messageId" = VStr (id m)
  /\ get_prop d "_timestamp" = VStr (timestamp m).

(** The invariant of the loop of [getAllDocuments] over [messages]: the
    documents read so far and the entries cached so far. *)
Definition reloaded (messages : list message) (acc : list value * list (value * value)) : Prop :=
  Forall (fun d => exists m, In m messages /\ stamped m d) (fst acc)
  /\ Forall (fun kv => fst kv = get_prop (snd kv) "_id" /\ In (snd kv) (fst acc)) (snd acc)
  /\ (List.length (snd acc) <= List.length (fst acc))%nat.

End StoreSpec.

Module ClientSpec.
Import Js Client.

(** A request of [getMessages] for between 1 and 100 messages. *)
Definition asks_for_a_batch (request : Request) : Prop :=
  method request = "GET"
  /\ exists n, 1 <= n <= 100 /\ hd_error (params request) = Some ("limit", string_of_Z n).

(** The error [e] of a request is accounted for by the answer of [fetch]: a
    rejected [fetch] gives a NetworkError, a response that is not [ok] an
    AuthenticationError for the statuses 401 and 403 and a NetworkError for
    every other one, and an [ok] response the error of reading its body. *)
Definition accounted_for (answer : result Response) (e : js_error) : Prop :=
  match answer with
  | Throw _ => err_class e = NetworkError
  | Ok response =>
      if ok response then json response = Throw e
      else err_class e
           = if (status response =? 401) || (status response =? 403)
             then AuthenticationError else NetworkError
  end.

(** A call made one request, and a failure of the call is accounted for by
    the answer to that request. *)
Definition one_request {HT : Http} {A} (log : list Request) (out : result A * list Request)
  : Prop :=
  exists request,
    snd out = (log ++ [request])%list
    /\ forall e, fst out = Throw e -> accounted_for (fetch log request) e.

End ClientSpec.

(* ================================================================== *)
(** * Further instances for the examples *)
(* ================================================================== *)

Module SampleMore.
Import Js Filters DiscordDB DiscordDBMore.

(** A document as it is written to the channel. *)
Definition note : value := VObj [("_id", VStr "7"); ("title", VStr "tea")].

(** A runtime whose [JSON.parse] reads the serialised [note]. *)
Definition note_runtime : Runtime := {|
  RegExp_new := fun pattern _ =>
    Rejected ("Invalid regular expression: /" ++ pattern ++ "/: Unterminated group");
  localeCompare := Sample.ordinal;
  StringToNumber := fun _ => None;
  JSON_parse := fun text => if String.eqb text (stringify note) then Some note else None
|}.

(** A transport whose channel holds the message carrying [note]. *)
Definition note_transport : Transport := {|
  client_getAllMessages := fun _ =>
    Ok [mkMessage "m7" (stringify note) "2024-05-01T10:00:00.000Z"];
  client_editMessage := fun _ messageId content =>
    Ok (mkMessage messageId content "2024-05-01T10:00:00.000Z");
  client_deleteMessage := fun _ _ => Ok tt
|}.

(** A sender that accepts every message and numbers the ones it accepted. *)
Definition sender : Sender := {|
  client_sendMessage := fun _ sent content =>
    Ok (mkMessage (index_key (List.length sent)) content "2024-05-01T10:00:00.000Z")
|}.

Definition profile : list (string * value) :=
  [("_id", VStr "1"); ("profile", VObj [("email", VStr "a@b.c")])].

End SampleMore.

(* ================================================================== *)
(** * Properties of the value operations *)
(* ================================================================== *)

Module JsFacts.
Import Js.

Lemma assoc_get_set_same (fs : list (string * value)) k x :
  assoc_get (assoc_set fs k x) k = x.
Proof.
  induction fs as [|[k' v] fs IH]; simpl.
  - now rewrite String.eqb_refl.
  - destruct (String.eqb k' k) eqn:E; simpl; rewrite E; auto.
Qed.

Lemma assoc_get_set_other (fs : list (string * value)) k k' x :
  k' <> k -> assoc_get (assoc_set fs k' x) k = assoc_get fs k.
Proof.
  intros Hne. induction fs as [|[k0 v] fs IH]; simpl.
  - apply String.eqb_neq in Hne. now rewrite Hne.
  - destruct (String.eqb k0 k') eqn:E; simpl.
    + apply String.eqb_eq in E; subst k0.
      apply String.eqb_neq in Hne. now rewrite Hne.
    + now rewrite IH.
Qed.

Lemma assoc_get_del_other (fs : list (string * value)) k k' :
  k' <> k -> assoc_get (assoc_del fs k') k = assoc_get fs k.
Proof.
  intros Hne. induction fs as [|[k0 v] fs IH]; simpl; auto.
  destruct (String.eqb k0 k') eqn:E; simpl.
  - apply String.eqb_eq in E; subst k0.
    apply String.eqb_neq in Hne. now rewrite Hne.
  - now rewrite IH.
Qed.

Lemma assoc_mem_set_same (fs : list (string * value)) k x :
  assoc_mem (assoc_set fs k x) k = true.
Proof.
  induction fs as [|[k' v] fs IH]; simpl.
  - now rewrite String.eqb_refl.
  - destruct (String.eqb k' k) eqn:E; simpl; rewrite E; auto.
Qed.

Lemma nth_list_put items i x : nth i (list_put items i x) VUndefined = x.
Proof.
  revert items. induction i as [|i IH]; intros [|y items]; simpl; auto.
Qed.

Lemma length_list_put items i x : (i < List.length (list_put items i x))%nat.
Proof.
  revert items. induction i as [|i IH]; intros [|y items]; simpl; try lia.
  - specialize (IH []). lia.
  - specialize (IH items). lia.
Qed.

Lemma split_on_nonempty c s : split_on c s <> [].
Proof.
  induction s as [|a s IH]; simpl; try discriminate.
  destruct (Ascii.eqb a c); try discriminate.
  destruct (split_on c s); discriminate.
Qed.

Lemma strict_eq_refl_scalar v :
  is_object v = false -> strict_eq v v = true.
Proof.
  destruct v; simpl; intros; try discriminate; auto.
  - apply Bool.eqb_reflx.
  - apply Z.eqb_refl.
  - apply String.eqb_refl.
Qed.

End JsFacts.

Module UpdatesFacts.
Import Js Updates JsFacts Spec.

Lemma holds_key_truthy cur key : holds_key cur key = true -> truthy cur = true.
Proof. destruct cur; simpl; auto; discriminate. Qed.

Lemma holds_key_set cur key k x :
  holds_key cur key = true -> holds_key (set_prop cur k x) key = true.
Proof.
  destruct cur; simpl; try discriminate; auto.
  destruct (array_index k); simpl; auto.
Qed.

Lemma get_set_prop_same cur key x :
  holds_key cur key = true -> get_prop (set_prop cur key x) key = x.
Proof.
  destruct cur; simpl; try discriminate.
  - destruct (array_index key) eqn:E; try discriminate. intros _.
    simpl. rewrite E. apply nth_list_put.
  - intros _. apply assoc_get_set_same.
Qed.

Lemma has_set_prop_same cur key x :
  holds_key cur key = true -> has_prop (set_prop cur key x) key = true.
Proof.
  destruct cur; simpl; try discriminate.
  - destruct (array_index key) eqn:E; try discriminate. intros _.
    simpl. rewrite E. apply Nat.ltb_lt. apply length_list_put.
  - intros _. apply assoc_mem_set_same.
Qed.

Lemma is_object_set_prop cur k x : is_object cur = true -> is_object (set_prop cur k x) = true.
Proof. destruct cur; simpl; try discriminate; auto. destruct (array_index k); auto. Qed.

Lemma is_object_set_at keys : forall cur x,
  is_object cur = true -> keys <> [] -> is_object (set_at cur keys x) = true.
Proof.
  destruct keys as [|k [|k2 rest]]; intros cur x Hobj Hne; try congruence;
    simpl; now apply is_object_set_prop.
Qed.

Lemma writable_fresh keys : writable (VObj []) keys = true.
Proof. destruct keys as [|k [|k2 rest]]; reflexivity. Qed.

Lemma writable_child cur key k2 rest :
  writable cur (key :: k2 :: rest) = true ->
  writable (if negb (has_prop cur key) || negb (is_object (get_prop cur key))
            then VObj [] else get_prop cur key) (k2 :: rest) = true.
Proof.
  intros H. simpl in H. apply andb_true_iff in H as [_ H].
  destruct (negb (has_prop cur key) || negb (is_object (get_prop cur key))); auto.
  apply writable_fresh.
Qed.

Lemma child_is_object cur key :
  is_object (if negb (has_prop cur key) || negb (is_object (get_prop cur key))
             then VObj [] else get_prop cur key) = true.
Proof.
  destruct (has_prop cur key); simpl; auto.
  destruct (is_object (get_prop cur key)) eqn:E; simpl; auto.
Qed.

Lemma get_step_set cur key y :
  holds_key cur key = true -> get_step (set_prop cur key y) key = y.
Proof.
  intros Hk. unfold get_step.
  rewrite (holds_key_truthy _ key) by now apply holds_key_set.
  now apply get_set_prop_same.
Qed.

Lemma fold_left_cons {A B} (f : A -> B -> A) x l a :
  fold_left f (x :: l) a = fold_left f l (f a x).
Proof. reflexivity. Qed.

(** Reading back a path that has just been written. *)
Lemma get_set_at keys : forall cur x,
  keys <> [] -> writable cur keys = true ->
  fold_left get_step keys (set_at cur keys x) = x.
Proof.
  induction keys as [|key rest IH]; intros cur x Hne Hw; try congruence.
  destruct rest as [|k2 rest].
  - simpl in *. rewrite andb_true_r in Hw. now apply get_step_set.
  - pose proof (writable_child _ _ _ _ Hw) as Hc.
    change (set_at cur (key :: k2 :: rest) x) with
      (set_prop cur key
         (set_at (if negb (has_prop cur key) || negb (is_object (get_prop cur key))
                  then VObj [] else get_prop cur key) (k2 :: rest) x)).
    simpl in Hw. apply andb_true_iff in Hw as [Hk _].
    rewrite fold_left_cons, get_step_set by assumption.
    apply IH; [discriminate | assumption].
Qed.

Lemma writable_set_at keys : forall cur x,
  writable cur keys = true -> writable (set_at cur keys x) keys = true.
Proof.
  induction keys as [|key rest IH]; intros cur x Hw; auto.
  destruct rest as [|k2 rest].
  - simpl in *. rewrite andb_true_r in *. now apply holds_key_set.
  - pose proof (writable_child _ _ _ _ Hw) as Hc.
    pose proof (child_is_object cur key) as Ho.
    change (set_at cur (key :: k2 :: rest) x) with
      (set_prop cur key
         (set_at (if negb (has_prop cur key) || negb (is_object (get_prop cur key))
                  then VObj [] else get_prop cur key) (k2 :: rest) x)).
    set (child := if negb (has_prop cur key) || negb (is_object (get_prop cur key))
                  then VObj [] else get_prop cur key) in *.
    simpl in Hw. apply andb_true_iff in Hw as [Hk _].
    cbn [writable]. rewrite holds_key_set by assumption.
    rewrite has_set_prop_same by assumption.
    rewrite get_set_prop_same by assumption.
    rewrite is_object_set_at by (auto; discriminate).
    simpl. now apply IH.
Qed.

(** An own path can be written. *)
Lemma own_path_writable keys : forall cur,
  is_object cur = true -> own_path cur keys = true -> writable cur keys = true.
Proof.
  induction keys as [|key rest IH]; intros cur Hobj Hp; [reflexivity|].
  cbn [own_path] in Hp. apply andb_true_iff in Hp as [_ Hp].
  assert (Hk : holds_key cur key = true /\ own_path (get_prop cur key) rest = true).
  { destruct cur; try discriminate Hobj; cbn [holds_key].
    - destruct (array_index key); [auto | discriminate].
    - auto. }
  destruct Hk as [Hk Hchild]. cbn [writable]. rewrite Hk. cbn [andb].
  destruct rest as [|k2 rest]; [reflexivity|].
  destruct (negb (has_prop cur key) || negb (is_object (get_prop cur key))) eqn:E;
    [reflexivity|].
  apply IH; [|exact Hchild].
  apply orb_false_iff in E as [_ E]. now apply negb_false_iff in E.
Qed.

Lemma getNestedValue_fold obj path :
  getNestedValue obj path = fold_left get_step (split_dots path) obj.
Proof. reflexivity. Qed.

Lemma get_setNestedValue obj path x :
  writable obj (split_dots path) = true ->
  getNestedValue (setNestedValue obj path x) path = x.
Proof.
  intros Hw. unfold setNestedValue. rewrite getNestedValue_fold.
  apply get_set_at; auto. apply split_on_nonempty.
Qed.

End UpdatesFacts.

(* ================================================================== *)
(** * The update engine *)
(* ================================================================== *)

Module UpdateClaims.
Import Js Updates JsFacts UpdatesFacts Spec.

Section Frame.
Variable k : string.
Variable v0 : value.

Lemma set_at_keeps fs key rest x :
  key <> k -> assoc_get fs k = v0 -> keeps k v0 (set_at (VObj fs) (key :: rest) x).
Proof.
  intros Hne H0. destruct rest as [|k2 rest]; simpl;
    eexists; (split; [reflexivity|]); now rewrite assoc_get_set_other.
Qed.

Lemma unset_at_keeps fs key rest :
  key <> k -> assoc_get fs k = v0 -> keeps k v0 (unset_at (VObj fs) (key :: rest)).
Proof.
  intros Hne H0. destruct rest as [|k2 rest].
  - simpl. eexists; split; [reflexivity|]. now rewrite assoc_get_del_other.
  - cbn [unset_at].
    destruct (negb (has_prop (VObj fs) key) || negb (is_object (get_prop (VObj fs) key))).
    + now exists fs.
    + simpl. eexists; split; [reflexivity|]. now rewrite assoc_get_set_other.
Qed.

Lemma path_head path : exists rest, split_dots path = first_segment path :: rest.
Proof.
  unfold first_segment. pose proof (split_on_nonempty "."%char path) as H.
  unfold split_dots. destruct (split_on "." path); [congruence|]. simpl. eauto.
Qed.

Lemma setNestedValue_keeps d path x :
  first_segment path <> k -> keeps k v0 d -> keeps k v0 (setNestedValue d path x).
Proof.
  intros Hne (fs & -> & H0). unfold setNestedValue.
  destruct (path_head path) as [rest ->]. now apply set_at_keeps.
Qed.

Lemma unsetNestedValue_keeps d path :
  first_segment path <> k -> keeps k v0 d -> keeps k v0 (unsetNestedValue d path).
Proof.
  intros Hne (fs & -> & H0). unfold unsetNestedValue.
  destruct (path_head path) as [rest ->]. now apply unset_at_keeps.
Qed.

Lemma inc_step_keeps : step_keeps k v0 inc_step.
Proof.
  intros d path x Hne Hd. unfold inc_step.
  destruct (if truthy (getNestedValue d path) then getNestedValue d path else VNum 0); auto.
  destruct x; auto. now apply setNestedValue_keeps.
Qed.

Lemma push_step_keeps : step_keeps k v0 push_step.
Proof.
  intros d path x Hne Hd. unfold push_step.
  destruct (getNestedValue d path); now apply setNestedValue_keeps.
Qed.

Lemma pull_step_keeps : step_keeps k v0 pull_step.
Proof.
  intros d path x Hne Hd. unfold pull_step.
  destruct (getNestedValue d path); auto. now apply setNestedValue_keeps.
Qed.

Lemma addToSet_step_keeps : step_keeps k v0 addToSet_step.
Proof.
  intros d path x Hne Hd. unfold addToSet_step.
  destruct (getNestedValue d path); try now apply setNestedValue_keeps.
  destruct (existsb _ items); auto. now apply setNestedValue_keeps.
Qed.

Lemma forEach_keeps step entries : step_keeps k v0 step ->
  existsb (fun path => String.eqb (first_segment path) k) (map fst entries) = false ->
  forall d, keeps k v0 d -> keeps k v0 (forEach entries step d).
Proof.
  intros Hs. unfold forEach.
  induction entries as [|[path x] rest IH]; simpl; intros Hn d Hd; auto.
  apply orb_false_iff in Hn as [Hp Hr]. apply IH; auto.
  apply Hs; auto. now apply String.eqb_neq.
Qed.

Lemma group_keeps operators name step : step_keeps k v0 step ->
  group_names k (get_prop operators name) = false ->
  forall d, keeps k v0 d -> keeps k v0 (group operators name step d).
Proof.
  intros Hs Hn d Hd. unfold group. unfold group_names in Hn.
  destruct (truthy (get_prop operators name)); auto.
  now apply forEach_keeps.
Qed.

Lemma spread_keeps base update :
  existsb (String.eqb k) (Object_keys update) = false ->
  assoc_get base k = v0 -> assoc_get (spread base update) k = v0.
Proof.
  intros Hn H0. unfold spread.
  assert (F : forall entries acc,
             existsb (String.eqb k) (map fst entries) = false ->
             assoc_get acc k = v0 ->
             assoc_get (fold_left (fun acc kv => assoc_set acc (fst kv) (snd kv)) entries acc) k = v0).
  { induction entries as [|[key x] rest IH]; simpl; intros acc Hk Ha; auto.
    apply orb_false_iff in Hk as [Hk Hr]. apply IH; auto.
    rewrite assoc_get_set_other; auto.
    intros ->. now rewrite String.eqb_refl in Hk. }
  destruct update; auto; now apply F.
Qed.

Lemma applyUpdate_keeps fs update :
  names_field k update = false -> assoc_get fs k = v0 ->
  keeps k v0 (applyUpdate (VObj fs) update).
Proof.
  intros Hn H0. unfold applyUpdate, names_field in *.
  destruct (isUpdateOperators update); cbn [negb].
  - cbn [existsb operator_groups] in Hn.
    repeat (apply orb_false_iff in Hn as [? Hn]).
    apply group_keeps; [apply addToSet_step_keeps | assumption |].
    apply group_keeps; [apply pull_step_keeps | assumption |].
    apply group_keeps; [apply push_step_keeps | assumption |].
    apply group_keeps; [apply inc_step_keeps | assumption |].
    apply group_keeps;
      [intros d path x Hne Hd; now apply unsetNestedValue_keeps | assumption |].
    apply group_keeps;
      [intros d path x Hne Hd; now apply setNestedValue_keeps | assumption |].
    now exists fs.
  - eexists; split; [reflexivity|]. now apply spread_keeps.
Qed.

End Frame.

(** [applyUpdate] leaves alone the managed fields that the specification does
    not name. *)
Lemma applyUpdate_keeps_unnamed (fs : list (string * value)) (update : value) :
  (forall k, In k managed_fields -> names_field k update = false) ->
  forall k, In k managed_fields ->
    get_prop (applyUpdate (VObj fs) update) k = get_prop (VObj fs) k.
Proof.
  intros Hn k Hk.
  destruct (applyUpdate_keeps k (assoc_get fs k) fs update (Hn k Hk) eq_refl) as (fs' & -> & H).
  exact H.
Qed.

Lemma mixed_is_object update : mixed update = true -> exists fs, update = VObj fs.
Proof.
  unfold mixed. intros H. apply andb_true_iff in H as [H _].
  destruct update; simpl in H; try discriminate; eauto.
  - exfalso. unfold Object_keys in H. simpl in H.
    revert H. generalize 0%nat. induction (chars s) as [|c l IH]; simpl; intros i H; try discriminate.
    apply orb_true_iff in H as [H|H]; [|eauto].
    unfold is_operator_key, index_key in H.
    destruct (Nat.to_uint i); discriminate.
  - exfalso. unfold Object_keys in H. simpl in H.
    revert H. generalize 0%nat. induction items as [|c l IH]; simpl; intros i H; try discriminate.
    apply orb_true_iff in H as [H|H]; [|eauto].
    unfold is_operator_key, index_key in H.
    destruct (Nat.to_uint i); discriminate.
Qed.

Lemma check_entries_ok check ok entries :
  (forall key x, check key x = Ok tt <-> ok x = true) ->
  (check_entries check entries = Ok tt <-> forallb ok (map snd entries) = true).
Proof.
  intros Hc. induction entries as [|[key x] rest IH]; simpl; [tauto|].
  rewrite andb_true_iff, <- IH, <- (Hc key x).
  destruct (check key x) as [[]|e]; simpl; split; intros H; try tauto; try discriminate.
Qed.

Lemma assoc_get_filter (p : string -> bool) fs name :
  p name = true ->
  assoc_get (filter (fun kv => p (fst kv)) fs) name = assoc_get fs name.
Proof.
  intros Hp. induction fs as [|[k v] fs IH]; simpl; auto.
  destruct (p k) eqn:E; simpl.
  - destruct (String.eqb k name); auto.
  - destruct (String.eqb k name) eqn:E2; auto.
    apply String.eqb_eq in E2; subst. congruence.
Qed.

Lemma existsb_filter_keys (p : string -> bool) (fs : list (string * value)) :
  existsb p (map fst (filter (fun kv => p (fst kv)) fs)) = existsb p (map fst fs).
Proof.
  induction fs as [|[k v] fs IH]; simpl; auto.
  destruct (p k) eqn:E; simpl; rewrite ?E; simpl; auto.
Qed.

(** C3 (as amended).  An update specification that mixes operator keys with
    other keys is not rejected for its shape: [validateUpdate] treats it as
    operator-style and accepts it exactly when every [$inc] operand is a number
    and every [$unset] operand is [1] or [true]; [applyUpdate] then applies the
    operator groups only, as if the other keys were not there. *)
Theorem mixed_update_is_operator_style (update : value) :
  mixed update = true ->
  (validateUpdate update = Ok tt <->
   inc_operands_ok update && unset_operands_ok update = true)
  /\ forall document, applyUpdate document update = applyUpdate document (operators_only update).
Proof.
  intros Hm. destruct (mixed_is_object _ Hm) as [fs ->].
  assert (Hop : isUpdateOperators (VObj fs) = true).
  { unfold mixed in Hm. apply andb_true_iff in Hm as [H _]. exact H. }
  split.
  - unfold validateUpdate. rewrite Hop. cbn [truthy typeof negb orb String.eqb Ascii.eqb Bool.eqb].
    simpl (String.eqb "object" "object").
    cbn [negb orb]. unfold inc_operands_ok, unset_operands_ok.
    rewrite andb_true_iff.
    set (ci := fun key x => if is_number x then Ok tt else Throw _).
    set (cu := fun key x => if strict_eq x (VNum 1) || strict_eq x (VBool true) then Ok tt else Throw _).
    assert (Hi : forall es, check_entries ci es = Ok tt <-> forallb is_number (map snd es) = true).
    { intros es. apply check_entries_ok. intros key x. unfold ci.
      destruct (is_number x); split; intros; try reflexivity; discriminate. }
    assert (Hu : forall es, check_entries cu es = Ok tt <->
               forallb (fun x => strict_eq x (VNum 1) || strict_eq x (VBool true)) (map snd es) = true).
    { intros es. apply check_entries_ok. intros key x. unfold cu.
      destruct (strict_eq x (VNum 1) || strict_eq x (VBool true)); split; intros; try reflexivity; discriminate. }
    unfold Object_values.
    destruct (truthy (get_prop (VObj fs) "$inc")).
    + rewrite <- Hi.
      destruct (check_entries ci _) as [[]|e]; cbn [bind].
      * destruct (truthy (get_prop (VObj fs) "$unset")).
        -- rewrite <- Hu. tauto.
        -- tauto.
      * split; [discriminate | intros [H _]; discriminate].
    + cbn [bind]. destruct (truthy (get_prop (VObj fs) "$unset")).
      * rewrite <- Hu. tauto.
      * tauto.
  - intros document. unfold applyUpdate, operators_only.
    assert (Hop' : isUpdateOperators (VObj (filter (fun kv => is_operator_key (fst kv)) fs)) = true).
    { unfold isUpdateOperators in *. simpl in *. unfold Object_keys in *. simpl in *.
      unfold is_operator_key in *. now rewrite (existsb_filter_keys (starts_with "$")). }
    rewrite Hop, Hop'. cbn [negb]. unfold group. cbn [get_prop].
    rewrite !(assoc_get_filter is_operator_key) by reflexivity. reflexivity.
Qed.

(** C3, on a concrete input. *)
Lemma mixed_update_is_operator_style_witness :
  (validateUpdate Sample.mixed_example = Ok tt <->
   inc_operands_ok Sample.mixed_example && unset_operands_ok Sample.mixed_example = true)
  /\ forall document,
       applyUpdate document Sample.mixed_example = applyUpdate document (operators_only Sample.mixed_example).
Proof. exact (mixed_update_is_operator_style Sample.mixed_example eq_refl). Defined.

(** C3, counterexample: [{ $set: { a: 1 }, b: 2 }] mixes both kinds of keys
    and is accepted. *)
Lemma mixed_update_accepted :
  mixed (VObj [("$set", VObj [("a", VNum 1)]); ("b", VNum 2)]) = true
  /\ validateUpdate (VObj [("$set", VObj [("a", VNum 1)]); ("b", VNum 2)]) = Ok tt.
Proof. split; reflexivity. Qed.




Lemma filter_app_last (a : list value) v :
  existsb (fun item => deepEqual item v) a = false ->
  deepEqual v v = true ->
  filter (fun item => negb (deepEqual item v)) (a ++ [v]) = a.
Proof.
  intros Hn Hv. rewrite filter_app. simpl. rewrite Hv. simpl. rewrite app_nil_r.
  induction a as [|x a IH]; simpl in *; auto.
  apply orb_false_iff in Hn as [Hx Ha]. rewrite Hx. simpl. now rewrite IH.
Qed.

Lemma deepEqual_refl_scalar v : is_object v = false -> deepEqual v v = true.
Proof.
  intros H. destruct v; simpl in *; try discriminate; auto.
  - now rewrite Bool.eqb_reflx.
  - now rewrite Z.eqb_refl.
  - now rewrite String.eqb_refl.
Qed.

Lemma setNestedValue_obj fs path x : exists fs', setNestedValue (VObj fs) path x = VObj fs'.
Proof.
  unfold setNestedValue. destruct (split_dots path) as [|k [|k2 rest]]; simpl; eauto.
Qed.

(** C5 (as amended).  When the array [a] at the writable path [f] holds no
    element deep-equal to the scalar [v], [$push] of [v] followed by [$pull] of
    [v] leaves exactly [a] at [f]. *)
Theorem push_then_pull (fs : list (string * value)) (f : string) (a : list value) (v : value) :
  writable (VObj fs) (split_dots f) = true ->
  getNestedValue (VObj fs) f = VArr a ->
  is_object v = false ->
  existsb (fun item => deepEqual item v) a = false ->
  getNestedValue (applyUpdate (applyUpdate (VObj fs) (push_spec f v)) (pull_spec f v)) f = VArr a.
Proof.
  intros Hw Ha Hv Hn.
  assert (E1 : applyUpdate (VObj fs) (push_spec f v) = push_step (VObj fs) f v) by reflexivity.
  rewrite E1. unfold push_step. rewrite Ha.
  destruct (setNestedValue_obj fs f (VArr (a ++ [v]))) as [fs1 E].
  assert (G1 : getNestedValue (VObj fs1) f = VArr (a ++ [v])).
  { rewrite <- E. now apply get_setNestedValue. }
  assert (W1 : writable (VObj fs1) (split_dots f) = true).
  { rewrite <- E. now apply writable_set_at. }
  rewrite E.
  assert (E2 : applyUpdate (VObj fs1) (pull_spec f v) = pull_step (VObj fs1) f v) by reflexivity.
  rewrite E2. unfold pull_step. rewrite G1.
  rewrite get_setNestedValue by assumption.
  f_equal. apply filter_app_last; auto. now apply deepEqual_refl_scalar.
Qed.

(** C5, on a concrete input. *)
Lemma push_then_pull_witness :
  getNestedValue
    (applyUpdate (applyUpdate (VObj [("_id", VStr "1"); ("tags", VArr [VStr "a"; VStr "b"])])
                              (push_spec "tags" (VStr "c")))
                 (pull_spec "tags" (VStr "c"))) "tags"
  = VArr [VStr "a"; VStr "b"].
Proof.
  exact (push_then_pull [("_id", VStr "1"); ("tags", VArr [VStr "a"; VStr "b"])] "tags"
           [VStr "a"; VStr "b"] (VStr "c") eq_refl eq_refl eq_refl eq_refl).
Defined.

(** C5, counterexample: the array already holds the pushed value, and [$pull]
    removes every copy, so [[1, 2, 1]] comes back as [[2]]. *)
Lemma push_then_pull_drops_earlier_copies :
  getNestedValue (VObj [("tags", VArr [VNum 1; VNum 2; VNum 1])]) "tags"
  = VArr [VNum 1; VNum 2; VNum 1]
  /\ getNestedValue
       (applyUpdate (applyUpdate (VObj [("tags", VArr [VNum 1; VNum 2; VNum 1])])
                                 (VObj [("$push", VObj [("tags", VNum 1)])]))
                    (VObj [("$pull", VObj [("tags", VNum 1)])])) "tags"
     = VArr [VNum 2].
Proof. split; reflexivity. Qed.

End UpdateClaims.

(* ================================================================== *)
(** * The filter engine *)
(* ================================================================== *)

Module FilterClaims.
Import Js Filters Spec.

Section WithRuntime.
Context {RT : Runtime}.

Lemma fold_get_undefined keys :
  fold_left (fun current key => if truthy current then get_prop current key else VUndefined)
            keys VUndefined = VUndefined.
Proof. induction keys; simpl; auto. Qed.

Lemma split_dots_operator key :
  starts_with "$" key = true -> exists s rest, split_dots key = String "$" s :: rest.
Proof.
  destruct key as [|c key]; cbn [starts_with]; [discriminate|].
  intros H. apply andb_true_iff in H as [H _]. apply Ascii.eqb_eq in H. subst c.
  unfold split_dots. cbn [split_on]. change (Ascii.eqb "$" ".") with false. cbn iota.
  destruct (split_on "." key); eauto.
Qed.

(** An operator key resolves to [undefined] in the wrapper [{ docValue }],
    whatever the wrapped value is. *)
Lemma operator_key_unresolved key v :
  starts_with "$" key = true -> getNestedValue (VObj [("docValue", v)]) key = VUndefined.
Proof.
  intros H. destruct (split_dots_operator key H) as (s & rest & E).
  unfold getNestedValue. rewrite E. simpl. apply fold_get_undefined.
Qed.

Lemma matches_logical_case document key x rest :
  is_logical key = false ->
  matchesFilter document (VObj ((key, x) :: rest))
  = bind (evaluateFieldFilter document key x)
         (fun b => if b then matchesFilter document (VObj rest) else Ok false).
Proof.
  unfold is_logical. intros H.
  apply orb_false_iff in H as [H Hnot]. apply orb_false_iff in H as [Hand Hor].
  cbn [matchesFilter everyM fst snd]. rewrite Hand, Hor, Hnot. reflexivity.
Qed.

Lemma wrapper_independent ops : forall v v',
  operator_keys ops = true ->
  matchesFilter (VObj [("docValue", v)]) (VObj ops)
  = matchesFilter (VObj [("docValue", v')]) (VObj ops).
Proof.
  induction ops as [|[key x] rest IH]; intros v v' H; [reflexivity|].
  simpl in H. apply andb_true_iff in H as [H Hrest]. apply andb_true_iff in H as [Hop Hlog].
  apply negb_true_iff in Hlog.
  rewrite !matches_logical_case by assumption.
  unfold evaluateFieldFilter, evaluateFieldFilterF.
  rewrite !operator_key_unresolved by assumption.
  now rewrite (IH v v').
Qed.

Lemma field_not_unfold d f op :
  is_logical f = false ->
  matchesFilter d (field_not f op)
  = bind (notM (matchesFilter (VObj [("docValue", Filters.getNestedValue d f)]) op))
         (fun b => if b then Ok true else Ok false).
Proof.
  intros H. unfold field_not. rewrite matches_logical_case by assumption.
  unfold evaluateFieldFilter, evaluateFieldFilterF, evaluateOperatorsF.
  cbn [everyM fst snd]. simpl (String.eqb "$not" _). cbn [matchesFilter everyM].
  destruct (notM _) as [[]|e]; reflexivity.
Qed.

Lemma literal_operands_false v ops :
  operator_keys ops = true -> literal_operands ops = true ->
  matchesFilter (VObj [("docValue", v)]) (VObj ops) = Ok false.
Proof.
  destruct ops as [|[key x] rest]; [discriminate|].
  intros Hk Hl. simpl in Hk. apply andb_true_iff in Hk as [Hk _].
  apply andb_true_iff in Hk as [Hop Hlog]. apply negb_true_iff in Hlog.
  unfold literal_operands in Hl. simpl in Hl. apply andb_true_iff in Hl as [Hx _].
  rewrite matches_logical_case by assumption.
  unfold evaluateFieldFilter, evaluateFieldFilterF.
  rewrite operator_key_unresolved by assumption.
  destruct x; try discriminate; reflexivity.
Qed.

(** C9 (as amended).  For a field [f] (not itself a logical keyword) and an
    operator object [op] whose keys are operators other than the logical ones,
    [{ f: { $not: op } }] never applies [op] to the value found at [f]: its
    result is the same for every document and every field.  When moreover [op]
    is not empty and its operands are literals (neither nested objects nor
    [undefined]), as in [{ $lt: n }], that result is [true]. *)
Theorem field_not_ignores_field (d : value) (f : string) (ops : list (string * value)) :
  is_logical f = false ->
  operator_keys ops = true ->
  (forall d' f', is_logical f' = false ->
     matchesFilter d (field_not f (VObj ops)) = matchesFilter d' (field_not f' (VObj ops)))
  /\ (literal_operands ops = true -> matchesFilter d (field_not f (VObj ops)) = Ok true).
Proof.
  intros Hf Hk. split.
  - intros d' f' Hf'. rewrite !field_not_unfold by assumption.
    now rewrite (wrapper_independent ops _ (Filters.getNestedValue d' f')).
  - intros Hl. rewrite field_not_unfold by assumption.
    now rewrite literal_operands_false.
Qed.

Lemma field_not_object_operand_false d f :
  is_logical f = false ->
  matchesFilter d (field_not f (VObj [("$eq", VObj [("a", VNum 1)])])) = Ok false.
Proof.
  intros Hf. rewrite field_not_unfold by assumption. reflexivity.
Qed.

End WithRuntime.

(** C9, on a concrete input. *)
Lemma field_not_ignores_field_witness :
  @matchesFilter Sample.runtime Sample.john (field_not "age" (VObj [("$lt", VNum 18)])) = Ok true.
Proof.
  apply (@field_not_ignores_field Sample.runtime Sample.john "age" [("$lt", VNum 18)]);
    reflexivity.
Defined.

(** C9, counterexample: with an operand that is a nested document the same
    shape evaluates to [false], here on a document whose [age] is 30. *)
Lemma field_not_eq_object_is_false :
  @matchesFilter Sample.runtime Sample.john
     (field_not "age" (VObj [("$eq", VObj [("a", VNum 1)])])) = Ok false.
Proof. reflexivity. Qed.

End FilterClaims.

(* ================================================================== *)
(** * The encryption layer *)
(* ================================================================== *)

Module EncryptionClaims.
Import Js Encryption.

Lemma from_hex_byte (b : Byte.byte) (rest : string) :
  from_hex (hex_byte (Byte.to_nat b) ++ rest) = b :: from_hex rest.
Proof. destruct b; reflexivity. Qed.

Lemma to_hex_app (a b : list Byte.byte) : to_hex (a ++ b) = (to_hex a ++ to_hex b)%string.
Proof.
  induction a as [|x a IH]; [reflexivity|].
  cbn [app to_hex fold_right]. fold (to_hex (a ++ b)) (to_hex a).
  rewrite IH. unfold hex_byte. reflexivity.
Qed.

Lemma from_hex_to_hex (bytes : list Byte.byte) : from_hex (to_hex bytes) = bytes.
Proof.
  induction bytes as [|b bytes IH]; [reflexivity|].
  cbn [to_hex fold_right]. fold (to_hex bytes). now rewrite from_hex_byte, IH.
Qed.

Section WithCrypto.
Context {CR : Crypto}.

(** What Node's [crypto] guarantees and the statement relies on. *)
Hypothesis decipher_inverts_cipher : forall alg key iv text updated final,
  cipher_run alg key iv text = Ok (updated, final) ->
  exists head tail,
    decipher_run alg key iv (updated ++ final) = Ok (head, tail) /\ (head ++ tail)%string = text.
Hypothesis aes_256_cbc_accepts : forall key iv text,
  List.length key = 32%nat -> List.length iv = 16%nat ->
  exists bytes, cipher_run "aes-256-cbc" key iv text = Ok bytes.
Hypothesis sha256_length : forall s, List.length (sha256 s) = 32%nat.


End WithCrypto.


End EncryptionClaims.

(* ================================================================== *)
(** * The document store *)
(* ================================================================== *)

Module StoreFacts.
Import Js Filters DiscordDB Spec.

Section WithInstances.
Context {RT : Runtime} {TR : Transport}.

Lemma getAllDocuments_effect now st r st1 :
  getAllDocuments now st = (r, st1) ->
  (fresh now st = true -> st1 = st)
  /\ (requests st1 = requests st \/ requests st1 = (requests st ++ [GetAllMessages])%list).
Proof.
  unfold getAllDocuments, fresh.
  destruct ((now - lastCacheUpdate st <? cacheTimeout st) && Nat.ltb 0 (List.length (cache st))).
  - intros [= _ <-]. auto.
  - destruct (client_getAllMessages (requests st)); intros [= _ <-];
      (split; [discriminate | right; reflexivity]).
Qed.

Lemma filterM_none p docs :
  Forall (fun doc => p doc = Ok false) docs -> filterM p docs = Ok [].
Proof.
  induction 1 as [|doc docs H _ IH]; simpl; auto. now rewrite H, IH.
Qed.

Lemma filterM_filter p docs :
  (forall doc, In doc docs -> exists b, p doc = Ok b) ->
  filterM p docs = Ok (filter (fun doc => match p doc with Ok true => true | _ => false end) docs).
Proof.
  induction docs as [|doc docs IH]; simpl; intros H; auto.
  destruct (H doc (or_introl eq_refl)) as [b Hb]. rewrite Hb. simpl.
  rewrite IH by (intros; apply H; now right). simpl. now destruct b.
Qed.

Lemma length_insert_sorted cmp x l :
  List.length (insert_sorted cmp x l) = S (List.length l).
Proof.
  induction l as [|y l IH]; simpl; auto.
  destruct (cmp x y <=? 0); simpl; auto.
Qed.

Lemma length_Array_sort cmp l : List.length (Array_sort cmp l) = List.length l.
Proof.
  induction l as [|x l IH]; simpl; auto.
  now rewrite length_insert_sorted, IH.
Qed.

Lemma length_sortDocuments docs sortOption :
  List.length (sortDocuments docs sortOption) = List.length docs.
Proof.
  unfold sortDocuments.
  destruct (negb (truthy sortOption) || _); auto. apply length_Array_sort.
Qed.

Lemma sortDocuments_absent docs sortOption :
  truthy sortOption = false -> sortDocuments docs sortOption = docs.
Proof. unfold sortDocuments. now intros ->. Qed.

Lemma applyProjection_absent docs projection :
  truthy projection = false -> applyProjection docs projection = docs.
Proof. unfold applyProjection. now intros ->. Qed.

End WithInstances.
End StoreFacts.

Module StoreClaims.
Import Js Filters DiscordDB Spec StoreFacts.

Section WithInstances.
Context {RT : Runtime} {TR : Transport}.

(** C7.  Once the documents are at hand and the filter evaluates on each of
    them, [find] returns the matching documents sorted, then paginated, then
    projected, in that order, and its [total] is the number of matching
    documents, whatever [skip], [limit] and [projection] are. *)
Theorem find_stages_and_total (filter : value) (options : QueryOptions) (now : Z)
    (st st1 : state) (docs : list value) :
  getAllDocuments now st = (Ok docs, st1) ->
  (forall doc, In doc docs -> exists b, matchesFilter doc (default_filter filter) = Ok b) ->
  let matching := List.filter (matched (default_filter filter)) docs in
  exists r,
    find filter options now st = (Ok r, st1)
    /\ total r = Z.of_nat (List.length matching)
    /\ documents r =
         applyProjection
           (applyPagination (sortDocuments matching (sort options)) (skip options) (limit options))
           (projection options).
Proof.
  intros Hdocs Hok matching.
  unfold find. rewrite Hdocs. unfold find_in.
  rewrite (filterM_filter _ _ Hok). fold (matched (default_filter filter)). fold matching.
  cbn [bind rethrow]. eexists; split; [reflexivity|]. cbn [total documents]. split.
  - destruct (truthy (sort options)); auto. now rewrite length_sortDocuments.
  - destruct (truthy (sort options)) eqn:Es, (truthy (projection options)) eqn:Ep;
      rewrite ?(sortDocuments_absent _ _ Es), ?(applyProjection_absent _ _ Ep); reflexivity.
Qed.

(** [updateOne] validates the update before it reads anything: an invalid one
    is reported and leaves the state as it is. *)
Lemma updateOne_invalid_update (filter update : value) (now : Z) (st : state) (e : js_error) :
  Updates.validateUpdate update = Throw e ->
  updateOne filter update now st = (Throw (handleError e), st).
Proof. intros H. unfold updateOne. now rewrite H. Qed.


(** C2 (as amended).  When the update specification names none of [_id],
    [_messageId] and [_timestamp] (neither as a key of a direct specification
    nor as the first segment of a path in an operator group), the document
    that a successful [updateOne], or a counted turn of [updateMany], stores
    under the identifier has these three fields as they were before. *)
Theorem managed_fields_survive_update (update : value) :
  (forall k, In k managed_fields -> names_field k update = false) ->
  (forall filter now st st1 fs r st2,
      findOne filter now st = (Ok (VObj fs), st1) ->
      updateOne filter update now st = (Ok r, st2) ->
      stores_with_managed_fields (cache st1) (cache st2) (VObj fs))
  /\ (forall st n fs st2,
      updateMany_step update (st, n) (VObj fs) = (st2, n + 1) ->
      stores_with_managed_fields (cache st) (cache st2) (VObj fs)).
Proof.
  intros Hn. split.
  - intros filter now st st1 fs r st2 Hfind. unfold updateOne.
    destruct (Updates.validateUpdate update); [|discriminate].
    rewrite Hfind. cbn [truthy negb].
    destruct (serialize _) as [content|]; [|discriminate].
    destruct (too_large content); [discriminate|].
    destruct (client_editMessage _ _ _); [|discriminate].
    intros [= _ <-]. eexists. split; [reflexivity|].
    intros k Hk. now apply UpdateClaims.applyUpdate_keeps_unnamed.
  - intros st n fs st2. unfold updateMany_step.
    destruct (serialize _) as [content|]; [|intros [= _ E]; lia].
    destruct (too_large content); [intros [= _ E]; lia|].
    destruct (client_editMessage _ _ _); [|intros [= _ E]; lia].
    intros [= <-]. eexists. split; [reflexivity|].
    intros k Hk. now apply UpdateClaims.applyUpdate_keeps_unnamed.
Qed.

(** C1, as the code behaves.  On a reload, a message whose content parses to
    an Encrypted Payload (which carries no [_id]) is dropped without any
    error: [getAllDocuments] returns normally, with the documents and the cache
    it would have produced had the message not been in the channel. *)
Theorem encrypted_payload_silently_skipped (now : Z) (st : state) (m : message)
    (before after : list message) (fields : list (string * value)) :
  fresh now st = false ->
  client_getAllMessages (requests st) = Ok (before ++ m :: after)%list ->
  JSON_parse (content m) = Some (VObj fields) ->
  Encryption.isEncrypted (VObj fields) = true ->
  truthy (get_prop (VObj fields) "_id") = false ->
  let loaded := fold_left reload_step (before ++ after)%list ([], []) in
  getAllDocuments now st
  = (Ok (fst loaded),
     mkState (snd loaded) now (cacheTimeout st) (requests st ++ [GetAllMessages])%list).
Proof.
  intros Hstale Hmsgs Hparse _ Hid loaded.
  unfold getAllDocuments. unfold fresh in Hstale. rewrite Hstale, Hmsgs.
  assert (Hskip : parse_message m = None).
  { unfold parse_message. destruct (blank (content m)); [reflexivity|]. rewrite Hparse.
    assert (E : truthy (get_prop (set_prop (set_prop (VObj fields) "_messageId" (VStr (id m)))
                                           "_timestamp" (VStr (timestamp m))) "_id") = false).
    { simpl. rewrite !JsFacts.assoc_get_set_other by discriminate. exact Hid. }
    now rewrite E. }
  assert (Hstep : forall acc, reload_step acc m = acc).
  { intros acc. unfold reload_step. now rewrite Hskip. }
  assert (E : fold_left reload_step (before ++ m :: after)%list ([], []) = loaded).
  { subst loaded. rewrite !fold_left_app. cbn [fold_left]. now rewrite Hstep. }
  now rewrite E.
Qed.

End WithInstances.

Import Sample.

(** C1, on a concrete input. *)
Lemma encrypted_payload_silently_skipped_witness :
  @getAllDocuments runtime transport 5000 empty_store
  = (Ok [], mkState [] 5000 30000 [GetAllMessages]).
Proof.
  apply (@encrypted_payload_silently_skipped runtime transport 5000 empty_store
           (mkMessage "m9" (stringify payload) "2024-05-01T10:00:00.000Z") [] []
           [("data", VStr "9f3c51aa0be27d44c1a05be2f6630d18");
            ("iv", VStr "000102030405060708090a0b0c0d0e0f");
            ("encrypted", VBool true)]); reflexivity.
Defined.

(** C2, on a concrete input. *)
Lemma managed_fields_survive_update_witness :
  stores_with_managed_fields
    (cache (store [john; jane]))
    (cache (snd (@updateOne runtime transport (VObj [("name", VStr "John")]) birthday 2000
                   (store [john; jane]))))
    john.
Proof.
  refine (proj1 (@managed_fields_survive_update runtime transport birthday _)
            (VObj [("name", VStr "John")]) 2000 (store [john; jane]) (store [john; jane])
            _ (mkUpdate true 1 1) _ _ _).
  - intros k [<-|[<-|[<-|[]]]]; reflexivity.
  - reflexivity.
  - reflexivity.
Defined.

(** C2, counterexample: a [$set] that names the three managed fields is
    accepted by [validateUpdate], and [updateOne] stores and dispatches the
    document with all three changed. *)
Lemma set_renames_managed_fields :
  Updates.validateUpdate rename_managed = Ok tt
  /\ @updateOne runtime transport (VObj [("name", VStr "John")]) rename_managed 2000
       (store [john; jane])
     = (Ok (mkUpdate true 1 1),
        mkState
          [(VStr "1",
            VObj [("_id", VStr "9"); ("name", VStr "John"); ("age", VNum 30);
                  ("_messageId", VStr "m9"); ("_timestamp", VStr "t9")]);
           (VStr "2", jane)]
          1000 30000
          [EditMessage "m1" (stringify
             (VObj [("_id", VStr "9"); ("name", VStr "John"); ("age", VNum 30);
                    ("_messageId", VStr "m9"); ("_timestamp", VStr "t9")]))]).
Proof. split; reflexivity. Qed.

(** C7, on a concrete input. *)
Lemma find_stages_and_total_witness :
  exists r,
    @find runtime transport (VObj [("age", VObj [("$gt", VNum 20)])])
          (mkOptions (Some 1) (Some 1) (VObj [("age", VNum (-1))]) (VObj [("name", VNum 1)]))
          2000 (store [john; jane])
    = (Ok r, store [john; jane])
    /\ total r = 2
    /\ documents r = [VObj [("name", VStr "Jane"); ("_id", VStr "2")]].
Proof.
  apply (@find_stages_and_total runtime transport
           (VObj [("age", VObj [("$gt", VNum 20)])])
           (mkOptions (Some 1) (Some 1) (VObj [("age", VNum (-1))]) (VObj [("name", VNum 1)]))
           2000 (store [john; jane]) (store [john; jane]) [john; jane]).
  - reflexivity.
  - intros doc [<-|[<-|[]]]; eexists; reflexivity.
Defined.



End StoreClaims.

(* ================================================================== *)
(** * The size ceiling in [updateMany] and [updateOne] *)
(* ================================================================== *)

Module InPlaceClaims.
Import Js Filters DiscordDB Spec InPlace.

Section Objects.
Context {RT : Runtime} {TR : Transport}.
Context {objects document : Type}.
Variable tree : objects -> document -> value.
Variable code_units : string -> nat.
Variable applyUpdate : objects -> document -> document -> result document * objects.
Variable getAllDocuments :
  store objects document -> result (list document) * store objects document.
Variable findOne :
  value -> store objects document -> result (option document) * store objects document.

(** What one turn of the loop does, read off the document's turn. *)
Lemma updateMany_turn_effect (update : document) (st : store objects document) (n : Z)
  (doc : document) :
  let turn :=
    (String_ (get_prop (tree (snd (applyUpdate (objs st) doc update)) doc) "_messageId"),
     bind (fst (applyUpdate (objs st) doc update))
          (fun updatedDoc =>
             serialize (tree (snd (applyUpdate (objs st) doc update)) updatedDoc))) in
  let after := updateMany_turn tree code_units applyUpdate update (st, n) doc in
  objs (fst after) = snd (applyUpdate (objs st) doc update)
  /\ log (fst after) = (log st ++ edit_of code_units turn)%list
  /\ n <= snd after <= n + Z.of_nat (List.length (edit_of code_units turn))
  /\ ((forall reqs id content, exists m, client_editMessage reqs id content = Ok m) ->
      snd after = n + Z.of_nat (List.length (edit_of code_units turn))).
Proof.
  intros turn after. subst turn after. unfold updateMany_turn, edit_of.
  destruct (applyUpdate (objs st) doc update) as [[updatedDoc|e] o1]; cbn [fst snd bind].
  - destruct (serialize (tree o1 updatedDoc)) as [content|e].
    + destruct (above_ceiling code_units content).
      * cbn [objs log with_objs fst snd List.length]. rewrite app_nil_r.
        repeat split; auto; lia.
      * destruct (client_editMessage (log st) _ content) as [m|e] eqn:E;
          cbn [objs log edited fst snd List.length]; repeat split; auto; try lia.
        intros Hall. destruct (Hall (log st)
          (String_ (get_prop (tree o1 doc) "_messageId")) content) as [m Hm]. congruence.
    + cbn [objs log with_objs fst snd List.length]. rewrite app_nil_r.
      repeat split; auto; lia.
  - cbn [objs log with_objs fst snd List.length]. rewrite app_nil_r.
    repeat split; auto; lia.
Qed.

Lemma updateMany_loop_effect (update : document) (docs : list document) :
  forall (st : store objects document) (n : Z),
    let edits := flat_map (edit_of code_units) (turns tree applyUpdate (objs st) update docs) in
    let after := fold_left (updateMany_turn tree code_units applyUpdate update) docs (st, n) in
    log (fst after) = (log st ++ edits)%list
    /\ n <= snd after <= n + Z.of_nat (List.length edits)
    /\ ((forall reqs id content, exists m, client_editMessage reqs id content = Ok m) ->
        snd after = n + Z.of_nat (List.length edits)).
Proof.
  induction docs as [|doc docs IH]; intros st n edits after; subst edits after.
  - cbn [fold_left turns flat_map fst snd List.length]. rewrite app_nil_r.
    repeat split; auto; lia.
  - cbn [fold_left turns].
    pose proof (updateMany_turn_effect update st n doc) as H. cbv zeta in H.
    destruct H as (Ho & Hl & Hn & Hall).
    destruct (updateMany_turn tree code_units applyUpdate update (st, n) doc) as [st' n'] eqn:T.
    cbn [fst snd] in Ho, Hl, Hn, Hall.
    destruct (applyUpdate (objs st) doc update) as [r o1] eqn:A. cbn [fst snd] in *.
    specialize (IH st' n'). cbv zeta in IH. rewrite Ho in IH.
    destruct IH as (Hl' & Hn' & Hall').
    cbn [flat_map]. rewrite length_app.
    split; [|split].
    + rewrite Hl', Hl. now rewrite <- app_assoc.
    + lia.
    + intros Hyes. rewrite (Hall' Hyes), (Hall Hyes). lia.
Qed.


End Objects.

(** ** The instance in which nothing is shared *)

Section Unshared.
Context {RT : Runtime} {TR : Transport}.

Lemma as_of_state (st : state) : as_state (of_state st) = st.
Proof. now destruct st. Qed.

Lemma of_as_state (s : InPlace.store unit value) : of_state (as_state s) = s.
Proof. now destruct s as [[] c r t l]. Qed.

Lemma keepM_filterM (p : value -> result bool) (l : list value) :
  keepM p l = filterM p l.
Proof. induction l as [|x l IH]; simpl; [reflexivity|]. now rewrite IH. Qed.

Lemma Map_set_unshared (m : list (value * value)) (k v : value) :
  InPlace.Map_set m k v = DiscordDB.Map_set m k v.
Proof.
  induction m as [|[k' v'] m IH]; simpl; [reflexivity|].
  destruct (strict_eq k' k); [reflexivity | now rewrite IH].
Qed.

Lemma unshared_turn (update : value) (s : InPlace.store unit value) (n : Z) (doc : value) :
  updateMany_step update (as_state s, n) doc
  = (as_state (fst (updateMany_turn own_tree String.length unshared update (s, n) doc)),
     snd (updateMany_turn own_tree String.length unshared update (s, n) doc)).
Proof.
  unfold updateMany_step, updateMany_turn, unshared, own_tree, above_ceiling, too_large.
  destruct s as [[] c r t l].
  cbn [objs entries log as_state requests cache].
  destruct (serialize (Updates.applyUpdate doc update)) as [content|e]; [|reflexivity].
  destruct (Nat.ltb 2000 (String.length content)); [reflexivity|].
  cbn [dispatched requests cache lastCacheUpdate cacheTimeout].
  destruct (client_editMessage l _ content); cbn [fst snd with_cache]; [|reflexivity].
  unfold as_state, edited.
  cbn [entries log refreshed timeout cache lastCacheUpdate cacheTimeout requests].
  now rewrite Map_set_unshared.
Qed.

Lemma unshared_loop (update : value) (docs : list value) :
  forall (s : InPlace.store unit value) (n : Z),
    fold_left (updateMany_step update) docs (as_state s, n)
    = (as_state (fst (fold_left (updateMany_turn own_tree String.length unshared update) docs (s, n))),
       snd (fold_left (updateMany_turn own_tree String.length unshared update) docs (s, n))).
Proof.
  induction docs as [|doc docs IH]; intros s n; [reflexivity|].
  cbn [fold_left]. rewrite unshared_turn.
  destruct (updateMany_turn own_tree String.length unshared update (s, n) doc) as [s' n'].
  apply IH.
Qed.

(** When nothing is shared, [InPlace.updateMany] and [InPlace.updateOne] are
    the functions of [DiscordDB]. *)
Lemma unshared_updateMany (filter update : value) (now : Z) (st : state) :
  DiscordDB.updateMany filter update now st
  = (fst (InPlace.updateMany own_tree String.length unshared (unshared_getAllDocuments now)
            filter update (of_state st)),
     as_state (snd (InPlace.updateMany own_tree String.length unshared (unshared_getAllDocuments now)
                      filter update (of_state st)))).
Proof.
  unfold DiscordDB.updateMany, InPlace.updateMany, unshared_getAllDocuments, own_tree.
  rewrite as_of_state.
  destruct (Updates.validateUpdate update); [|cbn [fst snd]; now rewrite as_of_state].
  destruct (getAllDocuments now st) as [[docs|e] st1];
    [|cbn [fst snd]; now rewrite as_of_state].
  rewrite keepM_filterM.
  destruct (filterM _ docs) as [matching|e]; [|cbn [fst snd]; now rewrite as_of_state].
  rewrite <- (as_of_state st1) at 1. rewrite unshared_loop.
  destruct (fold_left (updateMany_turn _ _ _ update) matching _) as [s2 n2]. reflexivity.
Qed.

Lemma unshared_updateOne (filter update : value) (now : Z) (st : state) :
  DiscordDB.updateOne filter update now st
  = (fst (InPlace.updateOne own_tree String.length unshared (unshared_findOne now)
            filter update (of_state st)),
     as_state (snd (InPlace.updateOne own_tree String.length unshared (unshared_findOne now)
                      filter update (of_state st)))).
Proof.
  unfold DiscordDB.updateOne, InPlace.updateOne, unshared_findOne, own_tree, unshared,
    above_ceiling, too_large.
  rewrite as_of_state.
  destruct (Updates.validateUpdate update); [|cbn [fst snd]; now rewrite as_of_state].
  destruct (findOne filter now st) as [[doc|e] st1];
    [|cbn [fst snd]; now rewrite as_of_state].
  destruct (truthy doc); cbn [negb]; [|cbn [fst snd]; now rewrite as_of_state].
  destruct (serialize (Updates.applyUpdate doc update)) as [content|e];
    [|cbn [fst snd]; unfold with_objs, as_state, of_state; now destruct st1].
  destruct (Nat.ltb 2000 (String.length content));
    [cbn [fst snd]; unfold with_objs, as_state, of_state; now destruct st1|].
  cbn [of_state log objs entries].
  destruct (client_editMessage (requests st1) _ content); cbn [fst snd];
    unfold edited, as_state, dispatched, with_cache;
    cbn [entries log refreshed timeout cache lastCacheUpdate cacheTimeout requests of_state];
    rewrite ?Map_set_unshared; reflexivity.
Qed.

End Unshared.

Import Sample.


End InPlaceClaims.

(* ================================================================== *)
(** * The expectations of the repository's unit tests *)
(* ================================================================== *)

(** Cases of the unit tests of src/utils/filters.ts and src/utils/updates.ts
    that stay within the value model (their documents, filters and updates,
    with the expected results), evaluated on the embedding. *)
Module RepositoryTests.
Import Js Filters Updates.

Definition person (id name : string) (age : Z) (role : string) (tags : list string) (score : Z)
  : value :=
  VObj [("_id", VStr id); ("name", VStr name); ("age", VNum age); ("role", VStr role);
        ("tags", VArr (map VStr tags)); ("score", VNum score)].

Definition sampleDocuments : list value :=
  [person "1" "John" 30 "admin" ["user"; "active"] 85;
   person "2" "Jane" 25 "user" ["user"] 92;
   person "3" "Bob" 35 "user" ["user"; "premium"] 78;
   person "4" "Alice" 28 "moderator" ["moderator"; "active"] 88;
   person "5" "Charlie" 22 "user" ["user"; "new"] 95].

Definition sampleDocument : value :=
  VObj [("_id", VStr "1"); ("name", VStr "John"); ("age", VNum 30); ("role", VStr "user");
        ("tags", VArr [VStr "active"; VStr "premium"]);
        ("profile", VObj [("email", VStr "john@example.com"); ("phone", VStr "123-456-7890")]);
        ("score", VNum 85)].

Definition matching (filter : value) : list value :=
  List.filter (fun doc => match @matchesFilter Sample.runtime doc filter with
                          | Ok true => true
                          | _ => false
                          end) sampleDocuments.

Definition field (name : string) (docs : list value) : list value :=
  map (fun doc => get_prop doc name) docs.

Example empty_filter_matches_all : List.length (matching (VObj [])) = 5%nat.
Proof. reflexivity. Qed.

Example in_operator_matches_two :
  field "role" (matching (VObj [("role", VObj [("$in", VArr [VStr "admin"; VStr "moderator"])])]))
  = [VStr "admin"; VStr "moderator"].
Proof. reflexivity. Qed.

Example nested_conditions_match_two :
  field "name"
    (matching (VObj [("$and",
       VArr [VObj [("age", VObj [("$gte", VNum 25); ("$lte", VNum 35)])];
             VObj [("$or", VArr [VObj [("role", VStr "admin")];
                                 VObj [("score", VObj [("$gt", VNum 90)])]])]])]))
  = [VStr "John"; VStr "Jane"].
Proof. reflexivity. Qed.

Example sort_by_role_then_age_descending :
  field "name" (@sortDocuments Sample.runtime sampleDocuments
                  (VObj [("role", VNum 1); ("age", VNum (-1))]))
  = [VStr "John"; VStr "Alice"; VStr "Bob"; VStr "Jane"; VStr "Charlie"].
Proof. reflexivity. Qed.

Example inclusive_projection_keeps_id :
  map Object_keys (applyProjection sampleDocuments (VObj [("name", VNum 1); ("age", VNum 1)]))
  = repeat ["name"; "age"; "_id"] 5.
Proof. reflexivity. Qed.

Example skip_one_limit_two :
  field "_id" (applyPagination sampleDocuments (Some 1) (Some 2)) = [VStr "2"; VStr "3"].
Proof. reflexivity. Qed.

Example inc_adds_to_numbers :
  let result := applyUpdate sampleDocument
                  (VObj [("$inc", VObj [("age", VNum 5); ("score", VNum (-10))])]) in
  (get_prop result "age", get_prop result "score", get_prop result "name")
  = (VNum 35, VNum 75, VStr "John").
Proof. reflexivity. Qed.

Example several_operators_at_once :
  let result := applyUpdate sampleDocument
                  (VObj [("$set", VObj [("name", VStr "Jane")]);
                         ("$inc", VObj [("age", VNum 1)]);
                         ("$push", VObj [("tags", VStr "updated")]);
                         ("$unset", VObj [("role", VNum 1)])]) in
  (get_prop result "name", get_prop result "age", get_prop result "tags", get_prop result "role")
  = (VStr "Jane", VNum 31, VArr [VStr "active"; VStr "premium"; VStr "updated"], VUndefined).
Proof. reflexivity. Qed.

Example nested_set_creates_intermediate_objects :
  let result := applyUpdate sampleDocument
                  (VObj [("$set", VObj [("profile.email", VStr "new@example.com");
                                        ("profile.settings.theme", VStr "dark")])]) in
  (Updates.getNestedValue result "profile.email",
   Updates.getNestedValue result "profile.settings.theme",
   Updates.getNestedValue result "profile.phone")
  = (VStr "new@example.com", VStr "dark", VStr "123-456-7890").
Proof. reflexivity. Qed.

Example unset_rejects_other_operands :
  validateUpdate (VObj [("$unset", VObj [("field", VStr "invalid")])])
  = Throw (mkError PlainError
             ("$unset operator requires value 1 or true. Got invalid for field "
              ++ dquote ++ "field" ++ dquote)).
Proof. reflexivity. Qed.

End RepositoryTests.

(* ================================================================== *)
(** * Further properties of the update engine *)
(* ================================================================== *)

Module UpdateExtras.
Import Js Updates JsFacts UpdatesFacts Spec SpecMore.

(** ** Writing and reading a path *)

(** X1.  A [$set] on a path whose walk only meets own fields (of objects, or
    slots of arrays; no segment is a name inherited from [Object.prototype],
    such as [__proto__] or [constructor]) can be read back: after
    [applyUpdate] with [{ $set: { f: x } }], [getNestedValue] at [f] is [x],
    intermediate objects being created on the way, and every top-level field
    other than the first segment of [f] is as it was. *)
Theorem set_then_read (fs : list (string * value)) (f : string) (x : value) :
  own_path (VObj fs) (split_dots f) = true ->
  let d' := applyUpdate (VObj fs) (set_spec f x) in
  getNestedValue d' f = x
  /\ forall k, k <> first_segment f -> get_prop d' k = get_prop (VObj fs) k.
Proof.
  intros Hp d'.
  assert (Hw : writable (VObj fs) (split_dots f) = true) by (now apply own_path_writable).
  assert (E : d' = setNestedValue (VObj fs) f x) by reflexivity.
  rewrite E. split.
  - now apply get_setNestedValue.
  - intros k Hk.
    destruct (UpdateClaims.setNestedValue_keeps k (assoc_get fs k) (VObj fs) f x) as (fs' & -> & H);
      [congruence | now exists fs | exact H].
Qed.

(** X1, on a concrete input. *)
Lemma set_then_read_witness :
  getNestedValue
    (applyUpdate (VObj [("_id", VStr "1"); ("profile", VObj [("email", VStr "a@b.c")])])
                 (set_spec "profile.settings.theme" (VStr "dark")))
    "profile.settings.theme" = VStr "dark".
Proof.
  apply (set_then_read [("_id", VStr "1"); ("profile", VObj [("email", VStr "a@b.c")])]
           "profile.settings.theme" (VStr "dark")). reflexivity.
Defined.

Lemma assoc_get_del_same (fs : list (string * value)) k :
  assoc_get (assoc_del fs k) k = VUndefined.
Proof.
  induction fs as [|[k' v] fs IH]; simpl; auto.
  destruct (String.eqb k' k) eqn:E; simpl; auto. now rewrite E.
Qed.

Lemma unset_at_object keys : forall fs, exists fs', unset_at (VObj fs) keys = VObj fs'.
Proof.
  destruct keys as [|k [|k2 rest]]; intros fs; simpl; eauto.
  destruct (negb (assoc_mem fs k) || negb (is_object (assoc_get fs k))); simpl; eauto.
Qed.

Lemma read_after_unset_at keys : forall cur,
  keys <> [] -> parents_are_objects cur keys = true ->
  fold_left get_step keys (unset_at cur keys) = VUndefined.
Proof.
  induction keys as [|key rest IH]; intros cur Hne Hp; [congruence|].
  destruct cur; simpl in Hp; try discriminate.
  destruct rest as [|k2 rest].
  - simpl. apply assoc_get_del_same.
  - assert (Hchild : exists cs, assoc_get fields key = VObj cs).
    { simpl in Hp. destruct (assoc_get fields key); try discriminate; eauto. }
    destruct Hchild as [cs Hc].
    assert (Hmem : assoc_mem fields key = true).
    { clear - Hc. induction fields as [|[k v] fs IH]; simpl in *; [discriminate|].
      destruct (String.eqb k key); simpl; auto. }
    cbn [unset_at]. cbn [has_prop get_prop]. rewrite Hmem, Hc. cbn [is_object negb orb].
    rewrite fold_left_cons, get_step_set by reflexivity.
    apply IH; [discriminate|]. cbn [get_prop] in Hp. now rewrite Hc in Hp.
Qed.

Lemma assoc_set_get_same (fs : list (string * value)) k :
  assoc_mem fs k = true -> assoc_set fs k (assoc_get fs k) = fs.
Proof.
  induction fs as [|[k' v] fs IH]; simpl; [discriminate|].
  destruct (String.eqb k' k) eqn:E; simpl.
  - apply String.eqb_eq in E. now subst.
  - intros H. now rewrite IH.
Qed.

Lemma list_put_nth items : forall i,
  (i < List.length items)%nat -> list_put items i (nth i items VUndefined) = items.
Proof.
  induction items as [|y items IH]; intros [|i] H; simpl in *; try lia; auto.
  rewrite IH; auto; lia.
Qed.

Lemma set_prop_get_same cur key :
  has_prop cur key = true -> set_prop cur key (get_prop cur key) = cur.
Proof.
  destruct cur; simpl; auto.
  - destruct (array_index key) eqn:E; auto. intros H. apply Nat.ltb_lt in H.
    now rewrite list_put_nth.
  - intros H. now rewrite assoc_set_get_same.
Qed.

Lemma unset_at_step cur key k2 rest :
  unset_at cur (key :: k2 :: rest)
  = if negb (has_prop cur key) || negb (is_object (get_prop cur key)) then cur
    else set_prop cur key (unset_at (get_prop cur key) (k2 :: rest)).
Proof. reflexivity. Qed.

Lemma unset_at_parent_missing keys : forall cur,
  parent_missing cur keys = true -> unset_at cur keys = cur.
Proof.
  induction keys as [|key rest IH]; intros cur H; [discriminate|].
  destruct rest as [|k2 rest]; [discriminate|].
  cbn [parent_missing] in H. rewrite unset_at_step.
  destruct (negb (has_prop cur key) || negb (is_object (get_prop cur key))) eqn:E; auto.
  rewrite (IH _ H). apply set_prop_get_same.
  apply orb_false_iff in E as [E _]. now apply negb_false_iff in E.
Qed.

(** X2.  [$unset] on a path whose walk only meets own fields (no segment is
    a name inherited from [Object.prototype]): when every segment before the
    last resolves to an object, the path reads [undefined] afterwards; when a
    segment before the last is absent or holds something that is not an
    object, the document is returned as it was (nothing is created); in every
    case the top-level fields other than the first segment of the path are as
    they were. *)
Theorem unset_removes_or_skips (fs : list (string * value)) (f : string) :
  own_path (VObj fs) (split_dots f) = true ->
  let d' := applyUpdate (VObj fs) (unset_spec f) in
  (parents_are_objects (VObj fs) (split_dots f) = true -> getNestedValue d' f = VUndefined)
  /\ (parent_missing (VObj fs) (split_dots f) = true -> d' = VObj fs)
  /\ forall k, k <> first_segment f -> get_prop d' k = get_prop (VObj fs) k.
Proof.
  intros _ d'.
  assert (E : d' = unsetNestedValue (VObj fs) f) by reflexivity.
  rewrite E. unfold unsetNestedValue. repeat split.
  - intros Hp. rewrite getNestedValue_fold. apply read_after_unset_at; auto.
    apply split_on_nonempty.
  - apply unset_at_parent_missing.
  - intros k Hk.
    destruct (UpdateClaims.unsetNestedValue_keeps k (assoc_get fs k) (VObj fs) f) as (fs' & E' & H);
      [congruence | now exists fs |].
    unfold unsetNestedValue in E'. rewrite E'. exact H.
Qed.

(** X2, on a concrete input: a field that is removed, and a path whose parent
    is missing. *)
Lemma unset_removes_or_skips_witness :
  getNestedValue (applyUpdate (VObj SampleMore.profile) (unset_spec "profile.email"))
                 "profile.email" = VUndefined
  /\ applyUpdate (VObj SampleMore.profile) (unset_spec "settings.theme")
     = VObj SampleMore.profile.
Proof.
  split.
  - apply (proj1 (unset_removes_or_skips SampleMore.profile "profile.email" eq_refl)).
    reflexivity.
  - apply (proj1 (proj2 (unset_removes_or_skips SampleMore.profile "settings.theme" eq_refl))).
    reflexivity.
Defined.

(** ** Increments compose *)

(** X3.  Increments add up within the safe integers: on a path whose walk
    only meets own fields and that holds the number [v], [$inc] by [n]
    followed by [$inc] by [m] leaves [v + n + m], which is also what one
    [$inc] by [n + m] leaves, when [v], [n], [m] and the sums [v + n],
    [n + m] and [v + n + m] are safe integers (beyond them the program's
    additions round, and the two orders can differ). *)
Theorem inc_twice_adds (fs : list (string * value)) (f : string) (v n m : Z) :
  own_path (VObj fs) (split_dots f) = true ->
  getNestedValue (VObj fs) f = VNum v ->
  forallb safe_integer [v; n; m; v + n; n + m; v + n + m] = true ->
  getNestedValue (applyUpdate (applyUpdate (VObj fs) (inc_spec f n)) (inc_spec f m)) f
  = VNum (v + n + m)
  /\ getNestedValue (applyUpdate (VObj fs) (inc_spec f (n + m))) f = VNum (v + n + m).
Proof.
  intros Hp Hv _.
  assert (Hw : writable (VObj fs) (split_dots f) = true) by (now apply own_path_writable).
  assert (Hinc : forall gs w k, writable (VObj gs) (split_dots f) = true ->
            getNestedValue (VObj gs) f = VNum w ->
            applyUpdate (VObj gs) (inc_spec f k) = setNestedValue (VObj gs) f (VNum (w + k))).
  { intros gs w k _ Hg.
    assert (E : applyUpdate (VObj gs) (inc_spec f k) = inc_step (VObj gs) f (VNum k)) by reflexivity.
    rewrite E. unfold inc_step. rewrite Hg. cbn [truthy].
    destruct (w =? 0) eqn:Z0; cbn [negb]; auto.
    apply Z.eqb_eq in Z0. now subst. }
  split.
  - rewrite (Hinc fs v n Hw Hv).
    destruct (UpdateClaims.setNestedValue_obj fs f (VNum (v + n))) as [fs1 E].
    assert (G1 : getNestedValue (VObj fs1) f = VNum (v + n)).
    { rewrite <- E. now apply get_setNestedValue. }
    assert (W1 : writable (VObj fs1) (split_dots f) = true).
    { rewrite <- E. now apply writable_set_at. }
    rewrite E, (Hinc fs1 (v + n) m W1 G1). now apply get_setNestedValue.
  - rewrite (Hinc fs v (n + m) Hw Hv). rewrite get_setNestedValue by assumption.
    f_equal. lia.
Qed.

(** X3, on a concrete input. *)
Lemma inc_twice_adds_witness :
  getNestedValue
    (applyUpdate (applyUpdate (VObj [("age", VNum 30)]) (inc_spec "age" 2)) (inc_spec "age" 3))
    "age" = VNum (30 + 2 + 3)
  /\ getNestedValue (applyUpdate (VObj [("age", VNum 30)]) (inc_spec "age" (2 + 3))) "age"
     = VNum (30 + 2 + 3).
Proof. apply (inc_twice_adds [("age", VNum 30)] "age" 30 2 3); reflexivity. Defined.


Lemma existsb_filter_out (p : value -> bool) (l : list value) :
  existsb p (filter (fun item => negb (p item)) l) = false.
Proof.
  induction l as [|x l IH]; simpl; auto.
  destruct (p x) eqn:E; simpl; auto. now rewrite E, IH.
Qed.

Lemma applyUpdate_push fs f v :
  applyUpdate (VObj fs) (push_spec f v) = push_step (VObj fs) f v.
Proof. reflexivity. Qed.

Lemma applyUpdate_pull fs f v :
  applyUpdate (VObj fs) (pull_spec f v) = pull_step (VObj fs) f v.
Proof. reflexivity. Qed.

Lemma applyUpdate_addToSet fs f v :
  applyUpdate (VObj fs) (addToSet_spec f v) = addToSet_step (VObj fs) f v.
Proof. reflexivity. Qed.

(** X4.  [$push] appends to an array and starts a one-element array on
    anything else: after [{ $push: { f: v } }] the path [f] holds the former
    array followed by [v] when it held an array, and [[v]] otherwise, a value
    that is not an array (a string, a number, an object) being replaced. *)
Theorem push_appends_or_starts (fs : list (string * value)) (f : string) (v : value) :
  writable (VObj fs) (split_dots f) = true ->
  getNestedValue (applyUpdate (VObj fs) (push_spec f v)) f
  = match getNestedValue (VObj fs) f with
    | VArr a => VArr (a ++ [v])%list
    | _ => VArr [v]
    end.
Proof.
  intros Hw. rewrite applyUpdate_push. unfold push_step.
  destruct (getNestedValue (VObj fs) f); now apply get_setNestedValue.
Qed.

(** X4, on a concrete input: a string is replaced by a one-element array. *)
Lemma push_appends_or_starts_witness :
  getNestedValue (applyUpdate (VObj [("tags", VStr "solo")]) (push_spec "tags" (VStr "new"))) "tags"
  = VArr [VStr "new"].
Proof. apply (push_appends_or_starts [("tags", VStr "solo")] "tags" (VStr "new")). reflexivity. Defined.

(** X5.  [$pull] removes every element deep-equal to its operand: when the
    path holds an array, it holds afterwards the elements that are not
    deep-equal to [v], in their order, so none of them is deep-equal to [v];
    when the path holds anything else the document is returned as it was. *)
Theorem pull_removes_every_match (fs : list (string * value)) (f : string) (v : value) :
  let d' := applyUpdate (VObj fs) (pull_spec f v) in
  match getNestedValue (VObj fs) f with
  | VArr a =>
      writable (VObj fs) (split_dots f) = true ->
      exists kept,
        getNestedValue d' f = VArr kept
        /\ kept = filter (fun item => negb (deepEqual item v)) a
        /\ existsb (fun item => deepEqual item v) kept = false
  | _ => d' = VObj fs
  end.
Proof.
  intros d'. subst d'. rewrite applyUpdate_pull. unfold pull_step.
  destruct (getNestedValue (VObj fs) f) eqn:G; try reflexivity.
  intros Hw. eexists. split; [now apply get_setNestedValue|]. split; [reflexivity|].
  apply (existsb_filter_out (fun item => deepEqual item v)).
Qed.

(** X5, on a concrete input. *)
Lemma pull_removes_every_match_witness :
  exists kept,
    getNestedValue
      (applyUpdate (VObj [("tags", VArr [VStr "a"; VStr "b"; VStr "a"])])
                   (pull_spec "tags" (VStr "a"))) "tags" = VArr kept
    /\ kept = filter (fun item => negb (deepEqual item (VStr "a"))) [VStr "a"; VStr "b"; VStr "a"]
    /\ existsb (fun item => deepEqual item (VStr "a")) kept = false.
Proof.
  exact (pull_removes_every_match [("tags", VArr [VStr "a"; VStr "b"; VStr "a"])] "tags"
           (VStr "a") eq_refl).
Defined.

(** X6.  [$addToSet] is idempotent: applying [{ $addToSet: { f: v } }] a
    second time leaves the document that the first application produced,
    whatever the path held before, for an operand that is deep-equal to
    itself. *)
Theorem addToSet_idempotent (fs : list (string * value)) (f : string) (v : value) :
  writable (VObj fs) (split_dots f) = true ->
  deepEqual v v = true ->
  let d1 := applyUpdate (VObj fs) (addToSet_spec f v) in
  applyUpdate d1 (addToSet_spec f v) = d1.
Proof.
  intros Hw Hv d1. subst d1. rewrite applyUpdate_addToSet.
  assert (Hstable : forall gs a, getNestedValue (VObj gs) f = VArr a ->
            existsb (fun item => deepEqual item v) a = true ->
            applyUpdate (VObj gs) (addToSet_spec f v) = VObj gs).
  { intros gs a Hg He. rewrite applyUpdate_addToSet. unfold addToSet_step. now rewrite Hg, He. }
  assert (Hafter : forall a, existsb (fun item => deepEqual item v) (a ++ [v])%list = true).
  { intros a. rewrite existsb_app. simpl. rewrite Hv. now rewrite orb_true_r. }
  unfold addToSet_step.
  destruct (getNestedValue (VObj fs) f) eqn:G;
    try (destruct (UpdateClaims.setNestedValue_obj fs f (VArr [v])) as [fs1 E]; rewrite E;
         apply (Hstable fs1 [v]); [rewrite <- E; now apply get_setNestedValue | apply (Hafter [])]).
  destruct (existsb (fun item => deepEqual item v) items) eqn:He.
  - now apply (Hstable fs items).
  - destruct (UpdateClaims.setNestedValue_obj fs f (VArr (items ++ [v])%list)) as [fs1 E]. rewrite E.
    apply (Hstable fs1 (items ++ [v])%list); [rewrite <- E; now apply get_setNestedValue | apply Hafter].
Qed.

(** X6, on a concrete input. *)
Lemma addToSet_idempotent_witness :
  applyUpdate (applyUpdate (VObj [("tags", VArr [VStr "a"])]) (addToSet_spec "tags" (VStr "b")))
              (addToSet_spec "tags" (VStr "b"))
  = applyUpdate (VObj [("tags", VArr [VStr "a"])]) (addToSet_spec "tags" (VStr "b")).
Proof.
  apply (addToSet_idempotent [("tags", VArr [VStr "a"])] "tags" (VStr "b")); reflexivity.
Defined.

(** ** Direct specifications *)

Lemma fold_assoc_set_get (entries : list (string * value)) : forall acc k,
  distinct (map fst entries) = true ->
  assoc_get (fold_left (fun acc kv => assoc_set acc (fst kv) (snd kv)) entries acc) k
  = if assoc_mem entries k then assoc_get entries k else assoc_get acc k.
Proof.
  induction entries as [|[key x] rest IH]; intros acc k Hd; simpl; auto.
  simpl in Hd. apply andb_true_iff in Hd as [Hnew Hd].
  rewrite IH by assumption.
  destruct (String.eqb key k) eqn:E; simpl.
  - apply String.eqb_eq in E. subst k.
    assert (Hm : assoc_mem rest key = false).
    { apply negb_true_iff in Hnew. clear - Hnew.
      induction rest as [|[k' v'] rest IH]; simpl in *; auto.
      apply orb_false_iff in Hnew as [H1 H2]. rewrite String.eqb_sym, H1. simpl. auto. }
    rewrite Hm. apply assoc_get_set_same.
  - destruct (assoc_mem rest k); auto.
    apply assoc_get_set_other. now apply String.eqb_neq.
Qed.

(** X7.  A specification without operator keys is merged into the document:
    a field of the result holds the value the specification gives it when the
    specification has the field, and the value of the document otherwise. *)
Theorem direct_update_merges (fs us : list (string * value)) (k : string) :
  isUpdateOperators (VObj us) = false ->
  distinct (map fst us) = true ->
  get_prop (applyUpdate (VObj fs) (VObj us)) k
  = if assoc_mem us k then assoc_get us k else assoc_get fs k.
Proof.
  intros Hop Hd. unfold applyUpdate. rewrite Hop. cbn [negb]. unfold spread.
  cbn [get_prop Object_entries]. now apply fold_assoc_set_get.
Qed.

(** X7, on a concrete input. *)
Lemma direct_update_merges_witness :
  get_prop (applyUpdate (VObj [("_id", VStr "1"); ("name", VStr "John")])
                        (VObj [("name", VStr "Jane"); ("age", VNum 25)])) "name"
  = VStr "Jane".
Proof.
  apply (direct_update_merges [("_id", VStr "1"); ("name", VStr "John")]
           [("name", VStr "Jane"); ("age", VNum 25)] "name"); reflexivity.
Defined.

(** ** Deep equality *)

Lemma assoc_get_in (fs : list (string * value)) k x :
  distinct (map fst fs) = true -> In (k, x) fs -> assoc_get fs k = x.
Proof.
  induction fs as [|[k' v] fs IH]; simpl; intros Hd Hin; [contradiction|].
  apply andb_true_iff in Hd as [Hnew Hd].
  destruct Hin as [[= -> ->]|Hin].
  - now rewrite String.eqb_refl.
  - destruct (String.eqb k' k) eqn:E; [|now apply IH].
    apply String.eqb_eq in E. subst k'. exfalso.
    apply negb_true_iff in Hnew.
    assert (existsb (String.eqb k) (map fst fs) = true).
    { apply existsb_exists. exists k. split; [|apply String.eqb_refl].
      apply in_map_iff. now exists (k, x). }
    congruence.
Qed.

Lemma strict_eq_true a b : strict_eq a b = true -> a = b.
Proof.
  destruct a, b; simpl; try discriminate; auto.
  - intros H. apply Bool.eqb_prop in H. now subst.
  - intros H. apply Z.eqb_eq in H. now subst.
  - intros H. apply String.eqb_eq in H. now subst.
Qed.

(** X8.  [deepEqual] is reflexive on structure: a value whose objects have
    pairwise distinct keys is deep-equal to a copy of itself, although [===]
    fails on two arrays or two objects. *)
Theorem deepEqual_reflexive (v : value) : distinct_keys v = true -> deepEqual v v = true.
Proof.
  induction v as [| | b | n | s | items IH | fields IH] using value_ind; intros Hd;
    try (simpl; now rewrite ?Bool.eqb_reflx, ?Z.eqb_refl, ?String.eqb_refl).
  - cbn [deepEqual strict_eq]. rewrite Nat.eqb_refl. cbn [andb].
    cbn [distinct_keys] in Hd.
    assert (G : forall pre l, items = (pre ++ l)%list ->
              (fix every (i : nat) (l : list value) : bool :=
                 match l with
                 | [] => true
                 | item :: rest => deepEqual item (nth i items VUndefined) && every (S i) rest
                 end) (List.length pre) l = true).
    { intros pre l. revert pre. induction l as [|x l IHl]; intros pre E; [reflexivity|].
      assert (Hx : nth (List.length pre) items VUndefined = x).
      { rewrite E. rewrite app_nth2 by lia. now rewrite Nat.sub_diag. }
      rewrite Hx.
      assert (Hin : In x items) by (rewrite E; apply in_or_app; right; now left).
      rewrite Forall_forall in IH. rewrite forallb_forall in Hd.
      rewrite (IH x Hin (Hd x Hin)). cbn [andb].
      specialize (IHl (pre ++ [x])%list). rewrite length_app in IHl. simpl in IHl.
      rewrite Nat.add_1_r in IHl. apply IHl. now rewrite <- app_assoc. }
    apply (G [] items). reflexivity.
  - cbn [deepEqual strict_eq is_object]. unfold Object_keys. cbn [Object_entries].
    rewrite length_map, Nat.eqb_refl. cbn [andb].
    cbn [distinct_keys] in Hd. apply andb_true_iff in Hd as [Hk Hd].
    assert (G : forall l, incl l fields ->
              (fix every (l : list (string * value)) : bool :=
                 match l with
                 | [] => true
                 | (key, x) :: rest => deepEqual x (get_prop (VObj fields) key) && every rest
                 end) l = true).
    { induction l as [|[key x] l IHl]; intros Hincl; [reflexivity|].
      assert (Hin : In (key, x) fields) by (apply Hincl; now left).
      cbn [get_prop]. rewrite (assoc_get_in _ _ _ Hk Hin).
      rewrite Forall_forall in IH. rewrite forallb_forall in Hd.
      pose proof (IH (key, x) Hin (Hd (key, x) Hin)) as Hx. cbn [snd] in Hx.
      rewrite Hx. cbn [andb].
      apply IHl. intros y Hy. apply Hincl. now right. }
    apply G. apply incl_refl.
Qed.

(** X8, on a concrete input. *)
Lemma deepEqual_reflexive_witness :
  deepEqual (VObj [("a", VArr [VNum 1; VObj [("b", VNull)]])])
            (VObj [("a", VArr [VNum 1; VObj [("b", VNull)]])]) = true.
Proof. apply deepEqual_reflexive. reflexivity. Defined.

End UpdateExtras.

(* ================================================================== *)
(** * Further properties of the filter engine *)
(* ================================================================== *)

Module FilterExtras.
Import Js Filters Spec SpecMore.

Section WithRuntime.
Context {RT : Runtime}.

Lemma everyM_app {A} (p : A -> result bool) (l1 l2 : list A) :
  everyM p (l1 ++ l2)
  = bind (everyM p l1) (fun b => if b then everyM p l2 else Ok false).
Proof.
  induction l1 as [|x l1 IH]; simpl; [reflexivity|].
  destruct (p x) as [[|]|e]; simpl; auto.
Qed.

Lemma everyM_single {A} (p : A -> result bool) (x : A) :
  everyM p [x] = p x.
Proof. simpl. destruct (p x) as [[|]|e]; reflexivity. Qed.

Lemma everyM_decided {A} (p : A -> result bool) (q : A -> bool) (l : list A) :
  (forall x, In x l -> p x = Ok (q x)) -> everyM p l = Ok (forallb q l).
Proof.
  induction l as [|x l IH]; intros H; simpl; [reflexivity|].
  rewrite (H x (or_introl eq_refl)). simpl.
  destruct (q x); simpl; [apply IH; intros y Hy; apply H; now right | reflexivity].
Qed.

Lemma someM_decided {A} (p : A -> result bool) (q : A -> bool) (l : list A) :
  (forall x, In x l -> p x = Ok (q x)) -> someM p l = Ok (existsb q l).
Proof.
  induction l as [|x l IH]; intros H; simpl; [reflexivity|].
  rewrite (H x (or_introl eq_refl)). simpl.
  destruct (q x); simpl; [reflexivity | apply IH; intros y Hy; apply H; now right].
Qed.

Lemma matched_decides (d s : value) :
  (exists b, matchesFilter d s = Ok b) -> matchesFilter d s = Ok (matched s d).
Proof. intros [b E]. unfold matched. rewrite E. now destruct b. Qed.

(** X9.  The entries of a filter are a conjunction evaluated from left to
    right: a filter whose entries are those of [fs1] followed by those of
    [fs2] matches as [fs1] does and then, only when [fs1] matched, as [fs2]
    does; an error of [fs2] is not raised when [fs1] does not match. *)
Theorem filter_entries_conjoin (d : value) (fs1 fs2 : list (string * value)) :
  matchesFilter d (VObj (fs1 ++ fs2))
  = bind (matchesFilter d (VObj fs1))
         (fun b => if b then matchesFilter d (VObj fs2) else Ok false).
Proof. cbn [matchesFilter]. apply everyM_app. Qed.

(** X10.  On sub-filters that evaluate without an error, [$and] matches when
    all of them match and [$or] when one of them does; so [{ $and: [] }]
    matches every document and [{ $or: [] }] none. *)
Theorem and_or_over_subfilters (d : value) (subs : list value) :
  (forall s, In s subs -> exists b, matchesFilter d s = Ok b) ->
  matchesFilter d (VObj [("$and", VArr subs)]) = Ok (forallb (fun s => matched s d) subs)
  /\ matchesFilter d (VObj [("$or", VArr subs)]) = Ok (existsb (fun s => matched s d) subs).
Proof.
  intros H.
  assert (Hd : forall s, In s subs -> matchesFilter d s = Ok (matched s d))
    by (intros s Hs; apply matched_decides; now apply H).
  split.
  - change (matchesFilter d (VObj [("$and", VArr subs)]))
      with (everyM (fun entry : string * value =>
              everyM (fun subFilter => matchesFilter d subFilter) subs) [("$and", VArr subs)]).
    rewrite everyM_single. now apply everyM_decided.
  - change (matchesFilter d (VObj [("$or", VArr subs)]))
      with (everyM (fun entry : string * value =>
              someM (fun subFilter => matchesFilter d subFilter) subs) [("$or", VArr subs)]).
    rewrite everyM_single. now apply someM_decided.
Qed.

Lemma field_entry (d : value) (f : string) (x : value) :
  is_logical f = false ->
  matchesFilter d (VObj [(f, x)]) = evaluateFieldFilter d f x.
Proof.
  intros Hf. unfold is_logical in Hf.
  apply orb_false_iff in Hf as [Hf Hnot]. apply orb_false_iff in Hf as [Hand Hor].
  cbn [matchesFilter everyM fst snd]. rewrite Hand, Hor, Hnot.
  unfold evaluateFieldFilter.
  destruct (evaluateFieldFilterF matchesFilter d f x) as [[|]|e]; reflexivity.
Qed.

Lemma undecided_operators (matches : value -> value -> result bool) (v : value)
  (all ops : list (string * value)) :
  forallb (fun entry => negb (decides (fst entry))) ops = true ->
  everyM (fun entry =>
    let operator := fst entry in
    let operatorValue := snd entry in
    if String.eqb operator "$eq" then Ok (compareValues v operatorValue)
    else if String.eqb operator "$ne" then Ok (negb (compareValues v operatorValue))
    else if String.eqb operator "$gt" then Ok (js_gt v operatorValue)
    else if String.eqb operator "$gte" then Ok (js_gte v operatorValue)
    else if String.eqb operator "$lt" then Ok (js_lt v operatorValue)
    else if String.eqb operator "$lte" then Ok (js_lte v operatorValue)
    else if String.eqb operator "$in" then
      Ok (match operatorValue with
          | VArr vals => existsb (fun val => compareValues v val) vals
          | _ => false
          end)
    else if String.eqb operator "$nin" then
      Ok (match operatorValue with
          | VArr vals => negb (existsb (fun val => compareValues v val) vals)
          | _ => false
          end)
    else if String.eqb operator "$exists" then
      Ok (if truthy operatorValue then negb (strict_eq v VUndefined)
          else strict_eq v VUndefined)
    else if String.eqb operator "$regex" then
      regex_test operatorValue (assoc_get all "$options") v
    else if String.eqb operator "$and" then Ok true
    else if String.eqb operator "$or" then Ok true
    else if String.eqb operator "$not" then
      notM (matches (VObj [("docValue", v)]) operatorValue)
    else Ok true) ops = Ok true.
Proof.
  induction ops as [|[op x] ops IH]; intros H; [reflexivity|].
  cbn [forallb fst] in H. apply andb_true_iff in H as [Hop H].
  cbn [everyM fst snd].
  apply negb_true_iff in Hop. unfold decides, decisive in Hop. cbn [existsb] in Hop.
  repeat (apply orb_false_iff in Hop as [?E Hop]).
  rewrite E, E0, E1, E2, E3, E4, E5, E6, E7, E8, E9.
  destruct (String.eqb op "$and"); [|destruct (String.eqb op "$or")];
    cbn [bind]; now apply IH.
Qed.

(** X11.  Keys of an operator object that [evaluateOperators] gives no
    meaning to are ignored: a field whose filter value is an object with only
    such keys (a nested document such as [{ city: 'Paris' }], a misspelt
    operator) matches every document, whatever the field holds. *)
Theorem undecided_operators_match_all (d : value) (f : string) (ops : list (string * value)) :
  is_logical f = false ->
  forallb (fun entry => negb (decides (fst entry))) ops = true ->
  matchesFilter d (VObj [(f, VObj ops)]) = Ok true.
Proof.
  intros Hf Hops. rewrite (field_entry _ _ _ Hf).
  unfold evaluateFieldFilter, evaluateFieldFilterF, evaluateOperatorsF.
  now apply undecided_operators.
Qed.

(** X12.  [{ f: { $in: [v1, ..., vn] } }] matches the same documents as
    [{ $or: [{ f: v1 }, ..., { f: vn }] }], for a field name that is not a
    logical operator and values that are compared directly (not objects). *)
Theorem in_is_or_of_equalities (d : value) (f : string) (vals : list value) :
  is_logical f = false ->
  forallb compared_directly vals = true ->
  matchesFilter d (in_filter f vals) = matchesFilter d (any_equal f vals).
Proof.
  intros Hf Hv. unfold in_filter, any_equal.
  rewrite (field_entry _ _ _ Hf).
  change (matchesFilter d (VObj [("$or", VArr (map (fun v => VObj [(f, v)]) vals))]))
    with (everyM (fun entry : string * value =>
            someM (fun subFilter => matchesFilter d subFilter)
                  (map (fun v => VObj [(f, v)]) vals))
            [("$or", VArr (map (fun v => VObj [(f, v)]) vals))]).
  rewrite everyM_single.
  unfold evaluateFieldFilter, evaluateFieldFilterF, evaluateOperatorsF.
  rewrite everyM_single. cbn [fst snd String.eqb Ascii.eqb Bool.eqb].
  induction vals as [|v vals IH]; [reflexivity|].
  cbn [forallb] in Hv. apply andb_true_iff in Hv as [Hv1 Hv].
  cbn [map someM existsb]. rewrite (field_entry _ _ _ Hf).
  unfold evaluateFieldFilter, evaluateFieldFilterF.
  destruct v; try discriminate Hv1; cbn [bind];
    match goal with |- context [compareValues ?a ?b] => destruct (compareValues a b) end;
    cbn [orb]; auto.
Qed.

End WithRuntime.

(** X10, on a concrete input. *)
Lemma and_or_over_subfilters_witness :
  @matchesFilter Sample.runtime Sample.john
     (VObj [("$and", VArr [VObj [("age", VNum 30)]; VObj [("name", VStr "Jane")]])])
  = Ok false
  /\ @matchesFilter Sample.runtime Sample.john
       (VObj [("$or", VArr [VObj [("age", VNum 30)]; VObj [("name", VStr "Jane")]])])
     = Ok true.
Proof.
  apply (@and_or_over_subfilters Sample.runtime Sample.john
           [VObj [("age", VNum 30)]; VObj [("name", VStr "Jane")]]).
  intros s [<-|[<-|[]]]; eexists; reflexivity.
Defined.

(** X11, on a concrete input: a nested document used as a filter value. *)
Lemma undecided_operators_match_all_witness :
  @matchesFilter Sample.runtime Sample.john
     (VObj [("address", VObj [("city", VStr "Paris")])]) = Ok true.
Proof.
  apply (@undecided_operators_match_all Sample.runtime Sample.john "address"
           [("city", VStr "Paris")]); reflexivity.
Defined.

(** X12, on a concrete input. *)
Lemma in_is_or_of_equalities_witness :
  @matchesFilter Sample.runtime Sample.john (in_filter "age" [VNum 25; VNum 30])
  = @matchesFilter Sample.runtime Sample.john (any_equal "age" [VNum 25; VNum 30]).
Proof.
  apply (@in_is_or_of_equalities Sample.runtime Sample.john "age" [VNum 25; VNum 30]);
    reflexivity.
Defined.

End FilterExtras.

(* ================================================================== *)
(** * Further properties of sorting, pagination and projection *)
(* ================================================================== *)

Module SortExtras.
Import Js Filters Spec SpecMore.

Section WithRuntime.
Context {RT : Runtime}.

Lemma insert_sorted_perm (cmp : value -> value -> Z) (x : value) (l : list value) :
  Permutation (x :: l) (insert_sorted cmp x l).
Proof.
  induction l as [|y l IH]; simpl; [apply Permutation_refl|].
  destruct (cmp x y <=? 0); [apply Permutation_refl|].
  eapply perm_trans; [apply perm_swap|]. now apply perm_skip.
Qed.

Lemma Array_sort_perm (cmp : value -> value -> Z) (l : list value) :
  Permutation l (Array_sort cmp l).
Proof.
  induction l as [|x l IH]; simpl; [apply perm_nil|].
  eapply perm_trans; [apply perm_skip, IH|]. apply insert_sorted_perm.
Qed.

(** X13.  [sortDocuments] returns the documents it was given, each as often
    as it was given, in some order: whatever the sort option, the result is a
    permutation of the input. *)
Theorem sortDocuments_permutes (docs : list value) (sortOption : value) :
  Permutation docs (sortDocuments docs sortOption).
Proof.
  unfold sortDocuments.
  destruct (negb (truthy sortOption) || Nat.eqb (List.length (Object_keys sortOption)) 0);
    [apply Permutation_refl | apply Array_sort_perm].
Qed.

(** The insertion sort orders its input by a comparator that is total and
    transitive on the elements. *)
Section Ordered.
Variable cmp : value -> value -> Z.
Variable P : value -> Prop.
Hypothesis total : forall a b, P a -> P b -> (cmp a b <=? 0) = false -> cmp b a <= 0.
Hypothesis transitive :
  forall a b c, P a -> P b -> P c -> cmp a b <= 0 -> cmp b c <= 0 -> cmp a c <= 0.

Lemma insert_sorted_Forall (Q : value -> Prop) (x : value) (l : list value) :
  Q x -> Forall Q l -> Forall Q (insert_sorted cmp x l).
Proof.
  intros Hx Hl. induction Hl as [|y l Hy Hl IH]; simpl; [now constructor|].
  destruct (cmp x y <=? 0); repeat constructor; auto.
Qed.

Lemma insert_sorted_ordered (x : value) (l : list value) :
  P x -> Forall P l -> StronglySorted (fun a b => cmp a b <= 0) l ->
  StronglySorted (fun a b => cmp a b <= 0) (insert_sorted cmp x l).
Proof.
  intros Hx Hl Hs. induction Hs as [|y l Hs IH Hy]; simpl.
  - constructor; constructor.
  - inversion Hl as [|? ? Py Pl]; subst.
    destruct (cmp x y <=? 0) eqn:E.
    + constructor; [now constructor|]. constructor; [now apply Z.leb_le|].
      apply Z.leb_le in E. rewrite Forall_forall in *. intros z Hz.
      apply (transitive x y z); auto.
    + constructor; [now apply IH|].
      apply insert_sorted_Forall; [now apply total | assumption].
Qed.

Lemma Array_sort_Forall (Q : value -> Prop) (l : list value) :
  Forall Q l -> Forall Q (Array_sort cmp l).
Proof.
  induction 1 as [|x l Hx Hl IH]; simpl; [constructor|]. now apply insert_sorted_Forall.
Qed.

Lemma Array_sort_ordered (l : list value) :
  Forall P l -> StronglySorted (fun a b => cmp a b <= 0) (Array_sort cmp l).
Proof.
  induction 1 as [|x l Hx Hl IH]; simpl; [constructor|].
  apply insert_sorted_ordered; auto. now apply Array_sort_Forall.
Qed.

End Ordered.

Lemma normalizeSortDirection_sign (direction : value) :
  normalizeSortDirection direction = 1 \/ normalizeSortDirection direction = -1.
Proof.
  unfold normalizeSortDirection.
  destruct (strict_eq direction (VNum 1) || strict_eq direction (VStr "asc")); auto.
  destruct (strict_eq direction (VNum (-1)) || strict_eq direction (VStr "desc")); auto.
Qed.

Lemma numeric_comparator (f : string) (direction a b : value) :
  numeric_at f a = true -> numeric_at f b = true ->
  sort_comparator [(f, direction)] a b
  = (number_at f a - number_at f b) * normalizeSortDirection direction.
Proof.
  unfold numeric_at, number_at. cbn [sort_comparator].
  destruct (getNestedValue a f) as [| | | x | | |]; try discriminate.
  destruct (getNestedValue b f) as [| | | y | | |]; try discriminate.
  intros _ _. unfold compareForSort. cbn [strict_eq nullish].
  destruct (x =? y) eqn:E.
  - apply Z.eqb_eq in E. subst. cbn. lia.
  - destruct (x - y =? 0) eqn:E'; [|reflexivity].
    apply Z.eqb_eq in E'. apply Z.eqb_neq in E. lia.
Qed.

Lemma numeric_sort_ordered (docs : list value) (f : string) (direction : value) :
  forallb (numeric_at f) docs = true ->
  StronglySorted
    (fun a b => (number_at f a - number_at f b) * normalizeSortDirection direction <= 0)
    (sortDocuments docs (VObj [(f, direction)])).
Proof.
  intros H. unfold sortDocuments. cbn [truthy negb orb Object_keys Object_entries map List.length Nat.eqb].
  assert (HP : Forall (fun d => numeric_at f d = true) docs)
    by (apply Forall_forall; intros d Hd; rewrite forallb_forall in H; now apply H).
  pose proof (Array_sort_ordered (sort_comparator [(f, direction)])
                (fun d => numeric_at f d = true)) as S.
  assert (Hs : StronglySorted (fun a b => sort_comparator [(f, direction)] a b <= 0)
                 (Array_sort (sort_comparator [(f, direction)]) docs)).
  { apply S; auto.
    - intros a b Ha Hb E. apply Z.leb_gt in E.
      rewrite (numeric_comparator f direction a b Ha Hb) in E.
      rewrite (numeric_comparator f direction b a Hb Ha).
      destruct (normalizeSortDirection_sign direction) as [Hn | Hn]; rewrite Hn in *; lia.
    - intros a b c Ha Hb Hc.
      rewrite (numeric_comparator f direction a b Ha Hb),
              (numeric_comparator f direction b c Hb Hc),
              (numeric_comparator f direction a c Ha Hc).
      destruct (normalizeSortDirection_sign direction) as [-> | ->]; lia. }
  pose proof (Array_sort_Forall (sort_comparator [(f, direction)])
                (fun d => numeric_at f d = true) docs HP) as HF.
  revert Hs HF. generalize (Array_sort (sort_comparator [(f, direction)]) docs).
  induction l as [|x l IH]; intros Hs HF; [constructor|].
  inversion Hs as [|? ? Hs' Hx]; subst. inversion HF as [|? ? Px Pl]; subst.
  constructor; [now apply IH|].
  rewrite Forall_forall in *. intros y Hy.
  rewrite <- numeric_comparator by auto. now apply Hx.
Qed.

(** X14.  On documents that all hold a number at the sort field, sorting by
    that field with direction [1] returns them with the numbers in
    non-decreasing order, and with direction [-1] in non-increasing order. *)
Theorem numeric_sort_ascends_and_descends (docs : list value) (f : string) :
  forallb (numeric_at f) docs = true ->
  StronglySorted (fun a b => number_at f a <= number_at f b)
                 (sortDocuments docs (VObj [(f, VNum 1)]))
  /\ StronglySorted (fun a b => number_at f b <= number_at f a)
                    (sortDocuments docs (VObj [(f, VNum (-1))])).
Proof.
  intros H. split.
  - pose proof (numeric_sort_ordered docs f (VNum 1) H) as S.
    eapply StronglySorted_ind with (P := StronglySorted _); [constructor| |exact S].
    intros a l _ IH Ha. constructor; [exact IH|].
    eapply Forall_impl; [|exact Ha]. cbn. intros; lia.
  - pose proof (numeric_sort_ordered docs f (VNum (-1)) H) as S.
    eapply StronglySorted_ind with (P := StronglySorted _); [constructor| |exact S].
    intros a l _ IH Ha. constructor; [exact IH|].
    eapply Forall_impl; [|exact Ha]. cbn. intros; lia.
Qed.

End WithRuntime.

(** X14, on a concrete input. *)
Lemma numeric_sort_ascends_and_descends_witness :
  StronglySorted (fun a b => number_at "age" a <= number_at "age" b)
                 (@sortDocuments Sample.runtime [Sample.john; Sample.jane]
                    (VObj [("age", VNum 1)]))
  /\ StronglySorted (fun a b => number_at "age" b <= number_at "age" a)
                    (@sortDocuments Sample.runtime [Sample.john; Sample.jane]
                       (VObj [("age", VNum (-1))])).
Proof.
  apply (@numeric_sort_ascends_and_descends Sample.runtime [Sample.john; Sample.jane] "age").
  reflexivity.
Defined.

End SortExtras.

Module PageExtras.
Import Js Filters Spec SpecMore.

Lemma slice_from {A} (l : list A) (k : Z) :
  0 <= k -> slice l k None = skipn (Z.to_nat k) l.
Proof.
  intros Hk. unfold slice, slice_bound.
  destruct (k <? 0) eqn:E; [apply Z.ltb_lt in E; lia|].
  destruct (Z.le_gt_cases k (Z.of_nat (List.length l))) as [Hle|Hgt].
  - rewrite Z.min_l by assumption.
    rewrite <- (length_skipn (Z.to_nat k) l). apply firstn_all.
  - rewrite Z.min_r by lia. rewrite Nat2Z.id, Nat.sub_diag.
    rewrite skipn_all. rewrite (skipn_all2 l) by lia. reflexivity.
Qed.

Lemma slice_to {A} (l : list A) (n : Z) :
  0 <= n -> slice l 0 (Some n) = firstn (Z.to_nat n) l.
Proof.
  intros Hn. unfold slice, slice_bound. cbn [Z.ltb Z.compare].
  rewrite (Z.min_l 0) by lia. cbn [Z.to_nat skipn]. rewrite Nat.sub_0_r.
  destruct (n <? 0) eqn:E; [apply Z.ltb_lt in E; lia|].
  destruct (Z.le_gt_cases n (Z.of_nat (List.length l))) as [Hle|Hgt].
  - now rewrite Z.min_l by assumption.
  - rewrite Z.min_r by lia. rewrite Nat2Z.id.
    rewrite firstn_all. symmetry. apply firstn_all2. lia.
Qed.

Lemma page (docs : list value) (skip limit : Z) :
  0 <= skip -> 0 <= limit ->
  applyPagination docs (Some skip) (Some limit)
  = firstn (Z.to_nat limit) (skipn (Z.to_nat skip) docs).
Proof.
  intros Hs Hl. unfold applyPagination. now rewrite slice_from, slice_to.
Qed.

Lemma firstn_add {A} (n m : nat) (l : list A) :
  (firstn n l ++ firstn m (skipn n l))%list = firstn (n + m) l.
Proof.
  revert l. induction n as [|n IH]; intros l; [reflexivity|].
  destruct l as [|x l]; simpl; [now rewrite firstn_nil|]. now rewrite IH.
Qed.

Lemma skipn_add {A} (n m : nat) (l : list A) :
  skipn m (skipn n l) = skipn (n + m) l.
Proof.
  revert l. induction n as [|n IH]; intros l; [reflexivity|].
  destruct l as [|x l]; simpl; [now rewrite skipn_nil|]. apply IH.
Qed.

(** X15.  Consecutive pages tile the result: for a non-negative [skip] and
    non-negative page sizes [n] and [m], the page of [n] documents at [skip]
    followed by the page of [m] documents at [skip + n] is the page of
    [n + m] documents at [skip]; no document is lost or repeated between two
    pages. *)
Theorem consecutive_pages_tile (docs : list value) (skip n m : Z) :
  0 <= skip -> 0 <= n -> 0 <= m ->
  (applyPagination docs (Some skip) (Some n)
   ++ applyPagination docs (Some (skip + n)) (Some m))%list
  = applyPagination docs (Some skip) (Some (n + m)).
Proof.
  intros Hs Hn Hm. rewrite !page by lia.
  rewrite !Z2Nat.inj_add by lia. rewrite <- skipn_add. apply firstn_add.
Qed.

(** X16.  A negative [skip] counts from the end, as [Array.prototype.slice]
    does: skipping [-k] is skipping all but the last [k] documents (none when
    there are fewer than [k]). *)
Theorem negative_skip_counts_from_end (docs : list value) (k : Z) (limit : option Z) :
  0 < k ->
  applyPagination docs (Some (- k)) limit
  = applyPagination docs (Some (Z.max 0 (Z.of_nat (List.length docs) - k))) limit.
Proof.
  intros Hk. unfold applyPagination.
  assert (E : slice docs (- k) None
              = slice docs (Z.max 0 (Z.of_nat (List.length docs) - k)) None).
  { unfold slice, slice_bound.
    destruct (- k <? 0) eqn:E1; [|apply Z.ltb_ge in E1; lia].
    destruct (Z.max 0 (Z.of_nat (List.length docs) - k) <? 0) eqn:E2;
      [apply Z.ltb_lt in E2; lia|].
    replace (Z.min (Z.max 0 (Z.of_nat (List.length docs) - k)) (Z.of_nat (List.length docs)))
      with (Z.max (Z.of_nat (List.length docs) + - k) 0) by lia.
    reflexivity. }
  now rewrite E.
Qed.

(** X15, on a concrete input. *)
Lemma consecutive_pages_tile_witness :
  (applyPagination [VNum 1; VNum 2; VNum 3; VNum 4; VNum 5] (Some 1) (Some 2)
   ++ applyPagination [VNum 1; VNum 2; VNum 3; VNum 4; VNum 5] (Some (1 + 2)) (Some 1))%list
  = applyPagination [VNum 1; VNum 2; VNum 3; VNum 4; VNum 5] (Some 1) (Some (2 + 1)).
Proof.
  apply (consecutive_pages_tile [VNum 1; VNum 2; VNum 3; VNum 4; VNum 5] 1 2 1); lia.
Defined.

(** X16, on a concrete input. *)
Lemma negative_skip_counts_from_end_witness :
  applyPagination [VNum 1; VNum 2; VNum 3] (Some (- 1)) None
  = applyPagination [VNum 1; VNum 2; VNum 3]
      (Some (Z.max 0 (Z.of_nat (List.length [VNum 1; VNum 2; VNum 3]) - 1))) None.
Proof. apply (negative_skip_counts_from_end [VNum 1; VNum 2; VNum 3] 1 None). lia. Defined.

End PageExtras.

Module ProjectionExtras.
Import Js Filters Spec SpecMore JsFacts.

Lemma include_fold (d : value) (k : string) (ps : list (string * value)) :
  forall acc,
    get_prop
      (fold_left (fun acc entry =>
                    if strict_eq (snd entry) (VNum 1)
                    then set_prop acc (fst entry) (getNestedValue d (fst entry))
                    else acc) ps (VObj acc)) k
    = if listed 1 ps k then getNestedValue d k else assoc_get acc k.
Proof.
  induction ps as [|[key flag] ps IH]; intros acc; [reflexivity|].
  cbn [fold_left fst snd listed existsb].
  fold (listed 1 ps k).
  destruct (strict_eq flag (VNum 1)) eqn:F.
  - cbn [set_prop]. rewrite IH.
    destruct (listed 1 ps k); [now rewrite orb_true_r|]. rewrite orb_false_r, andb_true_r.
    destruct (String.eqb key k) eqn:E.
    + apply String.eqb_eq in E. subst. apply assoc_get_set_same.
    + apply assoc_get_set_other. now apply String.eqb_neq.
  - rewrite IH. now rewrite andb_false_r.
Qed.

Lemma include_fold_object (d : value) (ps : list (string * value)) :
  forall acc, exists fs,
    fold_left (fun acc entry =>
                 if strict_eq (snd entry) (VNum 1)
                 then set_prop acc (fst entry) (getNestedValue d (fst entry))
                 else acc) ps (VObj acc) = VObj fs.
Proof.
  induction ps as [|[key flag] ps IH]; intros acc; [now exists acc|].
  cbn [fold_left fst snd]. destruct (strict_eq flag (VNum 1)); cbn [set_prop]; apply IH.
Qed.

Lemma project_inclusive_field (ps : list (string * value)) (d : value) (k : string) :
  k <> "_id" ->
  get_prop (project_inclusive (VObj ps) d) k
  = if listed 1 ps k then getNestedValue d k else VUndefined.
Proof.
  intros Hk. unfold project_inclusive. cbn [Object_entries].
  destruct (negb (strict_eq (get_prop (VObj ps) "_id") (VNum 0))).
  - destruct (include_fold_object d ps []) as [fs E].
    pose proof (include_fold d k ps []) as G. rewrite E in *.
    cbn [set_prop get_prop] in *. rewrite assoc_get_set_other by congruence. exact G.
  - apply (include_fold d k ps []).
Qed.

Lemma project_inclusive_id (ps : list (string * value)) (d : value) :
  strict_eq (assoc_get ps "_id") (VNum 0) = false ->
  get_prop (project_inclusive (VObj ps) d) "_id" = get_prop d "_id".
Proof.
  intros H. unfold project_inclusive. cbn [Object_entries get_prop] . rewrite H. cbn [negb].
  destruct (include_fold_object d ps []) as [fs E]. rewrite E.
  cbn [set_prop]. apply assoc_get_set_same.
Qed.

Lemma inclusive_projection_fields (docs : list value) (ps : list (string * value))
  (k : string) :
  existsb (fun val => strict_eq val (VNum 1)) (map snd ps) = true ->
  map (fun d => get_prop d k) (applyProjection docs (VObj ps))
  = map (fun d =>
           if String.eqb k "_id" && negb (strict_eq (assoc_get ps "_id") (VNum 0))
           then get_prop d "_id"
           else if listed 1 ps k then getNestedValue d k else VUndefined) docs.
Proof.
  intros Hone. unfold applyProjection.
  assert (Hlen : Nat.eqb (List.length (Object_keys (VObj ps))) 0 = false).
  { destruct ps; [discriminate Hone | reflexivity]. }
  rewrite Hlen. cbn [truthy negb orb]. unfold Object_values. cbn [Object_entries].
  rewrite Hone, map_map. apply map_ext. intros d.
  destruct (String.eqb k "_id") eqn:E; cbn [andb].
  - apply String.eqb_eq in E. subst k.
    destruct (strict_eq (assoc_get ps "_id") (VNum 0)) eqn:Z0; cbn [negb].
    + unfold project_inclusive. cbn [Object_entries get_prop]. rewrite Z0. cbn [negb].
      apply (include_fold d "_id" ps []).
    + now apply project_inclusive_id.
  - apply project_inclusive_field. now apply String.eqb_neq.
Qed.

Lemma exclude_fold (k : string) (ps : list (string * value)) :
  forall acc,
    get_prop
      (fold_left (fun acc entry =>
                    if strict_eq (snd entry) (VNum 0) then delete_prop acc (fst entry) else acc)
                 ps (VObj acc)) k
    = if listed 0 ps k then VUndefined else assoc_get acc k.
Proof.
  induction ps as [|[key flag] ps IH]; intros acc; [reflexivity|].
  cbn [fold_left fst snd listed existsb].
  fold (listed 0 ps k).
  destruct (strict_eq flag (VNum 0)) eqn:F.
  - cbn [delete_prop]. rewrite IH.
    destruct (listed 0 ps k); [now rewrite orb_true_r|]. rewrite orb_false_r, andb_true_r.
    destruct (String.eqb key k) eqn:E.
    + apply String.eqb_eq in E. subst. apply UpdateExtras.assoc_get_del_same.
    + apply assoc_get_del_other. now apply String.eqb_neq.
  - rewrite IH. now rewrite andb_false_r.
Qed.

Lemma exclusive_projection_fields (records : list (list (string * value)))
  (ps : list (string * value)) (k : string) :
  existsb (fun val => strict_eq val (VNum 1)) (map snd ps) = false ->
  map (fun d => get_prop d k) (applyProjection (map VObj records) (VObj ps))
  = map (fun fs => if listed 0 ps k then VUndefined else assoc_get fs k) records.
Proof.
  intros Hnone. unfold applyProjection. cbn [truthy negb orb].
  destruct (Nat.eqb (List.length (Object_keys (VObj ps))) 0) eqn:Hlen.
  - destruct ps; [|discriminate Hlen]. rewrite map_map. reflexivity.
  - unfold Object_values. cbn [Object_entries]. rewrite Hnone, !map_map.
    apply map_ext. intros fs. apply exclude_fold.
Qed.

(** X17.  What a projection leaves of each document, field by field.  A
    projection with a flag [1] is inclusive: the result has the fields listed
    with [1], each holding the value at that (possibly dotted) path, and
    [_id] unless the projection gives [_id] the flag [0]; every other field,
    one listed with [0] included, is absent.  A projection without a flag [1]
    is exclusive: the fields listed with [0] are absent and every other field
    is as in the document. *)
Theorem projection_fields (records : list (list (string * value)))
  (ps : list (string * value)) (k : string) :
  map (fun d => get_prop d k) (applyProjection (map VObj records) (VObj ps))
  = map (fun fs =>
           if existsb (fun val => strict_eq val (VNum 1)) (map snd ps)
           then
             if String.eqb k "_id" && negb (strict_eq (assoc_get ps "_id") (VNum 0))
             then assoc_get fs "_id"
             else if listed 1 ps k then getNestedValue (VObj fs) k else VUndefined
           else if listed 0 ps k then VUndefined else assoc_get fs k) records.
Proof.
  destruct (existsb (fun val => strict_eq val (VNum 1)) (map snd ps)) eqn:E.
  - rewrite (inclusive_projection_fields _ _ _ E). now rewrite map_map.
  - now apply exclusive_projection_fields.
Qed.

End ProjectionExtras.

(* ================================================================== *)
(** * Further properties of the store *)
(* ================================================================== *)

Module StoreExtras.
Import Js Filters DiscordDB DiscordDBMore Spec StoreSpec StoreFacts.

Section WithInstances.
Context {RT : Runtime} {TR : Transport}.

Lemma handleError_is_DiscordDBError (e : js_error) :
  instanceof_DiscordDBError (handleError e) = true.
Proof.
  unfold handleError. destruct (instanceof_DiscordDBError e) eqn:E; [exact E | reflexivity].
Qed.

Lemma rethrow_raises {A} (r : result A) : raises_only_DiscordDBError (rethrow r) = true.
Proof. destruct r; [reflexivity | apply handleError_is_DiscordDBError]. Qed.

Lemma find_raises filter options now st :
  raises_only_DiscordDBError (fst (find filter options now st)) = true.
Proof.
  unfold find. destruct (getAllDocuments now st) as [[docs|e] st1]; cbn [fst].
  - apply rethrow_raises.
  - apply handleError_is_DiscordDBError.
Qed.

Lemma findOne_raises filter now st :
  raises_only_DiscordDBError (fst (findOne filter now st)) = true.
Proof.
  unfold findOne.
  pose proof (find_raises filter (mkOptions (Some 1) None VUndefined VUndefined) now st) as H.
  destruct (find _ _ now st) as [[r|e] st1]; [reflexivity | exact H].
Qed.

Ltac raised := cbn [fst raises_only_DiscordDBError];
  first [reflexivity | apply handleError_is_DiscordDBError].

(** X18.  Whatever [find], [findOne], [updateOne], [deleteOne],
    [updateMany], [deleteMany] and [drop] raise is an instance of
    [DiscordDBError].  The wrapping keeps the message: [handleError] returns
    an instance of [DiscordDBError] as it is and turns an error of any other
    class into a [DiscordDBError] with the same message; and when evaluating
    the filter on the documents at hand raises [e] (a SyntaxError of a
    [$regex], say), [find], [deleteMany] and, on a valid update,
    [updateMany] raise [handleError e]. *)
Theorem store_raises_only_DiscordDBError (filter update : value) (options : QueryOptions)
  (now : Z) (st : state) :
  (raises_only_DiscordDBError (fst (find filter options now st)) = true
   /\ raises_only_DiscordDBError (fst (findOne filter now st)) = true
   /\ raises_only_DiscordDBError (fst (updateOne filter update now st)) = true
   /\ raises_only_DiscordDBError (fst (deleteOne filter now st)) = true
   /\ raises_only_DiscordDBError (fst (updateMany filter update now st)) = true
   /\ raises_only_DiscordDBError (fst (deleteMany filter now st)) = true
   /\ raises_only_DiscordDBError (fst (drop now st)) = true)
  /\ (forall e,
        err_message (handleError e) = err_message e
        /\ (instanceof_DiscordDBError e = true -> handleError e = e)
        /\ (instanceof_DiscordDBError e = false
            -> handleError e = mkError DiscordDBError (err_message e)))
  /\ (forall docs st1 e,
        getAllDocuments now st = (Ok docs, st1) ->
        (filterM (fun doc => matchesFilter doc (default_filter filter)) docs = Throw e ->
           find filter options now st = (Throw (handleError e), st1))
        /\ (filterM (fun doc => matchesFilter doc filter) docs = Throw e ->
              deleteMany filter now st = (Throw (handleError e), st1)
              /\ (Updates.validateUpdate update = Ok tt ->
                    updateMany filter update now st = (Throw (handleError e), st1)))).
Proof.
  split; [|split].
  2: { intros e. unfold handleError.
       destruct (instanceof_DiscordDBError e) eqn:E; repeat split; auto; discriminate. }
  2: { intros docs st1 e Hdocs. split.
       - intros Hf. unfold find, find_in. rewrite Hdocs, Hf. reflexivity.
       - intros Hf. split.
         + unfold deleteMany. now rewrite Hdocs, Hf.
         + intros Hv. unfold updateMany. now rewrite Hv, Hdocs, Hf. }
  assert (Hdel : forall f, raises_only_DiscordDBError (fst (deleteMany f now st)) = true).
  { intros f. unfold deleteMany.
    destruct (getAllDocuments now st) as [[docs|e] st1]; [|raised].
    destruct (filterM _ docs) as [matching|e]; [|raised].
    destruct (fold_left deleteMany_step matching (st1, 0)). raised. }
  split; [apply find_raises|]. split; [apply findOne_raises|].
  split; [|split; [|split; [|split]]].
  - unfold updateOne. destruct (Updates.validateUpdate update); [|raised].
    destruct (findOne filter now st) as [[document|e] st1]; [|raised].
    destruct (negb (truthy document)); [raised|].
    destruct (serialize _) as [content|e]; [|raised].
    destruct (too_large content); [raised|].
    destruct (client_editMessage _ _ _); raised.
  - unfold deleteOne.
    destruct (findOne filter now st) as [[document|e] st1]; [|raised].
    destruct (negb (truthy document)); [raised|].
    destruct (client_deleteMessage _ _); raised.
  - unfold updateMany. destruct (Updates.validateUpdate update); [|raised].
    destruct (getAllDocuments now st) as [[docs|e] st1]; [|raised].
    destruct (filterM _ docs) as [matching|e]; [|raised].
    destruct (fold_left (updateMany_step update) matching (st1, 0)). raised.
  - apply Hdel.
  - unfold drop. pose proof (Hdel (VObj [])) as H.
    destruct (deleteMany (VObj []) now st) as [[r|e] st1]; [reflexivity | exact H].
Qed.

Lemma fresh_read now st :
  fresh now st = true -> getAllDocuments now st = (Ok (Map_values (cache st)), st).
Proof. unfold fresh, getAllDocuments. now intros ->. Qed.

(** X19.  [countDocuments] has no such wrapping: on a store that answers
    from its cache, a [$regex] whose pattern the runtime rejects makes
    [countDocuments] raise the SyntaxError of [new RegExp] itself, with the
    engine's message, where [find] with the same filter raises a
    [DiscordDBError] carrying that message. *)
Theorem countDocuments_passes_filter_errors (f pattern message : string) (now : Z)
  (st : state) :
  fresh now st = true ->
  is_logical f = false ->
  RegExp_new pattern "" = Rejected message ->
  fst (countDocuments (regex_filter f pattern) now st) = Throw (mkError SyntaxError message)
  /\ fst (find (regex_filter f pattern) no_options now st)
     = Throw (mkError DiscordDBError message).
Proof.
  intros Hfresh Hf Hre.
  assert (Hdoc : forall d, matchesFilter d (regex_filter f pattern)
                           = Throw (mkError SyntaxError message)).
  { intros d. unfold regex_filter. rewrite (FilterExtras.field_entry _ _ _ Hf).
    unfold evaluateFieldFilter, evaluateFieldFilterF, evaluateOperatorsF.
    rewrite FilterExtras.everyM_single. cbn [fst snd String.eqb Ascii.eqb Bool.eqb].
    unfold regex_test. cbn [assoc_get String.eqb Ascii.eqb Bool.eqb String_]. now rewrite Hre. }
  assert (Hne : exists d rest, Map_values (cache st) = d :: rest).
  { unfold fresh in Hfresh. apply andb_true_iff in Hfresh as [_ Hlen].
    destruct (cache st) as [|[k d] rest]; [discriminate|]. now exists d, (Map_values rest). }
  destruct Hne as (d & rest & Hc).
  unfold countDocuments, find, find_in. rewrite (fresh_read _ _ Hfresh), Hc.
  cbn [fst default_filter regex_filter filterM]. fold (regex_filter f pattern).
  rewrite Hdoc. split; reflexivity.
Qed.

End WithInstances.

(** X19, on a concrete input. *)
Lemma countDocuments_passes_filter_errors_witness :
  fst (@countDocuments Sample.runtime Sample.transport (regex_filter "name" "(") 2000
         (Sample.store [Sample.john]))
  = Throw (mkError SyntaxError "Invalid regular expression: /(/: Unterminated group")
  /\ fst (@find Sample.runtime Sample.transport (regex_filter "name" "(") no_options 2000
            (Sample.store [Sample.john]))
     = Throw (mkError DiscordDBError "Invalid regular expression: /(/: Unterminated group").
Proof.
  apply (@countDocuments_passes_filter_errors Sample.runtime Sample.transport "name" "("
           "Invalid regular expression: /(/: Unterminated group" 2000
           (Sample.store [Sample.john])); reflexivity.
Defined.

(** X18, on a concrete input: the SyntaxError of a rejected pattern reaches
    the caller of [find] as a [DiscordDBError] with its message. *)
Lemma store_raises_only_DiscordDBError_witness :
  @find Sample.runtime Sample.transport (regex_filter "name" "(") no_options 2000
     (Sample.store [Sample.john])
  = (Throw (mkError DiscordDBError "Invalid regular expression: /(/: Unterminated group"),
     Sample.store [Sample.john]).
Proof.
  exact (proj1 (proj2 (proj2 (@store_raises_only_DiscordDBError Sample.runtime Sample.transport
                                (regex_filter "name" "(") (VObj []) no_options 2000
                                (Sample.store [Sample.john])))
                  [Sample.john] (Sample.store [Sample.john])
                  (mkError SyntaxError "Invalid regular expression: /(/: Unterminated group")
                  eq_refl)
           eq_refl).
Defined.

End StoreExtras.

Module ReloadExtras.
Import Js Filters DiscordDB DiscordDBMore Spec StoreSpec StoreFacts JsFacts.

Section WithInstances.
Context {RT : Runtime} {TR : Transport}.

Lemma Map_set_Forall (Q : value * value -> Prop) (m : list (value * value)) (k v : value) :
  Forall Q m -> Q (k, v) -> Forall Q (Map_set m k v).
Proof.
  intros Hm Hkv. induction Hm as [|[k' v'] m Hx Hm IH]; simpl.
  - now constructor.
  - destruct (strict_eq k' k) eqn:E.
    + apply UpdateExtras.strict_eq_true in E. subst. now constructor.
    + now constructor.
Qed.

Lemma Map_set_length (m : list (value * value)) (k v : value) :
  (List.length (Map_set m k v) <= S (List.length m))%nat.
Proof.
  induction m as [|[k' v'] m IH]; simpl; [lia|].
  destruct (strict_eq k' k); simpl; lia.
Qed.

Lemma parse_message_stamped (m : message) (d : value) :
  parse_message m = Some d -> stamped m d.
Proof.
  unfold parse_message. destruct (blank (content m)); [discriminate|].
  destruct (JSON_parse (content m)) as [[| | | | | |fields]|]; try discriminate.
  cbn [set_prop get_prop].
  destruct (truthy _) eqn:T; [|discriminate]. intros [= <-].
  unfold stamped. cbn [get_prop]. split; [exact T|]. split.
  - rewrite assoc_get_set_other by discriminate. apply assoc_get_set_same.
  - apply assoc_get_set_same.
Qed.

Lemma reload_step_keeps (all : list message) (m : message) acc :
  In m all -> reloaded all acc -> reloaded all (reload_step acc m).
Proof.
  intros Hm (Hd & Hc & Hl). unfold reload_step.
  destruct (parse_message m) as [doc|] eqn:P; [|now repeat split].
  apply parse_message_stamped in P. unfold reloaded. cbn [fst snd]. split; [|split].
  - apply Forall_app. split; [exact Hd|]. constructor; [|constructor]. now exists m.
  - apply Map_set_Forall.
    + eapply Forall_impl; [|exact Hc]. intros kv [H1 H2]. split; [exact H1|].
      apply in_or_app. now left.
    + cbn [fst snd]. split; [reflexivity|]. apply in_or_app. right. now left.
  - rewrite length_app. cbn [List.length].
    pose proof (Map_set_length (snd acc) (get_prop doc "_id") doc). lia.
Qed.

Lemma reload_keeps (all : list message) (messages : list message) : forall acc,
  incl messages all -> reloaded all acc ->
  reloaded all (fold_left reload_step messages acc).
Proof.
  induction messages as [|m messages IH]; intros acc Hincl Hacc; [exact Hacc|].
  cbn [fold_left]. apply IH.
  - intros x Hx. apply Hincl. now right.
  - apply reload_step_keeps; [apply Hincl; now left | exact Hacc].
Qed.

Lemma reload_length (messages : list message) : forall acc,
  (List.length (fst (fold_left reload_step messages acc))
   <= List.length (fst acc) + List.length messages)%nat.
Proof.
  induction messages as [|m messages IH]; intros acc; cbn [fold_left List.length]; [lia|].
  specialize (IH (reload_step acc m)).
  assert (List.length (fst (reload_step acc m)) <= S (List.length (fst acc)))%nat.
  { unfold reload_step. destruct (parse_message m); cbn [fst]; [|lia].
    rewrite length_app. simpl. lia. }
  lia.
Qed.

(** X20.  A reload stamps and files what it reads: when the cache is not
    used and the transport answers, every document returned has a truthy
    [_id] and carries, as [_messageId] and [_timestamp], the identifier and
    the time stamp of one of the messages (whatever its content said of these
    two fields); every entry of the new cache is filed under the [_id] of the
    document it holds, and that document is one of those returned; the cache
    has at most as many entries as documents were returned, and these at most
    as many as messages; the reload is dated [now] and costs one request. *)
Theorem reload_stamps_and_files (now : Z) (st : state) (messages : list message) :
  fresh now st = false ->
  client_getAllMessages (requests st) = Ok messages ->
  exists docs st1,
    getAllDocuments now st = (Ok docs, st1)
    /\ Forall (fun d => exists m, In m messages
                        /\ truthy (get_prop d "_id") = true
                        /\ get_prop d "_messageId" = VStr (id m)
                        /\ get_prop d "_timestamp" = VStr (timestamp m)) docs
    /\ Forall (fun kv => fst kv = get_prop (snd kv) "_id" /\ In (snd kv) docs) (cache st1)
    /\ (List.length (cache st1) <= List.length docs <= List.length messages)%nat
    /\ lastCacheUpdate st1 = now
    /\ requests st1 = (requests st ++ [GetAllMessages])%list.
Proof.
  intros Hfresh Hget. unfold fresh in Hfresh. unfold getAllDocuments.
  rewrite Hfresh, Hget. eexists. eexists. split; [reflexivity|].
  cbn [cache lastCacheUpdate requests].
  destruct (reload_keeps messages messages ([], []) (incl_refl _)) as (Hd & Hc & Hl).
  { unfold reloaded. cbn [fst snd]. repeat split; auto. }
  pose proof (reload_length messages ([], [])) as Hlen. cbn [fst List.length] in Hlen.
  repeat split; auto; try lia.
Qed.

End WithInstances.

(** X20, on a concrete input: the channel holds one message. *)
Lemma reload_stamps_and_files_witness :
  exists docs st1,
    @getAllDocuments SampleMore.note_runtime SampleMore.note_transport 5000 Sample.empty_store
    = (Ok docs, st1)
    /\ Forall (fun kv => fst kv = get_prop (snd kv) "_id" /\ In (snd kv) docs) (cache st1)
    /\ lastCacheUpdate st1 = 5000.
Proof.
  destruct (@reload_stamps_and_files SampleMore.note_runtime SampleMore.note_transport 5000
              Sample.empty_store
              [mkMessage "m7" (stringify SampleMore.note) "2024-05-01T10:00:00.000Z"]
              eq_refl eq_refl)
    as (docs & st1 & Hget & _ & Hcache & _ & Hdate & _).
  exists docs, st1. split; [exact Hget|]. split; [exact Hcache | exact Hdate].
Defined.

End ReloadExtras.

Module CacheExtras.
Import Js Filters DiscordDB DiscordDBMore Spec StoreSpec StoreFacts JsFacts.

Section WithInstances.
Context {RT : Runtime} {TR : Transport}.

Lemma stale_read now st :
  fresh now st = false ->
  requests (snd (getAllDocuments now st)) = (requests st ++ [GetAllMessages])%list.
Proof.
  unfold fresh, getAllDocuments. intros ->.
  destruct (client_getAllMessages (requests st)); reflexivity.
Qed.

Lemma find_requests filter options now st :
  requests (snd (find filter options now st)) = requests (snd (getAllDocuments now st)).
Proof. unfold find. now destruct (getAllDocuments now st) as [[docs|e] st1]. Qed.

(** X21.  [clearCache] and a time-out that is not positive both force the
    next read to go to the channel: after [clearCache], and after
    [setCacheTimeout] with a value that is not positive (the clock not running
    backwards), [find] dispatches one request for all the messages, whatever
    the cache held and however recent it was. *)
Theorem cleared_or_expired_cache_reloads (filter : value) (options : QueryOptions)
  (now timeoutMs : Z) (st : state) :
  timeoutMs <= 0 -> lastCacheUpdate st <= now ->
  requests (snd (find filter options now (clearCache st)))
  = (requests st ++ [GetAllMessages])%list
  /\ requests (snd (find filter options now (setCacheTimeout timeoutMs st)))
     = (requests st ++ [GetAllMessages])%list.
Proof.
  intros Ht Hnow. rewrite !find_requests. split.
  - apply (stale_read now (clearCache st)). unfold fresh, clearCache. cbn [cache List.length].
    apply andb_false_r.
  - apply (stale_read now (setCacheTimeout timeoutMs st)).
    unfold fresh, setCacheTimeout. cbn [cache lastCacheUpdate cacheTimeout].
    apply andb_false_iff. left. apply Z.ltb_ge. lia.
Qed.

(** ** Looking a document up by its identifier *)

Lemma compareValues_string (a : value) (s : string) :
  compareValues a (VStr s) = strict_eq a (VStr s).
Proof.
  destruct a as [| | b | n | x | items | fields];
    cbn [compareValues strict_eq is_object]; try reflexivity.
  now destruct (String.eqb x s).
Qed.

Lemma id_filter_on_object (fs : list (string * value)) (id : string) :
  matchesFilter (VObj fs) (VObj [("_id", VStr id)])
  = Ok (strict_eq (assoc_get fs "_id") (VStr id)).
Proof.
  rewrite FilterExtras.field_entry by reflexivity.
  unfold evaluateFieldFilter, evaluateFieldFilterF.
  now rewrite compareValues_string.
Qed.

Lemma strict_eq_trans_l (a b c : value) :
  strict_eq a b = true -> strict_eq a c = strict_eq b c.
Proof. intros H. apply UpdateExtras.strict_eq_true in H. now subst. Qed.

Lemma lookup_by_filter (c : list (value * value)) (id : string) :
  forallb filed c = true ->
  exists kept,
    filterM (fun doc => matchesFilter doc (VObj [("_id", VStr id)])) (Map_values c) = Ok kept
    /\ first_or_null (firstn 1 kept)
       = match Map_get c (VStr id) with Some d => d | None => VNull end.
Proof.
  induction c as [|[k d] c IH]; intros Hf; [exists []; split; reflexivity|].
  cbn [forallb] in Hf. apply andb_true_iff in Hf as [Hkd Hf].
  destruct (IH Hf) as (kept & Hkept & Hfirst).
  unfold filed in Hkd. cbn [fst snd] in Hkd. destruct d as [| | | | | |fs]; try discriminate.
  cbn [Map_values map snd filterM Map_get]. fold (Map_values c).
  rewrite id_filter_on_object, Hkept. cbn [bind].
  rewrite (strict_eq_trans_l _ _ (VStr id) Hkd).
  destruct (strict_eq (assoc_get fs "_id") (VStr id)).
  - eexists. split; [reflexivity|]. reflexivity.
  - eexists. split; [reflexivity|]. exact Hfirst.
Qed.

Lemma slice_first (l : list value) : slice (slice l 0 None) 0 (Some 1) = firstn 1 l.
Proof.
  rewrite PageExtras.slice_from by lia. rewrite PageExtras.slice_to by lia. reflexivity.
Qed.

Lemma findById_fresh (id : string) (now : Z) (st : state) :
  fresh now st = true ->
  forallb filed (cache st) = true ->
  findById id now st
  = (Ok (match Map_get (cache st) (VStr id) with Some d => d | None => VNull end), st).
Proof.
  intros Hfresh Hfiled. unfold findById, findOne, find.
  rewrite (StoreExtras.fresh_read _ _ Hfresh).
  destruct (lookup_by_filter (cache st) id Hfiled) as (kept & Hkept & Hfirst).
  unfold find_in. cbn [default_filter]. rewrite Hkept.
  cbn [bind sort projection limit skip truthy rethrow documents applyPagination].
  rewrite slice_first. now rewrite Hfirst.
Qed.

End WithInstances.

(** X21, on a concrete input. *)
Lemma cleared_or_expired_cache_reloads_witness :
  requests (snd (@find Sample.runtime Sample.transport (VObj []) no_options 2000
                   (clearCache (Sample.store [Sample.john]))))
  = [GetAllMessages]
  /\ requests (snd (@find Sample.runtime Sample.transport (VObj []) no_options 2000
                      (setCacheTimeout 0 (Sample.store [Sample.john]))))
     = [GetAllMessages].
Proof.
  apply (@cleared_or_expired_cache_reloads Sample.runtime Sample.transport (VObj []) no_options
           2000 0 (Sample.store [Sample.john])).
  - lia.
  - cbn. lia.
Defined.

End CacheExtras.

Module WriteExtras.
Import Js Filters DiscordDB DiscordDBMore Spec StoreSpec StoreFacts JsFacts CacheExtras.

Section WithInstances.
Context {RT : Runtime} {TR : Transport}.

(** X22.  On a store that answers from its cache, whose entries are filed
    under the identifiers of the objects they hold, [findById] is a look-up:
    it returns the document cached under the identifier, or [null] when there
    is none, dispatches nothing and leaves the store as it is. *)
Theorem findById_reads_fresh_cache (id : string) (now : Z) (st : state) :
  fresh now st = true ->
  forallb filed (cache st) = true ->
  findById id now st
  = (Ok (match Map_get (cache st) (VStr id) with Some d => d | None => VNull end), st).
Proof. apply findById_fresh. Qed.

Lemma Map_get_filed (c : list (value * value)) (k d : value) :
  forallb filed c = true -> Map_get c k = Some d ->
  exists fs, d = VObj fs /\ assoc_get fs "_id" = k.
Proof.
  induction c as [|[k' d'] c IH]; intros Hf Hg; [discriminate|].
  cbn [forallb] in Hf. apply andb_true_iff in Hf as [Hkd Hf]. cbn [Map_get] in Hg.
  destruct (strict_eq k' k) eqn:E; [|now apply IH].
  injection Hg as <-. unfold filed in Hkd. cbn [fst snd] in Hkd.
  destruct d' as [| | | | | |fs]; try discriminate.
  exists fs. split; [reflexivity|].
  apply UpdateExtras.strict_eq_true in E, Hkd. congruence.
Qed.

Lemma Map_set_filed (c : list (value * value)) (k : value) (fs : list (string * value)) :
  forallb filed c = true -> strict_eq k (assoc_get fs "_id") = true ->
  forallb filed (Map_set c k (VObj fs)) = true.
Proof.
  intros Hf Hk. induction c as [|[k' d'] c IH]; cbn [Map_set forallb].
  - unfold filed. cbn [fst snd]. now rewrite Hk.
  - cbn [forallb] in Hf. apply andb_true_iff in Hf as [Hkd Hf].
    destruct (strict_eq k' k) eqn:E; cbn [forallb].
    + rewrite Hf, andb_true_r. unfold filed. cbn [fst snd].
      apply UpdateExtras.strict_eq_true in E. now subst.
    + now rewrite Hkd, IH.
Qed.

Lemma Map_get_set (c : list (value * value)) (k v : value) :
  strict_eq k k = true -> Map_get (Map_set c k v) k = Some v.
Proof.
  intros Hk. induction c as [|[k' d'] c IH]; cbn [Map_set Map_get].
  - now rewrite Hk.
  - destruct (strict_eq k' k) eqn:E; cbn [Map_get]; rewrite E; auto.
Qed.

Lemma Map_set_nonempty (c : list (value * value)) (k v : value) :
  Nat.ltb 0 (List.length (Map_set c k v)) = true.
Proof. destruct c as [|[k' d'] c]; cbn [Map_set]; [|destruct (strict_eq k' k)]; reflexivity. Qed.


(** ** [deleteMany] *)

Lemma deleteMany_step_effect (st : state) (n : Z) (doc : value) :
  n <= snd (deleteMany_step (st, n) doc) <= n + 1
  /\ requests (fst (deleteMany_step (st, n) doc))
     = (requests st ++ [DeleteMessage (String_ (get_prop doc "_messageId"))])%list
  /\ incl (cache (fst (deleteMany_step (st, n) doc))) (cache st).
Proof.
  unfold deleteMany_step. destruct (client_deleteMessage (requests st) _); cbn [fst snd].
  - split; [lia|]. split; [reflexivity|].
    cbn [cache with_cache dispatched]. intros x Hx. unfold Map_delete in Hx.
    apply filter_In in Hx. tauto.
  - split; [lia|]. split; [reflexivity | apply incl_refl].
Qed.

Lemma deleteMany_loop (matching : list value) : forall st n,
  n <= snd (fold_left deleteMany_step matching (st, n)) <= n + Z.of_nat (List.length matching)
  /\ requests (fst (fold_left deleteMany_step matching (st, n)))
     = (requests st
        ++ map (fun doc => DeleteMessage (String_ (get_prop doc "_messageId"))) matching)%list
  /\ incl (cache (fst (fold_left deleteMany_step matching (st, n)))) (cache st).
Proof.
  induction matching as [|doc matching IH]; intros st n.
  - cbn [fold_left fst snd List.length map]. rewrite app_nil_r.
    split; [lia|]. split; [reflexivity | apply incl_refl].
  - cbn [fold_left]. pose proof (deleteMany_step_effect st n doc) as (Hn & Hr & Hc).
    destruct (deleteMany_step (st, n) doc) as [st' n']. cbn [fst snd] in Hn, Hr, Hc.
    destruct (IH st' n') as (Hn' & Hr' & Hc').
    split; [|split].
    + change (List.length (doc :: matching)) with (S (List.length matching)). lia.
    + rewrite Hr', Hr. cbn [map]. now rewrite <- app_assoc.
    + intros x Hx. apply Hc, Hc', Hx.
Qed.

(** X24.  [deleteMany] goes through every matching document: once the
    documents are at hand and the filter evaluates on each of them, it
    dispatches one delete per matching document, in their order, whether or
    not the earlier ones succeeded; it answers with a count between 0 and the
    number of matching documents, and only removes entries from the cache. *)
Theorem deleteMany_counts (filter : value) (now : Z) (st st1 : state) (docs : list value) :
  getAllDocuments now st = (Ok docs, st1) ->
  (forall doc, In doc docs -> exists b, matchesFilter doc filter = Ok b) ->
  let matching := List.filter (matched filter) docs in
  exists n st2,
    deleteMany filter now st = (Ok (mkDelete true n), st2)
    /\ 0 <= n <= Z.of_nat (List.length matching)
    /\ requests st2
       = (requests st1
          ++ map (fun doc => DeleteMessage (String_ (get_prop doc "_messageId"))) matching)%list
    /\ incl (cache st2) (cache st1).
Proof.
  intros Hdocs Hok matching. unfold deleteMany. rewrite Hdocs.
  rewrite (filterM_filter _ _ Hok). fold (matched filter). fold matching.
  pose proof (deleteMany_loop matching st1 0) as H.
  destruct (fold_left deleteMany_step matching (st1, 0)) as [st2 n].
  cbn [fst snd] in H. exists n, st2. split; [reflexivity|]. exact H.
Qed.

(** X25.  [countDocuments] and [exists] agree with [find]: whenever [find]
    succeeds, with whatever options, [countDocuments] with the same filter on
    the same store returns the [total] of that result, [exists] tells whether
    it is positive, and both leave the store in the state [find] leaves. *)
Theorem countDocuments_is_find_total (filter : value) (options : QueryOptions) (now : Z)
  (st st1 : state) (r : FindResult) :
  find filter options now st = (Ok r, st1) ->
  countDocuments filter now st = (Ok (total r), st1)
  /\ exists_ filter now st = (Ok (0 <? total r), st1).
Proof.
  intros Hfind.
  assert (Hcount : countDocuments filter now st = (Ok (total r), st1)).
  { unfold find in Hfind. unfold countDocuments.
    destruct (getAllDocuments now st) as [[docs|e] st'] eqn:G; [|discriminate].
    unfold find_in in Hfind.
    destruct (filterM _ docs) as [kept|e]; [|discriminate].
    cbn [bind rethrow] in Hfind |- *. injection Hfind as <- <-. cbn [total].
    destruct (truthy (sort options)); [|reflexivity]. now rewrite length_sortDocuments. }
  split; [exact Hcount|]. unfold exists_. now rewrite Hcount.
Qed.

Lemma length_applyProjection (docs : list value) (projection : value) :
  List.length (applyProjection docs projection) = List.length docs.
Proof.
  unfold applyProjection. destruct (negb (truthy projection) || _); [reflexivity|].
  apply length_map.
Qed.

(** X26.  [hasMore], for a [skip] and a [limit] that are not negative, tells
    whether documents remain after the page: it is [skip + limit < total]
    when a non-zero [limit] is given, and [false] without a [limit] or with
    the [limit] 0, although such a page leaves documents out. *)
Theorem hasMore_formula (filter : value) (options : QueryOptions) (now : Z)
  (st st1 : state) (r : FindResult) :
  find filter options now st = (Ok r, st1) ->
  0 <= match skip options with Some k => k | None => 0 end ->
  0 <= match limit options with Some n => n | None => 0 end ->
  hasMore r
  = match limit options with
    | Some n =>
        if n =? 0 then false
        else match skip options with Some k => k | None => 0 end + n <? total r
    | None => false
    end.
Proof.
  intros Hfind Hskip Hlimit. unfold find in Hfind.
  destruct (getAllDocuments now st) as [[docs|e] st'] eqn:G; [|discriminate].
  unfold find_in in Hfind. destruct (filterM _ docs) as [kept|e]; [|discriminate].
  cbn [bind rethrow] in Hfind. injection Hfind as <- <-. cbn [hasMore total].
  set (sorted := if truthy (sort options) then sortDocuments kept (sort options) else kept).
  destruct (limit options) as [n|]; [|reflexivity].
  destruct (n =? 0) eqn:E0; [reflexivity|].
  apply Z.eqb_neq in E0. cbn [negb].
  assert (Hlen : List.length
            (if truthy (projection options)
             then applyProjection (applyPagination sorted (skip options) (Some n))
                    (projection options)
             else applyPagination sorted (skip options) (Some n))
          = List.length (applyPagination sorted (skip options) (Some n)))
    by (destruct (truthy (projection options)); [apply length_applyProjection | reflexivity]).
  rewrite Hlen. clear Hlen.
  assert (Hpage : applyPagination sorted (skip options) (Some n)
                  = firstn (Z.to_nat n)
                      (skipn (Z.to_nat match skip options with Some k => k | None => 0 end)
                             sorted)).
  { destruct (skip options) as [k|]; [apply PageExtras.page; lia|].
    unfold applyPagination. rewrite PageExtras.slice_from, PageExtras.slice_to by lia.
    reflexivity. }
  rewrite Hpage, length_firstn, length_skipn.
  destruct (_ + n <? _) eqn:C;
    [apply Z.ltb_lt in C; apply Z.ltb_lt | apply Z.ltb_ge in C; apply Z.ltb_ge]; lia.
Qed.

End WithInstances.

Import Sample.

(** X22, on a concrete input. *)
Lemma findById_reads_fresh_cache_witness :
  @findById runtime transport "2" 2000 (store [john; jane])
  = (Ok jane, store [john; jane]).
Proof.
  apply (@findById_reads_fresh_cache runtime transport "2" 2000 (store [john; jane]));
    reflexivity.
Defined.


(** X24, on a concrete input. *)
Lemma deleteMany_counts_witness :
  exists n st2,
    @deleteMany runtime transport (VObj [("age", VNum 30)]) 2000 (store [john; jane])
    = (Ok (mkDelete true n), st2)
    /\ 0 <= n <= 1
    /\ requests st2 = [DeleteMessage "m1"]
    /\ incl (cache st2) (cache (store [john; jane])).
Proof.
  apply (@deleteMany_counts runtime transport (VObj [("age", VNum 30)]) 2000
           (store [john; jane]) (store [john; jane]) [john; jane]).
  - reflexivity.
  - intros doc [<-|[<-|[]]]; eexists; reflexivity.
Defined.

(** X25, on a concrete input. *)
Lemma countDocuments_is_find_total_witness :
  @countDocuments runtime transport (VObj []) 2000 (store [john; jane])
  = (Ok 2, store [john; jane])
  /\ @exists_ runtime transport (VObj []) 2000 (store [john; jane])
     = (Ok true, store [john; jane]).
Proof.
  apply (@countDocuments_is_find_total runtime transport (VObj []) no_options 2000
           (store [john; jane]) (store [john; jane]) (mkFind [john; jane] 2 false)).
  reflexivity.
Defined.

(** X26, on a concrete input: the first page of one document out of two. *)
Lemma hasMore_formula_witness :
  hasMore (mkFind [john] 2 true) = true.
Proof.
  apply (@hasMore_formula runtime transport (VObj [])
           (mkOptions (Some 1) (Some 0) VUndefined VUndefined) 2000
           (store [john; jane]) (store [john; jane]) (mkFind [john] 2 true)).
  - reflexivity.
  - cbn. lia.
  - cbn. lia.
Defined.

End WriteExtras.

Module InsertExtras.
Import Js Filters DiscordDB DiscordDBMore Spec SpecMore StoreSpec StoreFacts JsFacts CacheExtras.

Lemma distinct_assoc_set (l : list (string * value)) (k : string) (x : value) :
  distinct (map fst l) = true -> distinct (map fst (assoc_set l k x)) = true.
Proof.
  induction l as [|[k' v] l IH]; intros Hd; [reflexivity|].
  cbn [map fst distinct] in Hd. apply andb_true_iff in Hd as [Hnew Hd].
  cbn [assoc_set]. destruct (String.eqb k' k) eqn:E.
  - cbn [map fst distinct]. now rewrite Hnew, Hd.
  - cbn [map fst distinct]. rewrite (IH Hd), andb_true_r.
    apply negb_true_iff in Hnew. apply negb_true_iff.
    clear - Hnew E. induction l as [|[k2 v2] l IH]; cbn [assoc_set map fst existsb] in *.
    + now rewrite E.
    + apply orb_false_iff in Hnew as [H1 H2].
      destruct (String.eqb k2 k); cbn [map fst existsb]; rewrite H1; auto.
Qed.

Lemma distinct_spread (base : list (string * value)) (extra : value) :
  distinct (map fst base) = true -> distinct (map fst (spread base extra)) = true.
Proof.
  intros Hb. unfold spread.
  assert (H : forall entries acc, distinct (map fst acc) = true ->
            distinct (map fst (fold_left (fun acc kv => assoc_set acc (fst kv) (snd kv))
                                         entries acc)) = true).
  { induction entries as [|[k v] entries IH]; intros acc Ha; [exact Ha|].
    cbn [fold_left]. apply IH. now apply distinct_assoc_set. }
  destruct extra; auto.
Qed.

Lemma assoc_get_absent (l : list (string * value)) (k : string) :
  assoc_mem l k = false -> assoc_get l k = VUndefined.
Proof.
  induction l as [|[k' v] l IH]; intros H; [reflexivity|].
  cbn [assoc_mem] in H. apply orb_false_iff in H as [H1 H2].
  cbn [assoc_get]. rewrite H1. now apply IH.
Qed.

Lemma copy_of_distinct (l : list (string * value)) (k : string) :
  distinct (map fst l) = true -> assoc_get (spread [] (VObj l)) k = assoc_get l k.
Proof.
  intros Hd. unfold spread. cbn [Object_entries].
  rewrite UpdateExtras.fold_assoc_set_get by exact Hd.
  destruct (assoc_mem l k) eqn:M; [reflexivity|]. cbn [assoc_get].
  symmetry. now apply assoc_get_absent.
Qed.

Lemma prepared_is_object (document : value) (generated : string) :
  exists l, prepareDocumentForInsert document generated = VObj l
            /\ distinct (map fst l) = true.
Proof.
  unfold prepareDocumentForInsert.
  assert (Hs : distinct (map fst (spread [] document)) = true) by now apply distinct_spread.
  destruct (negb (truthy (get_prop (VObj (spread [] document)) "_id"))).
  - eexists. split; [reflexivity|]. now apply distinct_assoc_set.
  - eexists. split; [reflexivity | exact Hs].
Qed.

Section WithInstances.
Context {RT : Runtime} {TR : Transport} {SN : Sender}.

(** X27.  An inserted document can be read back: when [insertOne] sends a
    document whose identifier (its own, or the generated one when it has none)
    is the string [key], it answers with that identifier and the identifier of
    the message, dispatches no other request, and a [findById] of [key]
    within the time-out returns the stored document: the one that was sent,
    with the identifier and the time stamp of the message as [_messageId] and
    [_timestamp]. *)
Theorem insertOne_then_findById (document : value) (generated key content : string)
  (sent : list string) (now : Z) (st : state) (m : message) :
  get_prop (prepareDocumentForInsert document generated) "_id" = VStr key ->
  serialize (prepareDocumentForInsert document generated) = Ok content ->
  too_large content = false ->
  client_sendMessage (requests st) sent content = Ok m ->
  forallb filed (cache st) = true ->
  now - lastCacheUpdate st < cacheTimeout st ->
  exists stored st1,
    insertOne document generated sent st
    = (Ok (mkInsert true (VStr key) (id m)), (st1, (sent ++ [content])%list))
    /\ requests st1 = requests st
    /\ findById key now st1 = (Ok stored, st1)
    /\ get_prop stored "_messageId" = VStr (id m)
    /\ get_prop stored "_timestamp" = VStr (timestamp m)
    /\ forall k, k <> "_messageId" -> k <> "_timestamp" ->
         get_prop stored k = get_prop (prepareDocumentForInsert document generated) k.
Proof.
  intros Hkey Hser Hsize Hsend Hfiled Hnow.
  destruct (prepared_is_object document generated) as (l & Hl & Hd).
  unfold insertOne. rewrite Hser, Hsize, Hsend. rewrite Hl in *. cbn [get_prop] in Hkey.
  cbn [set_prop get_prop].
  set (stored := assoc_set
                   (assoc_set (assoc_set (spread [] (VObj l)) "_id" (assoc_get l "_id"))
                              "_messageId" (VStr (id m)))
                   "_timestamp" (VStr (timestamp m))).
  assert (Hid : assoc_get stored "_id" = VStr key).
  { unfold stored. rewrite !assoc_get_set_other by discriminate.
    now rewrite assoc_get_set_same. }
  rewrite Hid. exists (VObj stored). eexists. split; [reflexivity|].
  split; [reflexivity|]. split; [|split; [|split]].
  - rewrite findById_fresh.
    + cbn [cache with_cache]. rewrite WriteExtras.Map_get_set by apply String.eqb_refl.
      reflexivity.
    + unfold fresh. cbn [cache lastCacheUpdate cacheTimeout with_cache].
      rewrite WriteExtras.Map_set_nonempty, andb_true_r. now apply Z.ltb_lt.
    + cbn [cache with_cache]. apply WriteExtras.Map_set_filed; [exact Hfiled|].
      rewrite Hid. apply String.eqb_refl.
  - cbn [get_prop]. unfold stored. rewrite assoc_get_set_other by discriminate.
    apply assoc_get_set_same.
  - cbn [get_prop]. unfold stored. apply assoc_get_set_same.
  - intros k Hk1 Hk2. cbn [get_prop]. unfold stored.
    rewrite !assoc_get_set_other by congruence.
    destruct (String.eqb "_id" k) eqn:E.
    + apply String.eqb_eq in E. subst k. apply assoc_get_set_same.
    + rewrite assoc_get_set_other by (now apply String.eqb_neq).
      now apply copy_of_distinct.
Qed.

Lemma insertOne_effect (document : value) (generated : string) (sent : list string)
  (st : state) :
  let out := insertOne document generated sent st in
  requests (fst (snd out)) = requests st
  /\ lastCacheUpdate (fst (snd out)) = lastCacheUpdate st
  /\ (match fst out with
      | Ok _ => exists content, snd (snd out) = (sent ++ [content])%list
      | Throw _ => snd (snd out) = sent \/ exists content, snd (snd out) = (sent ++ [content])%list
      end)
  /\ (match fst out with Ok _ => True | Throw _ => cache (fst (snd out)) = cache st end).
Proof.
  unfold insertOne.
  destruct (serialize _) as [content|e]; [|cbn; auto].
  destruct (too_large content); [cbn; auto|].
  destruct (client_sendMessage _ _ _) as [m|e]; cbn [fst snd requests lastCacheUpdate with_cache cache];
    repeat split; eauto.
Qed.

(** X28.  [insertMany] outlives the failures of its documents: it raises
    nothing, returns at most one result per document, each backed by a
    message that was sent, sends at most one message per document, and
    neither dispatches another request nor touches the date of the cache. *)
Theorem insertMany_outlives_failures (documents : list value) (generated : nat -> string)
  (sent : list string) (st : state) :
  let out := insertMany documents generated sent st in
  (List.length (fst out) <= List.length (snd (snd out)) - List.length sent
   <= List.length documents)%nat
  /\ (exists more, snd (snd out) = (sent ++ more)%list)
  /\ requests (fst (snd out)) = requests st
  /\ lastCacheUpdate (fst (snd out)) = lastCacheUpdate st.
Proof.
  intros out. subst out. unfold insertMany.
  assert (G : forall docs results i st0 sent0,
            let '(results', _, (st', sent')) :=
              fold_left (insertMany_step generated) docs (results, i, (st0, sent0)) in
            (List.length results' - List.length results
             <= List.length sent' - List.length sent0 <= List.length docs)%nat
            /\ (List.length results <= List.length results')%nat
            /\ (exists more, sent' = (sent0 ++ more)%list)
            /\ requests st' = requests st0
            /\ lastCacheUpdate st' = lastCacheUpdate st0).
  { induction docs as [|doc docs IH]; intros results i st0 sent0.
    - cbn [fold_left List.length]. repeat split; try lia. exists []. now rewrite app_nil_r.
    - cbn [fold_left]. unfold insertMany_step at 2.
      pose proof (insertOne_effect doc (generated i) sent0 st0) as (Hr & Ht & Hs & _).
      destruct (insertOne doc (generated i) sent0 st0) as [[r|e] [st1 sent1]];
        cbn [fst snd] in Hr, Ht, Hs.
      + destruct Hs as [content ->].
        specialize (IH (results ++ [r])%list (S i) st1 (sent0 ++ [content])%list).
        destruct (fold_left _ docs _) as [[results' j] [st' sent']].
        destruct IH as (H1 & H2 & [more ->] & H4 & H5).
        rewrite !length_app in *. cbn [List.length] in *.
        repeat split; try lia; try congruence.
        exists (content :: more). now rewrite <- app_assoc.
      + specialize (IH results (S i) st1 sent1).
        destruct (fold_left _ docs _) as [[results' j] [st' sent']].
        destruct IH as (H1 & H2 & [more ->] & H4 & H5).
        destruct Hs as [-> | [content ->]].
        * rewrite !length_app in *. cbn [List.length] in *.
          repeat split; try lia; try congruence. now exists more.
        * rewrite !length_app in *. cbn [List.length] in *.
          repeat split; try lia; try congruence.
          exists (content :: more). now rewrite <- app_assoc. }
  specialize (G documents [] O st sent).
  destruct (fold_left _ documents _) as [[results' j] [st' sent']].
  cbn [fst snd]. cbn [List.length] in G. destruct G as (H1 & H2 & H3 & H4 & H5).
  repeat split; auto; lia.
Qed.

End WithInstances.

(** X27, on a concrete input: a document without an identifier. *)
Lemma insertOne_then_findById_witness :
  exists stored st1,
    @insertOne SampleMore.sender (VObj [("title", VStr "tea")]) "k1" []
       (Sample.store [Sample.john])
    = (Ok (mkInsert true (VStr "k1") "0"),
       (st1, [stringify (VObj [("title", VStr "tea"); ("_id", VStr "k1")])]))
    /\ @findById Sample.runtime Sample.transport "k1" 2000 st1 = (Ok stored, st1)
    /\ get_prop stored "_messageId" = VStr "0"
    /\ get_prop stored "title" = VStr "tea".
Proof.
  destruct (@insertOne_then_findById Sample.runtime Sample.transport SampleMore.sender
              (VObj [("title", VStr "tea")]) "k1" "k1"
              (stringify (VObj [("title", VStr "tea"); ("_id", VStr "k1")])) [] 2000
              (Sample.store [Sample.john])
              (mkMessage "0" (stringify (VObj [("title", VStr "tea"); ("_id", VStr "k1")]))
                 "2024-05-01T10:00:00.000Z")
              eq_refl eq_refl eq_refl eq_refl eq_refl eq_refl)
    as (stored & st1 & Hins & _ & Hfind & Hmsg & _ & Hrest).
  exists stored, st1. split; [exact Hins|]. split; [exact Hfind|]. split; [exact Hmsg|].
  rewrite (Hrest "title") by discriminate. reflexivity.
Defined.

End InsertExtras.

(* ================================================================== *)
(** * Properties of the client *)
(* ================================================================== *)

Module ClientExtras.
Import Js Client ClientSpec.

Section WithHttp.
Context {HT : Http}.

Lemma handleErrorResponse_class (response : Response) :
  err_class (handleErrorResponse response)
  = if (status response =? 401) || (status response =? 403)
    then AuthenticationError else NetworkError.
Proof.
  unfold handleErrorResponse.
  destruct (status response =? 401); [reflexivity|].
  destruct (status response =? 403); [reflexivity|].
  destruct (status response =? 404); [reflexivity|].
  destruct (status response =? 429); reflexivity.
Qed.

Lemma checked_one_request (request : Request) (log : list Request) :
  snd (checked request log) = (log ++ [request])%list
  /\ (forall e, fst (checked request log) = Throw e ->
        match fetch log request with
        | Throw _ => err_class e = NetworkError
        | Ok response =>
            ok response = false
            /\ err_class e = if (status response =? 401) || (status response =? 403)
                             then AuthenticationError else NetworkError
        end)
  /\ (forall response, fst (checked request log) = Ok response ->
        fetch log request = Ok response /\ ok response = true).
Proof.
  unfold checked, makeRequest.
  destruct (fetch log request) as [response|error].
  - destruct (ok response) eqn:E; cbn [negb fst snd].
    + split; [reflexivity|]. split; [discriminate|]. now intros ? [= <-].
    + split; [reflexivity|]. split; [|discriminate].
      intros e [= <-]. split; [reflexivity|]. apply handleErrorResponse_class.
  - cbn [fst snd]. split; [reflexivity|]. split; [|discriminate]. now intros e [= <-].
Qed.

Lemma read_json_one_request (request : Request) (log : list Request) :
  one_request log (read_json request log).
Proof.
  exists request. unfold read_json.
  pose proof (checked_one_request request log) as (Hlog & Herr & Hok).
  destruct (checked request log) as [[response|error] log1]; cbn [fst snd] in *.
  - destruct (Hok response eq_refl) as [Hf Ho]. unfold accounted_for. rewrite Hf, Ho.
    destruct (json response) as [data|error]; cbn [fst snd].
    + split; [exact Hlog | discriminate].
    + split; [exact Hlog|]. now intros e [= <-].
  - split; [exact Hlog|]. intros e [= <-]. specialize (Herr error eq_refl).
    unfold accounted_for. destruct (fetch log request) as [response|]; [|exact Herr].
    destruct Herr as [-> Hc]. exact Hc.
Qed.

(** X30.  The four requests of the client each call [fetch] once, and a
    failure is accounted for by its answer: a rejected [fetch] gives a
    NetworkError; a response that is not [ok] gives an AuthenticationError for
    the statuses 401 and 403 and a NetworkError for every other status; on an
    [ok] response the only failure is the error of reading the body, which
    [deleteMessage] does not read. *)
Theorem request_failures_are_accounted_for (client : DiscordClient)
  (content messageId : string) (limit : Z) (before after : value) (log : list Request) :
  one_request log (sendMessage client content log)
  /\ one_request log (getMessages client limit before after log)
  /\ one_request log (editMessage client messageId content log)
  /\ one_request log (deleteMessage client messageId log).
Proof.
  split; [apply read_json_one_request|]. split; [apply read_json_one_request|].
  split; [apply read_json_one_request|].
  unfold deleteMessage.
  set (request := mkRequest _ _ _ _ _).
  exists request.
  pose proof (checked_one_request request log) as (Hlog & Herr & Hok).
  destruct (checked request log) as [[response|error] log1]; cbn [fst snd] in *.
  - split; [exact Hlog | discriminate].
  - split; [exact Hlog|]. intros e [= <-]. specialize (Herr error eq_refl).
    unfold accounted_for. destruct (fetch log request) as [response|]; [|exact Herr].
    destruct Herr as [-> Hc]. exact Hc.
Qed.

(** ** The loop of [getAllMessages] *)

Lemma getMessages_request (client : DiscordClient) (limit : Z) (before after : value)
  (log : list Request) :
  exists request,
    snd (getMessages client limit before after log) = (log ++ [request])%list
    /\ method request = "GET"
    /\ hd_error (params request) = Some ("limit", string_of_Z (Z.min limit 100)).
Proof.
  unfold getMessages.
  set (request := mkRequest _ _ _ _ _).
  exists request. split.
  - destruct (read_json_one_request request log) as (r & Hr & _).
    unfold read_json in *. pose proof (checked_one_request request log) as (Hlog & _).
    destruct (checked request log) as [[response|error] log1]; cbn [fst snd] in *.
    + destruct (json response); exact Hlog.
    + exact Hlog.
  - split; [reflexivity|]. subst request. cbn [params].
    destruct (truthy before), (truthy after); reflexivity.
Qed.

Lemma batch_nonempty (messages : value) (items : list value) (next : value) :
  batch messages = Ok (Some (items, next)) -> (1 <= List.length items)%nat.
Proof.
  unfold batch. destruct messages as [| | b | n | s | l | fields]; try discriminate.
  - destruct s as [|c s]; [discriminate|]. cbn [String.eqb]. intros [= <- _].
    cbn [chars List.length]. lia.
  - destruct (rev l) as [|final rest] eqn:R; [discriminate|].
    assert (Hl : (1 <= List.length l)%nat).
    { rewrite <- length_rev, R. cbn [List.length]. lia. }
    destruct final; try discriminate; now intros [= <- _].
  - destruct (strict_eq _ _); discriminate.
Qed.

Lemma getAllMessages_loop_ends (client : DiscordClient) (maxMessages : Z) (fuel : nat) :
  forall allMessages before log,
    (Z.to_nat (maxMessages - Z.of_nat (List.length allMessages)) < fuel)%nat ->
    exists r requests,
      getAllMessages_loop fuel client maxMessages allMessages before log
      = Some (r, (log ++ requests)%list)
      /\ (List.length requests
          <= Z.to_nat (maxMessages - Z.of_nat (List.length allMessages)))%nat
      /\ Forall asks_for_a_batch requests
      /\ (maxMessages <= Z.of_nat (List.length allMessages) -> r = Ok allMessages).
Proof.
  induction fuel as [|fuel IH]; intros allMessages before log Hfuel; [lia|].
  cbn [getAllMessages_loop].
  destruct (Z.of_nat (List.length allMessages) <? maxMessages) eqn:C.
  - apply Z.ltb_lt in C.
    destruct (getMessages_request client
                (Z.min (maxMessages - Z.of_nat (List.length allMessages)) 100)
                before VUndefined log) as (request & Hlog & Hm & Hp).
    assert (Hreq : asks_for_a_batch request).
    { split; [exact Hm|].
      exists (Z.min (Z.min (maxMessages - Z.of_nat (List.length allMessages)) 100) 100).
      split; [lia | exact Hp]. }
    destruct (getMessages client _ before VUndefined log) as [[messages|error] log1];
      cbn [snd] in Hlog; subst log1.
    + destruct (batch messages) as [[[items next]|]|error] eqn:B.
      * apply batch_nonempty in B.
        destruct (IH (allMessages ++ items)%list next (log ++ [request])%list)
          as (r & requests & Hloop & Hlen & Hall & _).
        { rewrite length_app. lia. }
        exists r, (request :: requests). rewrite Hloop, <- app_assoc.
        split; [reflexivity|]. split; [|split; [now constructor | lia]].
        rewrite length_app in Hlen. cbn [List.length]. lia.
      * exists (Ok allMessages), [request]. split; [reflexivity|].
        split; [cbn [List.length]; lia|].
        split; [constructor; [exact Hreq | constructor] | reflexivity].
      * exists (Throw error), [request]. split; [reflexivity|].
        split; [cbn [List.length]; lia|].
        split; [constructor; [exact Hreq | constructor] | lia].
    + exists (Throw error), [request]. split; [reflexivity|].
      split; [cbn [List.length]; lia|].
      split; [constructor; [exact Hreq | constructor] | lia].
  - exists (Ok allMessages), []. rewrite app_nil_r. split; [reflexivity|].
    split; [cbn [List.length]; lia|]. split; [constructor | reflexivity].
Qed.

(** X29.  [getAllMessages] ends and keeps within its bounds: with
    [maxMessages + 1] turns of fuel the loop reaches its end, whatever
    [fetch] answers; it makes at most [maxMessages] requests, each a GET for
    between 1 and 100 messages, and a result holds at most [maxMessages]
    messages, also when a response held more than was asked for. *)
Theorem getAllMessages_ends_within_bounds (client : DiscordClient) (maxMessages : Z)
  (log : list Request) :
  exists r requests,
    getAllMessages (S (Z.to_nat maxMessages)) client maxMessages log
    = Some (r, (log ++ requests)%list)
    /\ (List.length requests <= Z.to_nat maxMessages)%nat
    /\ Forall asks_for_a_batch requests
    /\ match r with
       | Ok messages => Z.of_nat (List.length messages) <= Z.max maxMessages 0
       | Throw _ => True
       end.
Proof.
  destruct (getAllMessages_loop_ends client maxMessages (S (Z.to_nat maxMessages))
              [] VUndefined log) as (r & requests & Hloop & Hlen & Hall & Hnone).
  { cbn [List.length]. rewrite Z.sub_0_r. lia. }
  cbn [List.length] in Hlen, Hnone. rewrite Z.sub_0_r in Hlen.
  unfold getAllMessages. rewrite Hloop.
  destruct r as [allMessages|error].
  - exists (Ok (Filters.slice allMessages 0 (Some maxMessages))), requests.
    split; [reflexivity|]. split; [exact Hlen|]. split; [exact Hall|].
    unfold Filters.slice, Filters.slice_bound. cbn [Z.ltb Z.compare].
    rewrite length_firstn, length_skipn.
    destruct (maxMessages <? 0) eqn:N; [apply Z.ltb_lt in N | apply Z.ltb_ge in N; lia].
    assert (E : allMessages = []) by (specialize (Hnone ltac:(lia)); congruence).
    subst allMessages. cbn [List.length]. lia.
  - exists (Throw error), requests. repeat split; auto.
Qed.

End WithHttp.
End ClientExtras.
